(** * Auto-Slideshow: a shallow embedding of [auto_slideshow.py]

    The development models the script from the command line to the frames:
    [get_image_files] and [main], the timing computation at the head of
    [create_slideshow], the image normaliser [resize_image], the transition
    engine [apply_transition] and the streaming loop of [create_slideshow].

    Python [float] is IEEE-754 binary64 and is modelled bit-exactly with the
    Standard Library's [spec_float] at precision 53; Python [int] is [Z];
    numpy arrays of shape (h, w, 3) are lists of rows of pixels; exceptions
    are an explicit error type and the video writer is a list of frames.
    OpenCV, the random source, the file system and the conversions of
    strings are collaborators, given as records of functions. *)

From Stdlib Require Import String Ascii ZArith Bool List Lia Reals Lra.
From Stdlib Require Import SpecFloat.
From Stdlib Require Import Sorted Permutation.
Import ListNotations.

Local Open Scope Z_scope.

(* ===================================================================== *)
(** * Part I: definitions                                                  *)
(* ===================================================================== *)

(** ** Exceptions *)

(** The Python exception classes that the modelled code can raise. *)
Inductive exn : Type :=
| ValueError (msg : string)
| ZeroDivisionError
| OverflowError
| IndexError
| AttributeError
| cv2_error.

(** ** Python floats (binary64) *)

Module PyFloat.

Definition prec : Z := 53.
Definition emax : Z := 1024.

Definition float : Type := spec_float.

Definition fadd : float -> float -> float := SFadd prec emax.
Definition fsub : float -> float -> float := SFsub prec emax.
Definition fmul : float -> float -> float := SFmul prec emax.
Definition fdiv : float -> float -> float := SFdiv prec emax.
Definition fabs : float -> float := SFabs.

Definition flt : float -> float -> bool := SFltb.
Definition fle : float -> float -> bool := SFleb.

(** [float(z)] for a Python int: correctly rounded; exact below 2^53. *)
Definition of_int (z : Z) : float := binary_normalize prec emax z 0 false.

(** A decimal literal [n/d], correctly rounded (for instance [0.01] is
    [ratio 1 100]): the quotient of two exactly represented integers. *)
Definition ratio (n d : Z) : float := fdiv (of_int n) (of_int d).

Definition is_zero (x : float) : bool :=
  match x with S754_zero _ => true | _ => false end.

Definition is_finite (x : float) : bool :=
  match x with S754_zero _ | S754_finite _ _ _ => true | _ => false end.

(** [int(x)]: truncation toward zero; [ValueError] on NaN and
    [OverflowError] on an infinity. *)
Definition py_int (x : float) : exn + Z :=
  match x with
  | S754_zero _ => inr 0
  | S754_finite s m e => inr (cond_Zopp s (Z.shiftl (Zpos m) e))
  | S754_infinity _ => inl OverflowError
  | S754_nan => inl (ValueError "cannot convert float NaN to integer")
  end.

(** The mathematical floor of a float, where it is a number. *)
Definition floor (x : float) : option Z :=
  match x with
  | S754_zero _ => Some 0
  | S754_finite s m e => Some (Z.shiftl (cond_Zopp s (Zpos m)) e)
  | _ => None
  end.

(** [x / n] for a float and a Python int. *)
Definition div_int (x : float) (n : Z) : exn + float :=
  if n =? 0 then inl ZeroDivisionError else inr (fdiv x (of_int n)).

(** [a / b] for two Python ints (true division).  Both operands are
    image dimensions or frame counters, exactly representable. *)
Definition truediv (a b : Z) : exn + float :=
  if b =? 0 then inl ZeroDivisionError else inr (fdiv (of_int a) (of_int b)).

(** The real number denoted by a float (0 for the non-numbers). *)
Definition bpow (e : Z) : R := powerRZ 2 e.

Definition B2R (x : float) : R :=
  match x with
  | S754_finite s m e => (IZR (cond_Zopp s (Zpos m)) * bpow e)%R
  | _ => 0%R
  end.

(** Well-formed binary64 values. *)
Definition valid (x : float) : bool := valid_binary prec emax x.

End PyFloat.
Import PyFloat.

(** ** numpy arrays of shape (h, w, 3) *)

Definition pixel : Type := (Z * Z * Z)%type.

Record ndarray : Type := mk_image {
  img_width : nat;
  img_rows : list (list pixel)
}.

Definition img_height (im : ndarray) : nat := length (img_rows im).

(** [im.shape[:2]] *)
Definition shape (im : ndarray) : Z * Z :=
  (Z.of_nat (img_height im), Z.of_nat (img_width im)).

(** Every row has the declared width (arrays are rectangular). *)
Definition wf_image (im : ndarray) : Prop :=
  Forall (fun r => length r = img_width im) (img_rows im).

Definition sample_ok (v : Z) : Prop := 0 <= v <= 255.

Definition pixel_ok (p : pixel) : Prop :=
  let '(b, g, r) := p in sample_ok b /\ sample_ok g /\ sample_ok r.

(** Samples are 8-bit. *)
Definition u8_image (im : ndarray) : Prop :=
  Forall (Forall pixel_ok) (img_rows im).

Definition black : pixel := (0, 0, 0).

(** Python slice bounds [start:stop] on a sequence of length [len]. *)
Definition norm_index (len : nat) (i : Z) : nat :=
  Z.to_nat (if i <? 0 then Z.max (i + Z.of_nat len) 0 else Z.min i (Z.of_nat len)).

Definition slice_lo (len : nat) (start : option Z) : nat :=
  match start with None => 0%nat | Some i => norm_index len i end.

Definition slice_hi (len : nat) (stop : option Z) : nat :=
  match stop with None => len | Some i => norm_index len i end.

Definition slice_len (len : nat) (start stop : option Z) : nat :=
  (slice_hi len stop - slice_lo len start)%nat.

Definition py_slice {A : Type} (start stop : option Z) (l : list A) : list A :=
  firstn (slice_len (length l) start stop) (skipn (slice_lo (length l) start) l).

(** [im[r0:r1, c0:c1]] *)
Definition getitem (im : ndarray) (r0 r1 c0 c1 : option Z) : ndarray :=
  mk_image (slice_len (img_width im) c0 c1)
           (map (py_slice c0 c1) (py_slice r0 r1 (img_rows im))).

(** Broadcasting of a sequence of length 1 (or already [n]) to length [n]. *)
Definition broadcast {A : Type} (n : nat) (l : list A) : list A :=
  match l with
  | [x] => repeat x n
  | _ => l
  end.

Definition broadcastable (src tgt : nat) : bool :=
  (src =? tgt)%nat || (src =? 1)%nat.

(** Replace [length new] elements of [l] from position [lo]. *)
Definition splice {A : Type} (lo : nat) (new l : list A) : list A :=
  firstn lo l ++ new ++ skipn (lo + length new) l.

Fixpoint zip_with {A B C : Type} (f : A -> B -> C) (l : list A) (l' : list B) : list C :=
  match l, l' with
  | a :: t, b :: t' => f a b :: zip_with f t t'
  | _, _ => []
  end.

(** [dst[r0:r1, c0:c1] = src]: numpy raises [ValueError] when the shape of
    [src] cannot be broadcast to the shape of the target region. *)
Definition setitem (dst : ndarray) (r0 r1 c0 c1 : option Z) (src : ndarray) : exn + ndarray :=
  let rlo := slice_lo (img_height dst) r0 in
  let th := slice_len (img_height dst) r0 r1 in
  let clo := slice_lo (img_width dst) c0 in
  let tw := slice_len (img_width dst) c0 c1 in
  if broadcastable (img_height src) th && broadcastable (img_width src) tw then
    let src_rows := map (broadcast tw) (broadcast th (img_rows src)) in
    let old := firstn th (skipn rlo (img_rows dst)) in
    let new := zip_with (fun d s => splice clo s d) old src_rows in
    inr (mk_image (img_width dst) (splice rlo new (img_rows dst)))
  else inl (ValueError "could not broadcast input array").

(** [np.zeros_like(im)] *)
Definition zeros_like (im : ndarray) : ndarray :=
  mk_image (img_width im) (map (map (fun _ => black)) (img_rows im)).

(** ** Error results *)

Definition ebind {A B : Type} (c : exn + A) (f : A -> exn + B) : exn + B :=
  match c with
  | inl e => inl e
  | inr a => f a
  end.

Declare Scope err_scope.
Delimit Scope err_scope with err.
Notation "x <- c ;; k" := (ebind c (fun x => k))
  (at level 61, c at next level, right associativity) : err_scope.

(** ** The external collaborators *)

(** The functions of OpenCV, of the [random] module and of the file system
    that the script calls and that are not part of it. *)
Record externals : Type := {
  (** [cv2.imread(path)]: [None] when the file cannot be decoded *)
  imread : string -> option ndarray;
  (** [cv2.resize(img, (w, h))] *)
  cv2_resize : ndarray -> Z -> Z -> exn + ndarray;
  (** the result of the k-th call of [random.randint(0, 8)] *)
  randint : nat -> Z;
  (** [out.isOpened()] after [cv2.VideoWriter(file, fourcc, fps, (w, h))] *)
  writer_opened : string -> Z -> Z -> Z -> bool
}.

(** ** [cv2.addWeighted] *)

Definition saturate_u8 (z : Z) : Z := Z.max 0 (Z.min 255 z).

(** [cvRound]: the nearest integer, ties to even (0 for the non-numbers,
    where OpenCV leaves the result unspecified). *)
Definition cvRound (x : float) : Z :=
  match x with
  | S754_finite s m e =>
      if 0 <=? e then cond_Zopp s (Z.shiftl (Zpos m) e)
      else
        let q := Z.shiftl (Zpos m) e in
        let r := Zpos m - Z.shiftl q (- e) in
        let half := Z.shiftl 1 (- e - 1) in
        let up := match r ?= half with
                  | Lt => false
                  | Eq => Z.odd q
                  | Gt => true
                  end in
        cond_Zopp s (if up then q + 1 else q)
  | _ => 0
  end.

(** One sample of [src1*alpha + src2*beta + gamma], rounded and saturated. *)
Definition blend_sample (alpha beta gamma : float) (a b : Z) : Z :=
  saturate_u8
    (cvRound (fadd (fadd (fmul (of_int a) alpha) (fmul (of_int b) beta)) gamma)).

Definition blend_pixel (alpha beta gamma : float) (p q : pixel) : pixel :=
  let '(pb, pg, pr) := p in
  let '(qb, qg, qr) := q in
  (blend_sample alpha beta gamma pb qb,
   blend_sample alpha beta gamma pg qg,
   blend_sample alpha beta gamma pr qr).

Definition same_shape (a b : ndarray) : bool :=
  (img_height a =? img_height b)%nat && (img_width a =? img_width b)%nat.

(** [cv2.addWeighted(src1, alpha, src2, beta, gamma)]: the two arrays must
    have the same size, otherwise OpenCV raises [cv2.error]. *)
Definition addWeighted (src1 : ndarray) (alpha : float) (src2 : ndarray)
           (beta gamma : float) : exn + ndarray :=
  if same_shape src1 src2 then
    inr (mk_image (img_width src1)
           (zip_with (zip_with (blend_pixel alpha beta gamma))
                     (img_rows src1) (img_rows src2)))
  else inl cv2_error.

(** ** The script *)

Local Open Scope string_scope.

(** [TRANSITIONS] *)
Definition TRANSITIONS : list (string * Z) :=
  [ ("fade", 0); ("wipe_left", 1); ("wipe_right", 2); ("wipe_up", 3);
    ("wipe_down", 4); ("zoom_in", 5); ("zoom_out", 6); ("slide_left", 7);
    ("slide_right", 8) ].

Fixpoint lookup (k : string) (d : list (string * Z)) : option Z :=
  match d with
  | [] => None
  | (k', v) :: t => if String.eqb k k' then Some v else lookup k t
  end.

Local Close Scope string_scope.

Section Script.

Variable E : externals.

Local Open Scope err_scope.

(** [resize_image(image, width, height)] *)
Definition resize_image (image : ndarray) (width height : Z) : exn + ndarray :=
  let '(h, w) := shape image in
  current_ratio <- truediv w h ;;
  target_ratio <- truediv width height ;;
  if flt (fabs (fsub current_ratio target_ratio)) (ratio 1 100) then
    cv2_resize E image width height
  else if flt target_ratio current_ratio then
    let new_h := height in
    new_w <- py_int (fmul (of_int height) current_ratio) ;;
    img_resized <- cv2_resize E image new_w new_h ;;
    let start_x := (new_w - width) / 2 in
    inr (getitem img_resized None None (Some start_x) (Some (start_x + width)))
  else
    let new_w := width in
    q <- (if is_zero current_ratio then inl ZeroDivisionError
          else inr (fdiv (of_int width) current_ratio)) ;;
    new_h <- py_int q ;;
    img_resized <- cv2_resize E image new_w new_h ;;
    let start_y := (new_h - height) / 2 in
    inr (getitem img_resized (Some start_y) (Some (start_y + height)) None None).

(** The fade of [apply_transition]: the first branch, and the fallback of
    the zooms and of the unrecognised kinds. *)
Definition fade (prev_frame next_frame : ndarray) (progress : float) : exn + ndarray :=
  addWeighted prev_frame (fsub (of_int 1) progress) next_frame progress (of_int 0).

(** The body shared by the two zooms: [fg] is scaled by [zoom_factor] and
    placed at the centre of [bg]. *)
Definition zoom (prev_frame next_frame fg bg : ndarray) (zoom_factor0 progress : float)
  : exn + ndarray :=
  let '(h, w) := shape prev_frame in
  let center_x := w / 2 in
  let center_y := h / 2 in
  let zoom_factor := if flt zoom_factor0 (ratio 1 10) then ratio 1 10 else zoom_factor0 in
  scaled_w <- py_int (fmul (of_int w) zoom_factor) ;;
  scaled_h <- py_int (fmul (of_int h) zoom_factor) ;;
  let scaled_w := Z.max scaled_w 10 in
  let scaled_h := Z.max scaled_h 10 in
  scaled <- cv2_resize E fg scaled_w scaled_h ;;
  let result := bg in
  let start_x := Z.max 0 (center_x - scaled_w / 2) in
  let start_y := Z.max 0 (center_y - scaled_h / 2) in
  let end_x := Z.min w (start_x + scaled_w) in
  let end_y := Z.min h (start_y + scaled_h) in
  let scaled_start_x :=
    if start_x =? 0 then (scaled_w - (end_x - start_x)) / 2 else 0 in
  let scaled_start_y :=
    if start_y =? 0 then (scaled_h - (end_y - start_y)) / 2 else 0 in
  match setitem result (Some start_y) (Some end_y) (Some start_x) (Some end_x)
          (getitem scaled
             (Some scaled_start_y) (Some (scaled_start_y + (end_y - start_y)))
             (Some scaled_start_x) (Some (scaled_start_x + (end_x - start_x)))) with
  | inr r => inr r
  | inl (ValueError _) => fade prev_frame next_frame progress
  | inl e => inl e
  end.

(** [apply_transition(prev_frame, next_frame, transition_type, progress)] *)
Definition apply_transition (prev_frame next_frame : ndarray)
           (transition_type : Z) (progress : float) : exn + ndarray :=
  let '(h, w) := shape prev_frame in
  if transition_type =? 0 then
    fade prev_frame next_frame progress
  else if transition_type =? 1 then
    cut <- py_int (fmul (of_int w) progress) ;;
    setitem prev_frame None None None (Some cut)
            (getitem next_frame None None None (Some cut))
  else if transition_type =? 2 then
    cut <- py_int (fmul (of_int w) (fsub (of_int 1) progress)) ;;
    setitem prev_frame None None (Some cut) None
            (getitem next_frame None None (Some cut) None)
  else if transition_type =? 3 then
    cut <- py_int (fmul (of_int h) progress) ;;
    setitem prev_frame None (Some cut) None None
            (getitem next_frame None (Some cut) None None)
  else if transition_type =? 4 then
    cut <- py_int (fmul (of_int h) (fsub (of_int 1) progress)) ;;
    setitem prev_frame (Some cut) None None None
            (getitem next_frame (Some cut) None None None)
  else if transition_type =? 5 then
    zoom prev_frame next_frame next_frame prev_frame progress progress
  else if transition_type =? 6 then
    zoom prev_frame next_frame prev_frame next_frame
         (fsub (of_int 1) progress) progress
  else if transition_type =? 7 then
    offset <- py_int (fmul (of_int w) progress) ;;
    let result := zeros_like prev_frame in
    result <- (if offset <? w then
                 setitem result None None None (Some (w - offset))
                         (getitem prev_frame None None (Some offset) None)
               else inr result) ;;
    (if 0 <? offset then
       setitem result None None (Some (w - offset)) None
               (getitem next_frame None None None (Some offset))
     else inr result)
  else if transition_type =? 8 then
    offset <- py_int (fmul (of_int w) progress) ;;
    let result := zeros_like prev_frame in
    result <- (if offset <? w then
                 setitem result None None (Some offset) None
                         (getitem prev_frame None None None (Some (w - offset)))
               else inr result) ;;
    (if 0 <? offset then
       setitem result None None None (Some offset)
               (getitem next_frame None None (Some (w - offset)) None)
     else inr result)
  else
    fade prev_frame next_frame progress.

End Script.

(** ** The streaming loop *)

(** The lines the script prints. *)
Inductive event : Type :=
| WarnUnknownTransition (name : string)
| PrintUsing (image_duration transition_duration : float)
| PrintNotSixteenNine (w h target_w target_h : Z)
| PrintCreating (num_images total_frames : Z)
| WarnCouldNotRead (img_path : string)
| PrintProgress (progress_pct frame_count total_frames : Z)
| PrintCreated (output_file : string)
| PrintVideoDuration (seconds : float) (frame_count frame_rate : Z).

(** The mutable state of one run of [create_slideshow]: the local variables
    that the loop updates, the frames handed to [out.write] so far, the
    printed lines and the number of random draws made. *)
Record builder : Type := mk_builder {
  prev_image : option ndarray;
  frame_count : Z;
  written : list ndarray;
  stdout : list event;
  rand_calls : nat
}.

Definition initial : builder := mk_builder None 0 [] [] 0.

(** Computations that update the state and may raise; the state reached when
    an exception is raised is kept (frames already written stay written). *)
Definition M (A : Type) : Type := builder -> (exn + A) * builder.

Definition ret {A : Type} (a : A) : M A := fun st => (inr a, st).

Definition raise {A : Type} (e : exn) : M A := fun st => (inl e, st).

Definition bind {A B : Type} (c : M A) (f : A -> M B) : M B :=
  fun st =>
    match c st with
    | (inl e, st') => (inl e, st')
    | (inr a, st') => f a st'
    end.

Definition lift {A : Type} (c : exn + A) : M A := fun st => (c, st).

Declare Scope build_scope.
Delimit Scope build_scope with build.
Notation "x <- c ;; k" := (bind c (fun x => k))
  (at level 61, c at next level, right associativity) : build_scope.
Notation "c ;; k" := (bind c (fun _ => k))
  (at level 61, right associativity) : build_scope.

Definition print (ev : event) : M unit :=
  fun st => (inr tt, mk_builder (prev_image st) (frame_count st) (written st)
                                (stdout st ++ [ev]) (rand_calls st)).

(** [out.write(frame); frame_count += 1] *)
Definition out_write (frame : ndarray) : M unit :=
  fun st => (inr tt, mk_builder (prev_image st) (frame_count st + 1)
                                (written st ++ [frame]) (stdout st) (rand_calls st)).

Definition set_prev_image (curr_img : ndarray) : M unit :=
  fun st => (inr tt, mk_builder (Some curr_img) (frame_count st) (written st)
                                (stdout st) (rand_calls st)).

(** [random.randint(0, 8)] *)
Definition random_randint (E : externals) : M Z :=
  fun st => (inr (randint E (rand_calls st)),
             mk_builder (prev_image st) (frame_count st) (written st)
                        (stdout st) (S (rand_calls st))).

Definition get_frame_count : M Z := fun st => (inr (frame_count st), st).

Definition get_prev_image : M ndarray :=
  fun st => match prev_image st with
            | Some p => (inr p, st)
            | None => (inl AttributeError, st)
            end.

(** [range(n)] *)
Definition range (n : Z) : list Z := map Z.of_nat (seq 0 (Z.to_nat n)).

(** The settings read from the configuration. *)
Record config : Type := {
  transition_duration : float;
  video_duration : float;
  frame_rate : Z;
  transition_type : string;
  output_file : string
}.

(** The timing values of a run, as the script derives them. *)
Record schedule : Type := {
  image_duration : float;
  frames_per_image : Z;
  transition_frames : Z;
  total_frames : Z
}.

Section Builder.

Variable E : externals.

Local Open Scope build_scope.

(** [for _ in range(frames_per_image):
       if frame_count < total_frames: out.write(curr_img); frame_count += 1] *)
Fixpoint display_loop (iters : list Z) (total_frames : Z) (curr_img : ndarray) : M unit :=
  match iters with
  | [] => ret tt
  | _ :: rest =>
      (frame_count <- get_frame_count ;;
       if frame_count <? total_frames then out_write curr_img else ret tt) ;;
      display_loop rest total_frames curr_img
  end.

(** [for j in range(transition_frames):
       if frame_count < total_frames:
           progress = j / transition_frames
           frame = apply_transition(prev_image, curr_img, curr_transition, progress)
           out.write(frame); frame_count += 1] *)
Fixpoint transition_loop (iters : list Z) (transition_frames total_frames : Z)
         (curr_transition : Z) (curr_img : ndarray) : M unit :=
  match iters with
  | [] => ret tt
  | j :: rest =>
      (frame_count <- get_frame_count ;;
       if frame_count <? total_frames then
         progress <- lift (truediv j transition_frames) ;;
         prev_image <- get_prev_image ;;
         frame <- lift (apply_transition E prev_image curr_img curr_transition progress) ;;
         out_write frame
       else ret tt) ;;
      transition_loop rest transition_frames total_frames curr_transition curr_img
  end.

(** The body of the loop over [enumerate(image_files)].
    [fixed_transition] is [None] in random mode. *)
Definition process_image (cfg : config) (fixed_transition : option Z)
           (image_duration : float) (target_w target_h total_frames : Z)
           (i : Z) (img_path : string) : M unit :=
  match imread E img_path with
  | None => print (WarnCouldNotRead img_path)
  | Some curr_img =>
      curr_img <- lift (resize_image E curr_img target_w target_h) ;;
      (if i =? 0 then
         frames_per_image <-
           lift (py_int (fmul image_duration (of_int (frame_rate cfg)))) ;;
         display_loop (range frames_per_image) total_frames curr_img
       else
         curr_transition <-
           match fixed_transition with
           | None => random_randint E
           | Some t => ret t
           end ;;
         transition_frames <-
           lift (py_int (fmul (transition_duration cfg) (of_int (frame_rate cfg)))) ;;
         transition_loop (range transition_frames) transition_frames total_frames
                         curr_transition curr_img ;;
         frames_per_image <-
           lift (py_int (fmul image_duration (of_int (frame_rate cfg)))) ;;
         display_loop (range frames_per_image) total_frames curr_img) ;;
      set_prev_image curr_img ;;
      frame_count <- get_frame_count ;;
      ratio <- lift (truediv frame_count total_frames) ;;
      pct <- lift (py_int (fmul ratio (of_int 100))) ;;
      print (PrintProgress (Z.min 100 pct) frame_count total_frames)
  end.

(** [for i, img_path in enumerate(image_files): ...], from index [i]. *)
Fixpoint process_images (cfg : config) (fixed_transition : option Z)
         (image_duration : float) (target_w target_h total_frames : Z)
         (i : Z) (image_files : list string) : M unit :=
  match image_files with
  | [] => ret tt
  | img_path :: rest =>
      process_image cfg fixed_transition image_duration target_w target_h
                    total_frames i img_path ;;
      process_images cfg fixed_transition image_duration target_w target_h
                     total_frames (i + 1) rest
  end.

(** The timing computation at the head of [create_slideshow]; the
    [ValueError] is the schedule's feasibility failure. *)
Definition total_transition_time (cfg : config) (num_images : Z) : float :=
  fmul (of_int (num_images - 1)) (transition_duration cfg).

Definition remaining_time (cfg : config) (num_images : Z) : float :=
  fsub (video_duration cfg) (total_transition_time cfg num_images).

Definition compute_image_duration (cfg : config) (num_images : Z) : exn + float :=
  if fle (remaining_time cfg num_images) (of_int 0) then
    inl (ValueError "Transition time exceeds video duration")
  else div_int (remaining_time cfg num_images) num_images.

(** The transition selected by the configuration: [None] is random mode;
    the flag tells whether the unknown-name warning is printed. *)
Definition select_transition (cfg : config) : option Z * bool :=
  if String.eqb (transition_type cfg) "random" then (None, false)
  else match lookup (transition_type cfg) TRANSITIONS with
       | Some t => (Some t, false)
       | None => (Some 0, true)
       end.

(** [create_slideshow(image_files, config)] *)
Definition create_slideshow (image_files : list string) (cfg : config) : M unit :=
  let '(fixed_transition, unknown) := select_transition cfg in
  (if unknown then print (WarnUnknownTransition (transition_type cfg)) else ret tt) ;;
  let num_images := Z.of_nat (length image_files) in
  image_duration <- lift (compute_image_duration cfg num_images) ;;
  print (PrintUsing image_duration (transition_duration cfg)) ;;
  match image_files with
  | [] => raise IndexError
  | first_path :: _ =>
      match imread E first_path with
      | None => raise (ValueError "Could not read image")
      | Some first_image =>
          let '(h, w) := shape first_image in
          let target_w := w in
          scaled <- lift (truediv (w * 9) 16) ;;
          target_h <- lift (py_int scaled) ;;
          (if 5 <? Z.abs (target_h - h)
           then print (PrintNotSixteenNine w h target_w target_h) else ret tt) ;;
          (if writer_opened E (output_file cfg) (frame_rate cfg) target_w target_h
           then ret tt else raise (ValueError "Could not open output video file")) ;;
          total_frames <-
            lift (py_int (fmul (video_duration cfg) (of_int (frame_rate cfg)))) ;;
          print (PrintCreating num_images total_frames) ;;
          process_images cfg fixed_transition image_duration target_w target_h
                         total_frames 0 image_files ;;
          print (PrintCreated (output_file cfg)) ;;
          frame_count <- get_frame_count ;;
          seconds <- lift (truediv frame_count (frame_rate cfg)) ;;
          print (PrintVideoDuration seconds frame_count (frame_rate cfg))
      end
  end.

End Builder.

(** The schedule of a run: the four timing values that [create_slideshow]
    computes from the configuration and the number of images. *)
Definition compute_schedule (cfg : config) (num_images : Z) : exn + schedule :=
  (image_duration <- compute_image_duration cfg num_images ;;
   total_frames <- py_int (fmul (video_duration cfg) (of_int (frame_rate cfg))) ;;
   frames_per_image <- py_int (fmul image_duration (of_int (frame_rate cfg))) ;;
   transition_frames <- py_int (fmul (transition_duration cfg) (of_int (frame_rate cfg))) ;;
   inr {| image_duration := image_duration;
          frames_per_image := frames_per_image;
          transition_frames := transition_frames;
          total_frames := total_frames |})%err.

(** [total_frames = int(video_duration * frame_rate)] *)
Definition frame_budget (cfg : config) : exn + Z :=
  py_int (fmul (video_duration cfg) (of_int (frame_rate cfg))).

(** Specifications of stateful computations: from a state satisfying [P],
    the outcome (exception or value) and the state reached satisfy [Q]. *)
Definition hoare {A : Type} (P : builder -> Prop) (c : M A)
           (Q : exn + A -> builder -> Prop) : Prop :=
  forall st, P st -> Q (fst (c st)) (snd (c st)).

(** [I] holds after [c] whenever it holds before, whatever the outcome. *)
Definition preserves {A : Type} (I : builder -> Prop) (c : M A) : Prop :=
  hoare I c (fun _ => I).

(** The frame counter counts the frames written and is within the budget. *)
Definition within_budget (total : Z) (st : builder) : Prop :=
  frame_count st = Z.of_nat (length (written st)) /\
  frame_count st <= Z.max 0 total.

(** Steps that leave the frame counter and the written frames alone. *)
Definition frame_neutral {A : Type} (c : M A) : Prop :=
  forall st, frame_count (snd (c st)) = frame_count st /\
             written (snd (c st)) = written st.

(** The target height that [create_slideshow] derives from the width [w]
    of the first image: [int(w * 9 / 16)]. *)
Definition canvas_height (w : Z) : exn + Z :=
  (scaled <- truediv (w * 9) 16 ;; py_int scaled)%err.

(** ** A concrete instance of the collaborators

    Used to run the model on examples: nearest-neighbour resizing, a small
    in-memory file system and a constant random source. *)

Definition nearest_resize (im : ndarray) (w h : Z) : exn + ndarray :=
  if (0 <? w) && (0 <? h) && (0 <? Z.of_nat (img_height im))
     && (0 <? Z.of_nat (img_width im)) then
    inr (mk_image (Z.to_nat w)
           (map (fun i =>
                   let row := nth (i * img_height im / Z.to_nat h) (img_rows im) [] in
                   map (fun j => nth (j * img_width im / Z.to_nat w) row black)
                       (seq 0 (Z.to_nat w)))
                (seq 0 (Z.to_nat h))))
  else inl cv2_error.

(** A [w] by [h] image of one colour. *)
Definition solid (w h : nat) (p : pixel) : ndarray :=
  mk_image w (repeat (repeat p w) h).

Definition sample_files (path : string) : option ndarray :=
  if String.eqb path "a.png" then Some (solid 16 9 (200, 10, 10))
  else if String.eqb path "b.png" then Some (solid 8 8 (10, 200, 10))
  else if String.eqb path "c.png" then Some (solid 32 9 (10, 10, 200))
  else None.

Definition sample_externals : externals :=
  {| imread := sample_files;
     cv2_resize := nearest_resize;
     randint := fun _ => 1;
     writer_opened := fun _ _ _ _ => true |}.

Definition sample_config (video transition : float) (rate : Z) (kind : string) : config :=
  {| transition_duration := transition;
     video_duration := video;
     frame_rate := rate;
     transition_type := kind;
     output_file := "slideshow.mp4" |}.

(** The state after the warning for an unreadable file was printed. *)
Definition warned (img_path : string) (st : builder) : builder :=
  mk_builder (prev_image st) (frame_count st) (written st)
             (stdout st ++ [WarnCouldNotRead img_path]) (rand_calls st).

Definition F2R (m e : Z) : R := (IZR m * bpow e)%R.

(** The location of a remainder [r] of a division by [2^k]. *)
Definition loc_of_rem (r k : Z) : location :=
  if r =? 0 then loc_Exact else loc_Inexact (2 * r ?= 2 ^ k).

(** The last step of [binary_round_aux]: renormalisation after the mantissa
    was rounded, and the overflow test. *)
Definition finish (s : bool) (m1 E : Z) : float :=
  let '(mrs, e) := shr_fexp prec emax m1 E loc_Exact in
  match shr_m mrs with
  | Z0 => S754_zero s
  | Zpos m => if e <=? emax - prec then S754_finite s m e else S754_infinity s
  | Zneg _ => S754_nan
  end.

(** Mantissas on the grid of the floats of exponent [E]. *)
Definition grid (m E : Z) : Prop :=
  0 <= m < 2 ^ 53 /\ -1074 <= E /\ (E = -1074 \/ 2 ^ 52 <= m).

(** Non-negative numbers: [+0.0], [-0.0] and the positive finite floats. *)
Definition nonneg_float (x : float) : Prop :=
  match x with
  | S754_zero _ => True
  | S754_finite s _ _ => s = false
  | _ => False
  end.

(** The result of rounding is the float of mantissa [m1] at exponent [E],
    or [+inf] when that number is out of range. *)
Definition rounds_to (z : float) (m1 E : Z) : Prop :=
  (valid z = true /\ nonneg_float z /\ B2R z = F2R m1 E) \/
  (z = S754_infinity false /\ (bpow 1024 <= F2R m1 E)%R).

(** The positive finite floats. *)
Definition positive_float (x : float) : Prop :=
  match x with
  | S754_finite false _ _ => True
  | _ => False
  end.

Definition cmp_spec (c : comparison) (a b : R) : Prop :=
  match c with
  | Lt => (a < b)%R
  | Eq => a = b
  | Gt => (b < a)%R
  end.

(** What the model needs of [cv2.resize]: the result has the size asked for. *)
Definition resize_ok (E : externals) : Prop :=
  forall im w h r, cv2_resize E im w h = inr r -> shape r = (h, w) /\ wf_image r.

(** What the model needs of [cv2.imread]: a decoded image is rectangular and
    not empty, and its dimensions are C [int]s. *)
Definition decoder_ok (E : externals) : Prop :=
  forall path im, imread E path = Some im ->
    wf_image im /\
    0 < Z.of_nat (img_height im) < 2 ^ 31 /\
    0 < Z.of_nat (img_width im) < 2 ^ 31.

Definition on_canvas (th tw : Z) (f : ndarray) : Prop :=
  shape f = (th, tw) /\ wf_image f.

(** Every frame written, and the previous frame, have the canvas size. *)
Definition canvas_inv (th tw : Z) (st : builder) : Prop :=
  Forall (on_canvas th tw) (written st) /\
  (forall p, prev_image st = Some p -> on_canvas th tw p).

(** Numbers that are not negative: zeros, positive finite floats, [+inf]
    (and NaN, which has no sign). *)
Definition sign_nonneg (x : float) : Prop :=
  match x with
  | S754_finite s _ _ | S754_infinity s => s = false
  | _ => True
  end.

(** Zero, finite or infinite of sign [s], or NaN. *)
Definition has_sign (s : bool) (x : float) : Prop :=
  match x with
  | S754_zero s' | S754_finite s' _ _ | S754_infinity s' => s' = s
  | S754_nan => True
  end.

(** The smallest positive float, [2^-1074]. *)
Definition smallest_float : float := S754_finite false 1 (-1074).

(** The schedule with mathematical floors, for a positive remaining time. *)
Definition computeSchedule_spec (cfg : config) (imageCount : Z) : option schedule :=
  let frameRate := of_int (frame_rate cfg) in
  let remainingTime :=
    fsub (video_duration cfg)
         (fmul (of_int (imageCount - 1)) (transition_duration cfg)) in
  let imageDuration := fdiv remainingTime (of_int imageCount) in
  match floor (fmul imageDuration frameRate),
        floor (fmul (transition_duration cfg) frameRate),
        floor (fmul (video_duration cfg) frameRate) with
  | Some framesPerImage, Some framesPerTransition, Some totalFrameBudget =>
      Some {| image_duration := imageDuration;
              frames_per_image := framesPerImage;
              transition_frames := framesPerTransition;
              total_frames := totalFrameBudget |}
  | _, _, _ => None
  end.

(** The frames that the loops attempt to write for [n] images. *)
Definition attempted_frames (frames_per_image transition_frames n : Z) : Z :=
  n * Z.max 0 frames_per_image + (n - 1) * Z.max 0 transition_frames.

(** The frames attempted for the image of index [i]. *)
Definition step_frames (frames_per_image transition_frames i : Z) : Z :=
  if i =? 0 then Z.max 0 frames_per_image
  else Z.max 0 transition_frames + Z.max 0 frames_per_image.

(** The mantissa [a], cut [n] bits lower and rounded to nearest even. *)
Definition rnd (a n : Z) : Z :=
  round_nearest_even (a / 2 ^ n) (loc_of_rem (a mod 2 ^ n) n).

(** The frame whose left [cut] columns are those of [B] and whose other
    columns are those of [A]. *)
Definition left_columns (cut : Z) (A B : ndarray) : ndarray :=
  mk_image (img_width A)
           (zip_with (fun ra rb => firstn (Z.to_nat cut) rb ++ skipn (Z.to_nat cut) ra)
                     (img_rows A) (img_rows B)).





(** The frame whose top [cut] rows are those of [B] and whose other rows
    are those of [A]. *)
Definition top_rows (cut : Z) (A B : ndarray) : ndarray :=
  mk_image (img_width A)
           (firstn (Z.to_nat cut) (img_rows B) ++ skipn (Z.to_nat cut) (img_rows A)).

(** [A] moved [offset] columns to the left, followed by the first [offset]
    columns of [B]. *)
Definition slid_left (offset : Z) (A B : ndarray) : ndarray :=
  mk_image (img_width A)
           (zip_with (fun ra rb => skipn (Z.to_nat offset) ra ++ firstn (Z.to_nat offset) rb)
                     (img_rows A) (img_rows B)).

(** The last [offset] columns of [B], followed by [A] moved [offset]
    columns to the right. *)
Definition slid_right (offset : Z) (A B : ndarray) : ndarray :=
  mk_image (img_width A)
           (zip_with (fun ra rb => skipn (img_width A - Z.to_nat offset) rb
                                   ++ firstn (img_width A - Z.to_nat offset) ra)
                     (img_rows A) (img_rows B)).

(** A frame given row by row from the rows of two frames. *)
Definition rowwise (g : list pixel -> list pixel -> list pixel) (A B : ndarray) : ndarray :=
  mk_image (img_width A) (zip_with g (img_rows A) (img_rows B)).

(** The part of [create_slideshow] that follows the opening of the writer. *)
Definition stream_images (E : externals) (cfg : config) (fixed_transition : option Z)
           (image_duration : float) (target_w target_h total_frames : Z)
           (image_files : list string) : M unit :=
  (process_images E cfg fixed_transition image_duration target_w target_h
                  total_frames 0 image_files ;;
   print (PrintCreated (output_file cfg)) ;;
   frame_count <- get_frame_count ;;
   seconds <- lift (truediv frame_count (frame_rate cfg)) ;;
   print (PrintVideoDuration seconds frame_count (frame_rate cfg)))%build.

(** A state in which nothing but printing has happened. *)
Definition fresh (st : builder) : Prop :=
  prev_image st = None /\ frame_count st = 0 /\ written st = [] /\ rand_calls st = 0%nat.

(** The collaborators [E] with another source of random numbers. *)
Definition with_randint (E : externals) (g : nat -> Z) : externals :=
  {| imread := imread E; cv2_resize := cv2_resize E; randint := g;
     writer_opened := writer_opened E |}.

Definition draws (k : nat) (st : builder) : Prop := rand_calls st = k.

(** The random draws made for one image. *)
Definition draws_for (E : externals) (i : Z) (img_path : string) : nat :=
  match imread E img_path with
  | Some _ => if i =? 0 then 0%nat else 1%nat
  | None => 0%nat
  end.

Fixpoint draws_from (E : externals) (i : Z) (image_files : list string) : nat :=
  match image_files with
  | [] => 0%nat
  | img_path :: rest => (draws_for E i img_path + draws_from E (i + 1) rest)%nat
  end.

(** The state [st] with the lines [l] printed before everything else. *)
Definition with_prefix (l : list event) (st : builder) : builder :=
  mk_builder (prev_image st) (frame_count st) (written st) (l ++ stdout st)
             (rand_calls st).

(** Computations that write to the standard output without reading it. *)
Definition stdout_blind {A : Type} (c : M A) : Prop :=
  forall l st, c (with_prefix l st) = (fst (c st), with_prefix l (snd (c st))).

(** [create_slideshow] after the selection of the transition. *)
Definition slideshow_body (E : externals) (cfg : config) (fixed_transition : option Z)
           (image_files : list string) : M unit :=
  (let num_images := Z.of_nat (length image_files) in
   image_duration <- lift (compute_image_duration cfg num_images) ;;
   print (PrintUsing image_duration (transition_duration cfg)) ;;
   match image_files with
   | [] => raise IndexError
   | first_path :: _ =>
       match imread E first_path with
       | None => raise (ValueError "Could not read image")
       | Some first_image =>
           let '(h, w) := shape first_image in
           let target_w := w in
           scaled <- lift (truediv (w * 9) 16) ;;
           target_h <- lift (py_int scaled) ;;
           (if 5 <? Z.abs (target_h - h)
            then print (PrintNotSixteenNine w h target_w target_h) else ret tt) ;;
           (if writer_opened E (output_file cfg) (frame_rate cfg) target_w target_h
            then ret tt else raise (ValueError "Could not open output video file")) ;;
           total_frames <-
             lift (py_int (fmul (video_duration cfg) (of_int (frame_rate cfg)))) ;;
           print (PrintCreating num_images total_frames) ;;
           process_images E cfg fixed_transition image_duration target_w target_h
                          total_frames 0 image_files ;;
           print (PrintCreated (output_file cfg)) ;;
           frame_count <- get_frame_count ;;
           seconds <- lift (truediv frame_count (frame_rate cfg)) ;;
           print (PrintVideoDuration seconds frame_count (frame_rate cfg))
       end
   end)%build.

(** The configuration [cfg] with the transition ["fade"]. *)
Definition as_fade (cfg : config) : config :=
  {| transition_duration := transition_duration cfg;
     video_duration := video_duration cfg;
     frame_rate := frame_rate cfg;
     transition_type := "fade";
     output_file := output_file cfg |}.

(** The services of the operating system that the script calls. *)
Record os_services : Type := {
  (** [os.path.join(a, b)] *)
  path_join : string -> string -> string;
  (** [glob(pattern)]: the paths that match, in the order of the system *)
  glob : string -> list string;
  (** [os.path.isdir(path)] *)
  isdir : string -> bool
}.

(** [c.upper()] for one character, on the ASCII letters. *)
Definition upper_ascii (c : ascii) : ascii :=
  let n := nat_of_ascii c in
  if ((97 <=? n) && (n <=? 122))%nat then ascii_of_nat (n - 32) else c.

(** [s.upper()] *)
Fixpoint upper (s : string) : string :=
  match s with
  | EmptyString => EmptyString
  | String c t => String (upper_ascii c) (upper t)
  end.

(** [insort]: one step of the sort, in the order [<=] of Python strings
    (by code points, here by bytes). *)
Fixpoint insert_sorted (x : string) (l : list string) : list string :=
  match l with
  | [] => [x]
  | y :: t => if String.leb x y then x :: l else y :: insert_sorted x t
  end.

(** [l.sort()] on a list of strings.  The order on strings is total and
    antisymmetric, so that the sorted list does not depend on the sorting
    algorithm. *)
Fixpoint list_sort (l : list string) : list string :=
  match l with
  | [] => []
  | x :: t => insert_sorted x (list_sort t)
  end.

Definition extensions : list string :=
  [".jpg"; ".jpeg"; ".png"; ".bmp"; ".tiff"; ".tif"; ".webp"]%string.

(** The list built by the loop over [extensions], before it is sorted. *)
Definition matching_files (O : os_services) (folder_path : string) : list string :=
  flat_map (fun ext =>
              glob O (path_join O folder_path ("*" ++ ext)%string)
              ++ glob O (path_join O folder_path ("*" ++ upper ext)%string))
           extensions.

(** [get_image_files(folder_path)] *)
Definition get_image_files (O : os_services) (folder_path : string) : exn + list string :=
  let image_files := list_sort (matching_files O folder_path) in
  match image_files with
  | [] => inl (ValueError "No image files found")
  | _ => inr image_files
  end.

Definition string_le (a b : string) : Prop := String.leb a b = true.

(** The Python conversions of the strings of the configuration. *)
Record conversions : Type := {
  (** [float(s)]: [ValueError] when [s] is not a number *)
  float_of_string : string -> exn + float;
  (** [int(s)]: [ValueError] when [s] is not an integer *)
  int_of_string : string -> exn + Z
}.

(** The section returned by [read_config]: [section key] is
    [config[key]] for the six keys that the defaults define. *)
Definition section : Type := string -> string.

(** [config["output_file"] = value] *)
Definition set_output_file (config : section) (value : string) : section :=
  fun key => if String.eqb key "output_file" then value else config key.

(** [create_slideshow(image_files, config)] from the strings of the
    configuration: the conversions at its head, then the run. *)
Definition create_slideshow_from (P : conversions) (E : externals)
           (image_files : list string) (config : section) : M unit :=
  (transition_duration <- lift (float_of_string P (config "transition_duration"%string)) ;;
   video_duration <- lift (float_of_string P (config "video_duration"%string)) ;;
   frame_rate <- lift (int_of_string P (config "frame_rate"%string)) ;;
   create_slideshow E image_files
     {| transition_duration := transition_duration;
        video_duration := video_duration;
        frame_rate := frame_rate;
        transition_type := config "transition_type"%string;
        output_file := config "output_file"%string |})%build.

(** The parsed command line: [folder], [--config] and [--output]. *)
Record arguments : Type := {
  arg_folder : string;
  arg_config : string;
  arg_output : option string
}.

(** How [main] ends: it returns an exit status, or [parser.error] leaves
    with [SystemExit(2)], or an exception of [read_config] goes through. *)
Inductive ending : Type :=
| Returned (status : Z)
| SystemExit (status : Z)
| Propagated (e : exn).

(** The lines that [main] itself prints. *)
Inductive main_event : Type :=
| ErrorTwoImages
| PrintFound (num_images : Z) (folder : string)
| PrintError (e : exn).

Record main_run : Type := {
  main_ending : ending;
  main_stdout : list main_event;
  (** the run of [create_slideshow], when there was one *)
  main_build : builder
}.

(** [if args.output: config["output_file"] = args.output] *)
Definition override_output (args : arguments) (config : section) : section :=
  match arg_output args with
  | Some output => if String.eqb output "" then config
                   else set_output_file config output
  | None => config
  end.

(** [main()], for parsed arguments and for the outcome [loaded] of
    [read_config(args.config)]. *)
Definition main (O : os_services) (P : conversions) (E : externals)
           (args : arguments) (loaded : exn + section) : main_run :=
  if negb (isdir O (arg_folder args)) then
    {| main_ending := SystemExit 2; main_stdout := []; main_build := initial |}
  else
    match loaded with
    | inl e => {| main_ending := Propagated e; main_stdout := []; main_build := initial |}
    | inr config =>
        let config := override_output args config in
        match get_image_files O (arg_folder args) with
        | inl e => {| main_ending := Returned 1; main_stdout := [PrintError e];
                      main_build := initial |}
        | inr image_files =>
            if (length image_files <? 2)%nat then
              {| main_ending := Returned 1; main_stdout := [ErrorTwoImages];
                 main_build := initial |}
            else
              let found := PrintFound (Z.of_nat (length image_files)) (arg_folder args) in
              match create_slideshow_from P E image_files config initial with
              | (inr _, st) =>
                  {| main_ending := Returned 0; main_stdout := [found]; main_build := st |}
              | (inl e, st) =>
                  {| main_ending := Returned 1; main_stdout := [found; PrintError e];
                     main_build := st |}
              end
        end
    end.

(** The sample collaborators with a writer that cannot be opened. *)
Definition closed_writer : externals :=
  {| imread := sample_files;
     cv2_resize := nearest_resize;
     randint := fun _ => 1;
     writer_opened := fun _ _ _ _ => false |}.

(** Collaborators for which every file is an image one pixel wide. *)
Definition narrow_externals : externals :=
  {| imread := fun _ => Some (solid 1 5 (7, 7, 7));
     cv2_resize := nearest_resize;
     randint := fun _ => 1;
     writer_opened := fun _ _ _ _ => true |}.

(** A small file system: a folder with three images and a folder with one. *)
Definition sample_os : os_services :=
  {| path_join := fun a b => (a ++ "/" ++ b)%string;
     glob := fun pattern =>
               if String.eqb pattern "pics/*.png" then ["pics/b.png"; "pics/a.png"]%string
               else if String.eqb pattern "pics/*.JPG" then ["pics/C.JPG"]%string
               else if String.eqb pattern "one/*.png" then ["one/a.png"]%string
               else [];
     isdir := fun path => String.eqb path "pics" || String.eqb path "one" |}.

Definition sample_conversions : conversions :=
  {| float_of_string := fun s =>
       if String.eqb s "10" then inr (of_int 10)
       else if String.eqb s "1" then inr (of_int 1)
       else inl (ValueError "could not convert string to float");
     int_of_string := fun s =>
       if String.eqb s "10" then inr 10
       else inl (ValueError "invalid literal for int()") |}.

(** [2^106] and [2^-53], bounds of the products and quotients of two image
    dimensions. *)
Definition dims_bound : float := S754_finite false 4503599627370496 54.

Definition dims_unit : float := S754_finite false 4503599627370496 (-105).

(** [cv2.resize] returns for an image that is not empty and a positive size. *)
Definition resize_total (E : externals) : Prop :=
  forall im w h,
    0 < w -> 0 < h -> (0 < img_height im)%nat -> (0 < img_width im)%nat ->
    exists r, cv2_resize E im w h = inr r.

(** The state between two images: the frame counter counts the frames
    written and is within the budget, and the previous frame, if any, is
    on the canvas. *)
Definition streaming (th tw total : Z) (st : builder) : Prop :=
  within_budget total st /\
  match prev_image st with
  | Some prev => on_canvas th tw prev
  | None => True
  end.

(* ===================================================================== *)
(** * Part II: properties                                                  *)
(* ===================================================================== *)

(** ** Reasoning rules for the state-and-exception computations *)

Section HoareRules.

Context {A B : Type}.

Lemma hoare_conseq (P P' : builder -> Prop) (c : M A)
      (Q Q' : exn + A -> builder -> Prop) :
  hoare P' c Q' ->
  (forall st, P st -> P' st) ->
  (forall r st, Q' r st -> Q r st) ->
  hoare P c Q.
Proof. unfold hoare; intros Hc HP HQ st Hst. apply HQ, Hc, HP, Hst. Qed.

Lemma hoare_bind (P : builder -> Prop) (c : M A) (f : A -> M B)
      (Q1 : exn + A -> builder -> Prop) (Q2 : exn + B -> builder -> Prop) :
  hoare P c Q1 ->
  (forall e st, Q1 (inl e) st -> Q2 (inl e) st) ->
  (forall a, hoare (Q1 (inr a)) (f a) Q2) ->
  hoare P (bind c f) Q2.
Proof.
  unfold hoare, bind; intros Hc He Hf st Hst.
  specialize (Hc st Hst). destruct (c st) as [[e | a] st']; simpl in *.
  - apply He, Hc.
  - apply Hf, Hc.
Qed.

Lemma preserves_bind (I : builder -> Prop) (c : M A) (f : A -> M B) :
  preserves I c -> (forall a, preserves I (f a)) -> preserves I (bind c f).
Proof.
  intros Hc Hf. eapply hoare_bind; [exact Hc | auto | exact Hf].
Qed.

(** After a pure step the continuation is only run on the value computed. *)
Lemma preserves_bind_lift (I : builder -> Prop) (x : exn + A) (f : A -> M B) :
  (forall a, x = inr a -> preserves I (f a)) -> preserves I (bind (lift x) f).
Proof.
  unfold preserves, hoare, bind, lift; intros Hf st Hst.
  destruct x as [e | a]; simpl; [exact Hst | now apply Hf].
Qed.

Lemma preserves_ret (I : builder -> Prop) (a : A) : preserves I (ret a).
Proof. intros st Hst; exact Hst. Qed.

Lemma preserves_raise (I : builder -> Prop) (e : exn) : preserves I (@raise A e).
Proof. intros st Hst; exact Hst. Qed.

Lemma preserves_lift (I : builder -> Prop) (x : exn + A) : preserves I (lift x).
Proof. intros st Hst; exact Hst. Qed.

End HoareRules.

Lemma preserves_if {A : Type} (I : builder -> Prop) (b : bool) (c1 c2 : M A) :
  preserves I c1 -> preserves I c2 -> preserves I (if b then c1 else c2).
Proof. destruct b; auto. Qed.

Lemma neutral_print ev : frame_neutral (print ev).
Proof. intros st; split; reflexivity. Qed.

Lemma neutral_set_prev_image im : frame_neutral (set_prev_image im).
Proof. intros st; split; reflexivity. Qed.

Lemma neutral_random_randint E : frame_neutral (random_randint E).
Proof. intros st; split; reflexivity. Qed.

Lemma neutral_get_frame_count : frame_neutral get_frame_count.
Proof. intros st; split; reflexivity. Qed.

Lemma neutral_get_prev_image : frame_neutral get_prev_image.
Proof. intros st; unfold get_prev_image; destruct (prev_image st); split; reflexivity. Qed.

Lemma within_budget_neutral {A : Type} total (c : M A) :
  frame_neutral c -> preserves (within_budget total) c.
Proof.
  intros Hn st [H1 H2]. destruct (Hn st) as [Hc Hw].
  unfold within_budget. rewrite Hc, Hw. split; assumption.
Qed.

Create HintDb neutral.

#[local] Hint Resolve neutral_print neutral_set_prev_image neutral_random_randint
  neutral_get_frame_count neutral_get_prev_image : neutral.

(** ** The frame budget *)

(** The guarded write of both loops keeps the counter within the budget. *)
Lemma guarded_write_within_budget total (body : M unit) :
  (forall st, frame_count st < total ->
              within_budget total st -> within_budget total (snd (body st))) ->
  preserves (within_budget total)
    (bind get_frame_count
          (fun frame_count => if frame_count <? total then body else ret tt)).
Proof.
  intros Hbody st Hst. unfold bind, get_frame_count; simpl.
  destruct (frame_count st <? total) eqn:Hlt; simpl; [| exact Hst].
  apply Hbody; [apply Z.ltb_lt, Hlt | exact Hst].
Qed.

Lemma out_write_within_budget total frame st :
  frame_count st < total -> within_budget total st ->
  within_budget total (snd (out_write frame st)).
Proof.
  intros Hlt [H1 H2]. unfold within_budget, out_write; simpl.
  rewrite length_app; simpl. split; lia.
Qed.

Lemma display_loop_within_budget iters total curr_img :
  preserves (within_budget total) (display_loop iters total curr_img).
Proof.
  induction iters as [| j rest IH]; simpl.
  - apply preserves_ret.
  - apply preserves_bind; [| intros _; exact IH].
    apply guarded_write_within_budget. intros st Hlt Hst.
    now apply out_write_within_budget.
Qed.

Lemma transition_loop_within_budget E iters tf total kind curr_img :
  preserves (within_budget total) (transition_loop E iters tf total kind curr_img).
Proof.
  induction iters as [| j rest IH]; simpl.
  - apply preserves_ret.
  - apply preserves_bind; [| intros _; exact IH].
    apply guarded_write_within_budget. intros st Hlt Hst.
    unfold bind, lift, get_prev_image.
    destruct (truediv j tf) as [e | progress]; simpl; [exact Hst |].
    destruct (prev_image st) as [p |]; simpl; [| exact Hst].
    destruct (apply_transition E p curr_img kind progress) as [e | frame];
      simpl; [exact Hst |].
    now apply out_write_within_budget.
Qed.

Lemma process_image_within_budget E cfg fixed idur tw th total i img_path :
  preserves (within_budget total)
            (process_image E cfg fixed idur tw th total i img_path).
Proof.
  unfold process_image. destruct (imread E img_path) as [raw |].
  2: { apply within_budget_neutral; auto with neutral. }
  apply preserves_bind; [apply preserves_lift | intros curr].
  apply preserves_bind.
  - apply preserves_if.
    + apply preserves_bind; [apply preserves_lift | intros fpi].
      apply display_loop_within_budget.
    + apply preserves_bind.
      * destruct fixed; [apply preserves_ret |].
        apply within_budget_neutral; auto with neutral.
      * intros kind. apply preserves_bind; [apply preserves_lift | intros tf].
        apply preserves_bind; [apply transition_loop_within_budget | intros _].
        apply preserves_bind; [apply preserves_lift | intros fpi].
        apply display_loop_within_budget.
  - intros _. apply preserves_bind.
    { apply within_budget_neutral; auto with neutral. }
    intros _. apply preserves_bind.
    { apply within_budget_neutral; auto with neutral. }
    intros fc. apply preserves_bind; [apply preserves_lift | intros q].
    apply preserves_bind; [apply preserves_lift | intros pct].
    apply within_budget_neutral; auto with neutral.
Qed.

Lemma process_images_within_budget E cfg fixed idur tw th total files :
  forall i, preserves (within_budget total)
                      (process_images E cfg fixed idur tw th total i files).
Proof.
  induction files as [| f rest IH]; intros i; simpl.
  - apply preserves_ret.
  - apply preserves_bind; [apply process_image_within_budget | intros _; apply IH].
Qed.

(** Outside the loop over the images the script only prints: a property of
    the state that printing and the loop preserve (the loop run with the
    canvas and the budget that the script computes) is preserved by the
    whole of [create_slideshow]. *)
Lemma create_slideshow_preserves E (I : builder -> Prop) files cfg :
  (forall ev, preserves I (print ev)) ->
  (forall fixed idur total first_path rest first_image th,
      files = first_path :: rest ->
      imread E first_path = Some first_image ->
      canvas_height (snd (shape first_image)) = inr th ->
      frame_budget cfg = inr total ->
      preserves I (process_images E cfg fixed idur (snd (shape first_image)) th
                                  total 0 files)) ->
  preserves I (create_slideshow E files cfg).
Proof.
  intros HI Hloop. unfold create_slideshow.
  destruct (select_transition cfg) as [fixed unknown].
  apply preserves_bind.
  { destruct unknown; [apply HI | apply preserves_ret]. }
  intros _. apply preserves_bind; [apply preserves_lift | intros idur].
  apply preserves_bind; [apply HI | intros _].
  destruct files as [| first_path rest]; [apply preserves_raise |].
  destruct (imread E first_path) as [first_image |] eqn:Hread; [| apply preserves_raise].
  specialize (fun idur total th =>
                Hloop fixed idur total first_path rest first_image th eq_refl Hread).
  unfold canvas_height in Hloop.
  destruct (shape first_image) as [h w]. cbn [snd] in Hloop.
  apply preserves_bind_lift. intros scaled Hscaled.
  apply preserves_bind_lift. intros th Hth.
  apply preserves_bind.
  { apply preserves_if; [apply HI | apply preserves_ret]. }
  intros _. apply preserves_bind.
  { apply preserves_if; [apply preserves_ret | apply preserves_raise]. }
  intros _. apply preserves_bind_lift. intros total Htotal.
  apply preserves_bind; [apply HI | intros _].
  apply preserves_bind.
  { apply Hloop; [| exact Htotal]. rewrite Hscaled. exact Hth. }
  intros _. apply preserves_bind; [apply HI | intros _].
  apply preserves_bind.
  { intros st Hst. exact Hst. }
  intros fc. apply preserves_bind; [apply preserves_lift | intros seconds].
  apply HI.
Qed.

(** Once the budget is used up the display loop is a no-op. *)
Lemma display_loop_exhausted iters total curr_img st :
  total <= frame_count st ->
  display_loop iters total curr_img st = (inr tt, st).
Proof.
  intros Hfull. induction iters as [| j rest IH]; simpl; [reflexivity |].
  unfold bind at 1. unfold bind, get_frame_count; simpl.
  destruct (Z.ltb_spec (frame_count st) total) as [Hlt | Hge]; [lia |].
  simpl. exact IH.
Qed.

(** Once the budget is used up the transition loop is a no-op: no progress
    value is computed and no frame is composited. *)
Lemma transition_loop_exhausted E iters tf total kind curr_img st :
  total <= frame_count st ->
  transition_loop E iters tf total kind curr_img st = (inr tt, st).
Proof.
  intros Hfull. induction iters as [| j rest IH]; simpl; [reflexivity |].
  unfold bind at 1. unfold bind at 1. unfold get_frame_count; simpl.
  destruct (Z.ltb_spec (frame_count st) total) as [Hlt | Hge]; [lia |].
  simpl. exact IH.
Qed.

(** C1. For every run of [create_slideshow] the frames written to the sink
    number at most the budget [total_frames = int(video_duration *
    frame_rate)] (no frame at all when that value cannot be computed, and
    none when it is negative); once [frame_count] has reached the budget,
    the display loop and the transition loop run to their end without
    writing, whatever the per-segment frame counts are. *)
Theorem frames_written_within_budget E image_files cfg :
  let st := snd (create_slideshow E image_files cfg initial) in
  frame_count st = Z.of_nat (length (written st)) /\
  match frame_budget cfg with
  | inr total =>
      Z.of_nat (length (written st)) <= Z.max 0 total /\
      (0 <= total -> Z.of_nat (length (written st)) <= total)
  | inl _ => written st = []
  end /\
  (forall iters total curr_img st',
      total <= frame_count st' ->
      display_loop iters total curr_img st' = (inr tt, st')) /\
  (forall iters tf total kind curr_img st',
      total <= frame_count st' ->
      transition_loop E iters tf total kind curr_img st' = (inr tt, st')).
Proof.
  intros st.
  assert (Hsplit : match frame_budget cfg with
                   | inr total => within_budget total st
                   | inl _ => frame_count st = 0 /\ written st = []
                   end).
  { destruct (frame_budget cfg) as [e | total] eqn:Hb.
    - assert (H : preserves (fun s => frame_count s = 0 /\ written s = [])
                            (create_slideshow E image_files cfg)).
      { apply create_slideshow_preserves.
        + intros ev s Hs. exact Hs.
        + intros fixed idur total fp rest fi th _ _ _ Htotal.
          rewrite Hb in Htotal. discriminate. }
      apply (H initial). split; reflexivity.
    - assert (H : preserves (within_budget total)
                            (create_slideshow E image_files cfg)).
      { apply create_slideshow_preserves.
        + intros ev. apply within_budget_neutral; auto with neutral.
        + intros fixed idur total' fp rest fi th _ _ _ Htotal. rewrite Hb in Htotal.
          injection Htotal as <-. apply process_images_within_budget. }
      apply (H initial). split; simpl; lia. }
  split; [| split; [| split]].
  - destruct (frame_budget cfg); [| apply Hsplit].
    destruct Hsplit as [-> ->]. reflexivity.
  - destruct (frame_budget cfg) as [e | total]; [apply Hsplit |].
    destruct Hsplit as [H1 H2]. rewrite <- H1. split; lia.
  - intros; now apply display_loop_exhausted.
  - intros; now apply transition_loop_exhausted.
Qed.

(** ** Transitions shorter than one frame *)

Lemma range_nonpositive n : n <= 0 -> range n = [].
Proof.
  intros Hn. unfold range. replace (Z.to_nat n) with 0%nat by lia. reflexivity.
Qed.

Lemma in_range j n : In j (range n) -> 0 <= j < n.
Proof.
  unfold range. rewrite in_map_iff. intros [k [<- Hk]].
  apply in_seq in Hk. lia.
Qed.


(** ** Images that cannot be decoded *)

Lemma process_image_index E cfg fixed idur tw th total i i' img_path :
  i <> 0 -> i' <> 0 ->
  process_image E cfg fixed idur tw th total i img_path =
  process_image E cfg fixed idur tw th total i' img_path.
Proof.
  intros Hi Hi'. unfold process_image.
  destruct (Z.eqb_spec i 0); [contradiction |].
  destruct (Z.eqb_spec i' 0); [contradiction |]. reflexivity.
Qed.

Lemma process_images_index E cfg fixed idur tw th total files :
  forall i i' st, 1 <= i -> 1 <= i' ->
    process_images E cfg fixed idur tw th total i files st =
    process_images E cfg fixed idur tw th total i' files st.
Proof.
  induction files as [| f rest IH]; intros i i' st Hi Hi'; simpl; [reflexivity |].
  unfold bind. rewrite (process_image_index E cfg fixed idur tw th total i i')
    by lia.
  destruct (process_image E cfg fixed idur tw th total i' f st) as [[e | []] st'];
    [reflexivity |].
  apply IH; lia.
Qed.

(** C7 (as amended). An image that cannot be decoded when the loop reaches
    it is skipped: a warning is printed, no frame is written, the previous
    frame and the counters are unchanged and the loop goes on with the next
    image; for an image after the first the rest of the run is the run
    without that image.  When the first image cannot be decoded, a run with
    a feasible schedule is aborted with a [ValueError] before any frame is
    written. *)
Theorem undecodable_image_skipped E cfg fixed idur tw th total :
  (forall i img_path st,
      imread E img_path = None ->
      process_image E cfg fixed idur tw th total i img_path st
      = (inr tt, warned img_path st)) /\
  (forall i img_path rest st,
      imread E img_path = None -> 1 <= i ->
      process_images E cfg fixed idur tw th total i (img_path :: rest) st
      = process_images E cfg fixed idur tw th total i rest (warned img_path st)) /\
  (forall first_path rest idur',
      imread E first_path = None ->
      compute_image_duration cfg (Z.of_nat (length (first_path :: rest))) = inr idur' ->
      fst (create_slideshow E (first_path :: rest) cfg initial)
      = inl (ValueError "Could not read image") /\
      written (snd (create_slideshow E (first_path :: rest) cfg initial)) = []).
Proof.
  split; [| split].
  - intros i img_path st Hread. unfold process_image. rewrite Hread. reflexivity.
  - intros i img_path rest st Hread Hi. simpl. unfold bind at 1.
    unfold process_image. rewrite Hread. simpl.
    apply process_images_index; lia.
  - intros first_path rest idur' Hread Hdur. unfold create_slideshow.
    destruct (select_transition cfg) as [fixed' unknown].
    unfold bind, lift. rewrite Hdur, Hread.
    destruct unknown; simpl; split; reflexivity.
Qed.

(** C7, counterexample: with an undecodable first file the run ends in a
    [ValueError]: it is fatal, nothing is skipped and no warning is printed. *)
Lemma first_image_undecodable_is_fatal :
  let files := ["bad.png"; "a.png"; "b.png"]%string in
  let cfg := sample_config (of_int 10) (of_int 1) 10 "fade" in
  let r := create_slideshow sample_externals files cfg initial in
  imread sample_externals "bad.png" = None /\
  fst r = inl (ValueError "Could not read image") /\
  written (snd r) = [] /\
  ~ In (WarnCouldNotRead "bad.png") (stdout (snd r)).
Proof.
  vm_compute. repeat split; try reflexivity.
  intros [H | []]. discriminate H.
Qed.

(** ** Frames of different resolutions *)

Lemma same_shape_false a b : shape a <> shape b -> same_shape a b = false.
Proof.
  unfold shape, same_shape. intros Hne.
  destruct (Nat.eqb_spec (img_height a) (img_height b)) as [Hh | Hh];
    [| reflexivity].
  destruct (Nat.eqb_spec (img_width a) (img_width b)) as [Hw | Hw];
    [| reflexivity].
  exfalso. apply Hne. now rewrite Hh, Hw.
Qed.

(** C8 (as amended). [apply_transition] makes no check of its own on the
    two resolutions.  For the fade, kind 0 and the fallback of every
    unrecognised kind, frames of different resolutions are rejected by the
    blend with an error and no frame is produced. *)
Theorem fade_rejects_mismatched_frames E prev_frame next_frame kind progress :
  shape prev_frame <> shape next_frame ->
  kind <= 0 \/ 8 < kind ->
  apply_transition E prev_frame next_frame kind progress = inl cv2_error.
Proof.
  intros Hne Hkind. apply same_shape_false in Hne.
  assert (Hfade : fade prev_frame next_frame progress = inl cv2_error).
  { unfold fade, addWeighted. now rewrite Hne. }
  unfold apply_transition. destruct (shape prev_frame) as [h w].
  destruct (Z.eqb_spec kind 0); [exact Hfade |].
  repeat match goal with
         | |- context [?k =? ?c] => destruct (Z.eqb_spec k c); [lia |]
         end.
  exact Hfade.
Qed.

(** C8, counterexample: a wipe-left between a 2x1 and a 3x1 frame returns a
    frame. *)
Lemma wipe_left_accepts_mismatched_frames :
  let prev_frame := solid 2 1 (1, 1, 1) in
  let next_frame := solid 3 1 (9, 9, 9) in
  shape prev_frame <> shape next_frame /\
  apply_transition sample_externals prev_frame next_frame 1 (ratio 1 2)
  = inr (mk_image 2 [[(9, 9, 9); (1, 1, 1)]]).
Proof.
  split; [vm_compute; discriminate | vm_compute; reflexivity].
Qed.

(** ** The fade at the ends of the progress range *)

Lemma forallb_range (P : Z -> bool) n :
  forallb P (range n) = true -> forall z, 0 <= z < n -> P z = true.
Proof.
  intros H z Hz. rewrite forallb_forall in H. apply H.
  unfold range. apply in_map_iff. exists (Z.to_nat z). split; [lia |].
  apply in_seq. lia.
Qed.

Lemma is_pos_zero_eq x :
  (match x with S754_zero false => true | _ => false end) = true ->
  x = S754_zero false.
Proof. destruct x as [[|] | | |]; intros H; try discriminate; reflexivity. Qed.

(** A sample weighted by 0.0 contributes the float +0.0. *)
Lemma sample_times_zero b :
  sample_ok b -> fmul (of_int b) (S754_zero false) = S754_zero false.
Proof.
  intros Hb. apply is_pos_zero_eq.
  apply (forallb_range
           (fun b => match fmul (of_int b) (S754_zero false) with
                     | S754_zero false => true
                     | _ => false
                     end) 256); [vm_compute; reflexivity | unfold sample_ok in Hb; lia].
Qed.

Lemma blend_sample_progress_0 a b :
  sample_ok a -> sample_ok b ->
  blend_sample (fsub (of_int 1) (of_int 0)) (of_int 0) (of_int 0) a b = a.
Proof.
  intros Ha Hb. unfold blend_sample.
  change (of_int 0) with (S754_zero false).
  rewrite (sample_times_zero b Hb).
  apply Z.eqb_eq.
  apply (forallb_range
           (fun a => saturate_u8
                       (cvRound
                          (fadd (fadd (fmul (of_int a)
                                            (fsub (of_int 1) (S754_zero false)))
                                      (S754_zero false))
                                (S754_zero false))) =? a) 256);
    [vm_compute; reflexivity | unfold sample_ok in Ha; lia].
Qed.

Lemma blend_sample_progress_1 a b :
  sample_ok a -> sample_ok b ->
  blend_sample (fsub (of_int 1) (of_int 1)) (of_int 1) (of_int 0) a b = b.
Proof.
  intros Ha Hb. unfold blend_sample.
  change (fsub (of_int 1) (of_int 1)) with (S754_zero false).
  change (of_int 0) with (S754_zero false).
  rewrite (sample_times_zero a Ha).
  apply Z.eqb_eq.
  apply (forallb_range
           (fun b => saturate_u8
                       (cvRound
                          (fadd (fadd (S754_zero false) (fmul (of_int b) (of_int 1)))
                                (S754_zero false))) =? b) 256);
    [vm_compute; reflexivity | unfold sample_ok in Hb; lia].
Qed.

Lemma zip_with_left {A B : Type} (f : A -> B -> A) (P : A -> Prop) (Q : B -> Prop) :
  (forall a b, P a -> Q b -> f a b = a) ->
  forall l l', Forall P l -> Forall Q l' -> length l = length l' ->
               zip_with f l l' = l.
Proof.
  intros Hf l. induction l as [| a t IH]; intros [| b t'] HP HQ Hlen;
    simpl in *; try reflexivity; try discriminate.
  inversion HP; inversion HQ; subst. f_equal; [now apply Hf | apply IH; auto].
Qed.

Lemma zip_with_right {A B : Type} (f : A -> B -> B) (P : A -> Prop) (Q : B -> Prop) :
  (forall a b, P a -> Q b -> f a b = b) ->
  forall l l', Forall P l -> Forall Q l' -> length l = length l' ->
               zip_with f l l' = l'.
Proof.
  intros Hf l. induction l as [| a t IH]; intros [| b t'] HP HQ Hlen;
    simpl in *; try reflexivity; try discriminate.
  inversion HP; inversion HQ; subst. f_equal; [now apply Hf | apply IH; auto].
Qed.

Lemma shape_eq a b :
  shape a = shape b -> img_height a = img_height b /\ img_width a = img_width b.
Proof. unfold shape. intros H. injection H as Hh Hw. split; lia. Qed.

Lemma same_shape_true a b : shape a = shape b -> same_shape a b = true.
Proof.
  intros H. apply shape_eq in H as [Hh Hw]. unfold same_shape.
  rewrite Hh, Hw, !Nat.eqb_refl. reflexivity.
Qed.

(** Rows of two well-formed frames of one shape, paired with their widths. *)
Lemma rows_with_width (a : ndarray) :
  wf_image a -> u8_image a ->
  Forall (fun r => length r = img_width a /\ Forall pixel_ok r) (img_rows a).
Proof.
  unfold wf_image, u8_image. intros Hwf Hu8.
  rewrite Forall_forall in *. intros r Hr. split; auto.
Qed.

(** C4. For two frames of one resolution (rectangular, 8-bit samples) the
    fade at progress 0.0 returns the first frame and at progress 1.0 the
    second one, exactly: the linear blend with weights [1 - progress] and
    [progress], rounded to the nearest integer sample, is the identity at
    both ends of the progress range. *)
Theorem fade_identity_at_boundaries E A B :
  wf_image A -> wf_image B -> u8_image A -> u8_image B -> shape A = shape B ->
  apply_transition E A B 0 (of_int 0) = inr A /\
  apply_transition E A B 0 (of_int 1) = inr B.
Proof.
  intros HwfA HwfB Hu8A Hu8B Hshape.
  pose proof (same_shape_true _ _ Hshape) as Hsame.
  apply shape_eq in Hshape as [Hh Hw].
  pose proof (rows_with_width A HwfA Hu8A) as HA.
  pose proof (rows_with_width B HwfB Hu8B) as HB.
  unfold apply_transition. destruct (shape A) as [h w]. simpl.
  unfold fade, addWeighted. rewrite Hsame. split; f_equal.
  - destruct A as [wA rowsA]; simpl in *. f_equal.
    apply zip_with_left with (2 := HA) (3 := HB); [| exact Hh].
    intros ra rb [Hla Hpa] [Hlb Hpb].
    apply zip_with_left with (2 := Hpa) (3 := Hpb); [| lia].
    intros [[pb pg] pr] [[qb qg] qr] [Hp1 [Hp2 Hp3]] [Hq1 [Hq2 Hq3]].
    unfold blend_pixel. now rewrite !blend_sample_progress_0.
  - destruct B as [wB rowsB]; simpl in *. f_equal; [exact Hw |].
    apply zip_with_right with (2 := HA) (3 := HB); [| exact Hh].
    intros ra rb [Hla Hpa] [Hlb Hpb].
    apply zip_with_right with (2 := Hpa) (3 := Hpb); [| lia].
    intros [[pb pg] pr] [[qb qg] qr] [Hp1 [Hp2 Hp3]] [Hq1 [Hq2 Hq3]].
    unfold blend_pixel. now rewrite !blend_sample_progress_1.
Qed.

(** ** Binary64 arithmetic: rounding, comparison, truncation *)

(** ** Powers of two *)

Lemma bpow_gt_0 e : (0 < bpow e)%R.
Proof. apply powerRZ_lt; lra. Qed.

Lemma bpow_plus a b : bpow (a + b) = (bpow a * bpow b)%R.
Proof. apply powerRZ_add; lra. Qed.

Lemma bpow_IZR n : 0 <= n -> bpow n = IZR (2 ^ n).
Proof.
  intros Hn. unfold bpow. destruct n as [| p | p]; [reflexivity | | lia].
  simpl powerRZ. rewrite pow_IZR. now rewrite positive_nat_Z.
Qed.

Lemma bpow_le a b : a <= b -> (bpow a <= bpow b)%R.
Proof.
  intros Hab. replace b with (a + (b - a)) by lia. rewrite bpow_plus.
  rewrite (bpow_IZR (b - a)) by lia.
  assert (1 <= IZR (2 ^ (b - a)))%R.
  { apply IZR_le. assert (0 < 2 ^ (b - a)) by (apply Z.pow_pos_nonneg; lia). lia. }
  pose proof (bpow_gt_0 a). nra.
Qed.

Lemma bpow_lt a b : a < b -> (bpow a < bpow b)%R.
Proof.
  intros Hab. replace b with (a + (b - a)) by lia. rewrite bpow_plus.
  rewrite (bpow_IZR (b - a)) by lia.
  assert (2 <= IZR (2 ^ (b - a)))%R.
  { apply IZR_le. replace (b - a) with (Z.succ (b - a - 1)) by lia.
    rewrite Z.pow_succ_r by lia.
    assert (0 < 2 ^ (b - a - 1)) by (apply Z.pow_pos_nonneg; lia). lia. }
  pose proof (bpow_gt_0 a). nra.
Qed.

(** Alignment of a mantissa on a smaller exponent. *)
Lemma F2R_align m e e' : e' <= e -> F2R m e = F2R (m * 2 ^ (e - e')) e'.
Proof.
  intros He. unfold F2R. rewrite mult_IZR, <- bpow_IZR by lia.
  rewrite Rmult_assoc, <- bpow_plus. f_equal. f_equal. lia.
Qed.

Lemma F2R_le m1 m2 e : (F2R m1 e <= F2R m2 e)%R <-> m1 <= m2.
Proof.
  unfold F2R. pose proof (bpow_gt_0 e) as Hp. split; intros H.
  - apply le_IZR. nra.
  - apply IZR_le in H. nra.
Qed.

Lemma F2R_lt m1 m2 e : (F2R m1 e < F2R m2 e)%R <-> m1 < m2.
Proof.
  unfold F2R. pose proof (bpow_gt_0 e) as Hp. split; intros H.
  - apply lt_IZR. nra.
  - apply IZR_lt in H. nra.
Qed.

Lemma F2R_eq m1 m2 e : F2R m1 e = F2R m2 e <-> m1 = m2.
Proof.
  split; [| now intros ->]. intros H. apply Z.le_antisymm; apply (F2R_le _ _ e); lra.
Qed.

(** ** Number of binary digits *)

Lemma digits2_pos_size p : digits2_pos p = Pos.size p.
Proof. induction p; simpl; now rewrite ?IHp. Qed.

Lemma Zdigits2_log2 m : 0 < m -> Zdigits2 m = Z.log2 m + 1.
Proof.
  destruct m as [| p | p]; try lia. intros _. simpl Zdigits2.
  rewrite digits2_pos_size. destruct p; simpl; lia.
Qed.

Lemma Zdigits2_bounds m :
  0 < m -> 2 ^ (Zdigits2 m - 1) <= m < 2 ^ Zdigits2 m.
Proof.
  intros Hm. rewrite Zdigits2_log2 by assumption.
  pose proof (Z.log2_spec m Hm). replace (Z.log2 m + 1 - 1) with (Z.log2 m) by lia.
  replace (Z.log2 m + 1) with (Z.succ (Z.log2 m)) by lia. assumption.
Qed.

Lemma Zdigits2_pos m : 0 < m -> 0 < Zdigits2 m.
Proof. intros Hm. rewrite Zdigits2_log2 by assumption. pose proof (Z.log2_nonneg m). lia. Qed.

Lemma Zdigits2_unique m d :
  0 < d -> 2 ^ (d - 1) <= m < 2 ^ d -> Zdigits2 m = d.
Proof.
  intros Hd Hm. assert (0 < m).
  { assert (0 < 2 ^ (d - 1)) by (apply Z.pow_pos_nonneg; lia). lia. }
  rewrite Zdigits2_log2 by assumption.
  rewrite (Z.log2_unique m (d - 1)); try lia.
  replace (Z.succ (d - 1)) with d by lia. assumption.
Qed.

Lemma Zdigits2_le m1 m2 : 0 < m1 -> m1 <= m2 -> Zdigits2 m1 <= Zdigits2 m2.
Proof.
  intros H1 H12. rewrite !Zdigits2_log2 by lia.
  pose proof (Z.log2_le_mono m1 m2 H12). lia.
Qed.

Lemma Zdigits2_mul_pow2 m k : 0 < m -> 0 <= k -> Zdigits2 (m * 2 ^ k) = Zdigits2 m + k.
Proof.
  intros Hm Hk. assert (0 < 2 ^ k) by (apply Z.pow_pos_nonneg; lia).
  rewrite !Zdigits2_log2 by nia. rewrite Z.log2_mul_pow2 by lia. lia.
Qed.

Lemma fexp_eq x : fexp prec emax x = Z.max (x - 53) (-1074).
Proof. reflexivity. Qed.

(** ** Right shifts with round and sticky bits *)

Lemma iter_pos_nat {A : Type} (f : A -> A) p x :
  iter_pos f p x = Nat.iter (Pos.to_nat p) f x.
Proof.
  revert x. induction p as [p IH | p IH |]; intros x; simpl iter_pos.
  - rewrite !IH, Pos2Nat.inj_xI.
    replace (S (2 * Pos.to_nat p)) with (Pos.to_nat p + (Pos.to_nat p + 1))%nat by lia.
    rewrite !Nat.iter_add. reflexivity.
  - rewrite !IH, Pos2Nat.inj_xO.
    replace (2 * Pos.to_nat p)%nat with (Pos.to_nat p + Pos.to_nat p)%nat by lia.
    rewrite Nat.iter_add. reflexivity.
  - reflexivity.
Qed.

Lemma shr_1_spec m r s :
  0 <= m ->
  shr_1 (Build_shr_record m r s) =
  Build_shr_record (m / 2) (Z.odd m) (r || s).
Proof.
  intros Hm. destruct m as [| p | p]; [reflexivity | | lia].
  destruct p as [p | p |]; simpl shr_1; f_equal.
  - rewrite Pos2Z.inj_xI. apply (Z.div_unique _ _ _ 1); lia.
  - rewrite Pos2Z.inj_xO. apply (Z.div_unique _ _ _ 0); lia.
Qed.

(** [k] right shifts from an exact location: the quotient by [2^k] and the
    location of the remainder. *)
Lemma shr_iter_exact k m :
  0 <= m ->
  let mrs := Nat.iter k shr_1 (Build_shr_record m false false) in
  exists R, m = shr_m mrs * 2 ^ Z.of_nat k + R /\ 0 <= R < 2 ^ Z.of_nat k /\
            0 <= shr_m mrs /\
            orb (shr_r mrs) (shr_s mrs) = negb (R =? 0) /\
            loc_of_shr_record mrs = loc_of_rem R (Z.of_nat k).
Proof.
  intros Hm. induction k as [| k IH].
  - exists 0. simpl. repeat split; lia.
  - simpl Nat.iter. cbv zeta in IH.
    destruct (Nat.iter k shr_1 (Build_shr_record m false false)) as [mk r s].
    destruct IH as [R [Heq [HR [Hmk [Hrs _]]]]]. simpl in Heq, Hmk, Hrs.
    rewrite shr_1_spec by assumption. cbv zeta. simpl shr_m. simpl shr_r. simpl shr_s.
    rewrite Nat2Z.inj_succ, Z.pow_succ_r by lia.
    pose proof (Z.div_mod mk 2 ltac:(lia)) as Hdm.
    pose proof (Z.mod_pos_bound mk 2 ltac:(lia)) as Hb.
    assert (Hodd : Z.odd mk = negb (mk mod 2 =? 0)).
    { rewrite Zmod_odd. destruct (Z.odd mk); reflexivity. }
    exists ((mk mod 2) * 2 ^ Z.of_nat k + R).
    assert (Hpos : 0 < 2 ^ Z.of_nat k) by (apply Z.pow_pos_nonneg; lia).
    split.
    { rewrite Heq. rewrite Hdm at 1. ring. }
    split.
    { assert (mk mod 2 * 2 ^ Z.of_nat k <= 1 * 2 ^ Z.of_nat k)
        by (apply Z.mul_le_mono_nonneg_r; lia).
      assert (0 <= mk mod 2 * 2 ^ Z.of_nat k) by (apply Z.mul_nonneg_nonneg; lia).
      lia. }
    split; [apply Z.div_pos; lia |].
    rewrite Hrs, Hodd. unfold loc_of_rem. rewrite ?Z.pow_succ_r by lia.
    assert (Hcases : mk mod 2 = 0 \/ mk mod 2 = 1) by lia.
    destruct Hcases as [H0 | H1].
    + rewrite H0. replace (0 * 2 ^ Z.of_nat k + R) with R by lia.
      change (0 =? 0) with true.
      destruct (Z.eqb_spec R 0) as [-> | HRne]; cbn [negb orb loc_of_shr_record].
      * split; reflexivity.
      * split; [reflexivity |]. f_equal. symmetry. apply Z.compare_lt_iff. lia.
    + rewrite H1. change (1 =? 0) with false.
      destruct (Z.eqb_spec (1 * 2 ^ Z.of_nat k + R) 0) as [Hz | _]; [lia |].
      destruct (Z.eqb_spec R 0) as [-> | HRne]; cbn [negb orb loc_of_shr_record].
      * split; [reflexivity |]. f_equal. symmetry. apply Z.compare_eq_iff. lia.
      * split; [reflexivity |]. f_equal. symmetry. apply Z.compare_gt_iff. lia.
Qed.

(** [k] right shifts from any location: the quotient by [2^k]. *)
Lemma shr_iter_m k m r s :
  0 <= m ->
  shr_m (Nat.iter k shr_1 (Build_shr_record m r s)) = m / 2 ^ Z.of_nat k.
Proof.
  intros Hm. revert r s. induction k as [| k IH]; intros r s.
  - simpl. now rewrite Z.div_1_r.
  - simpl Nat.iter.
    destruct (Nat.iter k shr_1 (Build_shr_record m r s)) as [mk rk sk] eqn:Hk.
    assert (Hmk : mk = m / 2 ^ Z.of_nat k).
    { specialize (IH r s). rewrite Hk in IH. exact IH. }
    assert (0 <= mk) by (subst mk; apply Z.div_pos; [lia | apply Z.pow_pos_nonneg; lia]).
    rewrite shr_1_spec by assumption. simpl shr_m.
    rewrite Nat2Z.inj_succ, Z.pow_succ_r by lia. subst mk.
    rewrite Z.div_div by (try apply Z.pow_pos_nonneg; lia). f_equal. lia.
Qed.

Lemma shr_exact m e n :
  0 <= m -> 0 <= n ->
  shr (Build_shr_record m false false) e n =
  (fst (shr (Build_shr_record m false false) e n), e + n) /\
  shr_m (fst (shr (Build_shr_record m false false) e n)) = m / 2 ^ n /\
  loc_of_shr_record (fst (shr (Build_shr_record m false false) e n))
  = loc_of_rem (m mod 2 ^ n) n.
Proof.
  intros Hm Hn. destruct n as [| p | p]; [| | lia].
  - simpl. rewrite Z.add_0_r, Z.div_1_r, Z.mod_1_r. repeat split.
  - unfold shr. cbn [fst]. rewrite iter_pos_nat.
    destruct (shr_iter_exact (Pos.to_nat p) m Hm) as [R [Heq [HR [Hq [_ Hloc]]]]].
    rewrite positive_nat_Z in Heq, HR, Hloc.
    assert (Hpos : 0 < 2 ^ Z.pos p) by (apply Z.pow_pos_nonneg; lia).
    set (q := shr_m (Nat.iter (Pos.to_nat p) shr_1 (Build_shr_record m false false))) in *.
    assert (Hdiv : m / 2 ^ Z.pos p = q).
    { symmetry. apply (Z.div_unique _ _ _ R); [lia | lia]. }
    assert (Hmod : m mod 2 ^ Z.pos p = R).
    { symmetry. apply (Z.mod_unique _ _ q); [lia | lia]. }
    rewrite Hdiv, Hmod. repeat split. exact Hloc.
Qed.

Lemma shr_any m e n l :
  0 <= m -> 0 <= n ->
  shr (shr_record_of_loc m l) e n = (fst (shr (shr_record_of_loc m l) e n), e + n) /\
  shr_m (fst (shr (shr_record_of_loc m l) e n)) = m / 2 ^ n.
Proof.
  intros Hm Hn.
  assert (Hrec : exists r s, shr_record_of_loc m l = Build_shr_record m r s).
  { destruct l as [| []]; simpl; eauto. }
  destruct Hrec as [r [s ->]].
  destruct n as [| p | p]; [| | lia].
  - simpl. rewrite Z.add_0_r, Z.div_1_r. split; reflexivity.
  - unfold shr. cbn [fst]. rewrite iter_pos_nat.
    rewrite shr_iter_m by assumption. rewrite positive_nat_Z. split; reflexivity.
Qed.

Lemma round_aux_finish s m e l :
  0 <= m -> e <= fexp prec emax (Zdigits2 m + e) ->
  let E := fexp prec emax (Zdigits2 m + e) in
  exists l',
    (l = loc_Exact -> l' = loc_of_rem (m mod 2 ^ (E - e)) (E - e)) /\
    binary_round_aux prec emax s m e l
    = finish s (round_nearest_even (m / 2 ^ (E - e)) l') E.
Proof.
  intros Hm He E. unfold binary_round_aux, shr_fexp at 1. fold E.
  destruct (shr_any m e (E - e) l Hm ltac:(lia)) as [Hshr Hq].
  rewrite Hshr. rewrite Hq.
  exists (loc_of_shr_record (fst (shr (shr_record_of_loc m l) e (E - e)))).
  split.
  - intros ->. simpl shr_record_of_loc.
    apply (shr_exact m e (E - e) Hm ltac:(lia)).
  - replace (e + (E - e)) with E by lia. reflexivity.
Qed.

Lemma grid_of_shift m e :
  0 <= m -> e <= fexp prec emax (Zdigits2 m + e) ->
  grid (m / 2 ^ (fexp prec emax (Zdigits2 m + e) - e)) (fexp prec emax (Zdigits2 m + e)).
Proof.
  intros Hm He. rewrite fexp_eq in *.
  set (E := Z.max (Zdigits2 m + e - 53) (-1074)) in *.
  assert (Hpn : 0 < 2 ^ (E - e)) by (apply Z.pow_pos_nonneg; lia).
  destruct (Z.eq_dec m 0) as [-> | Hne].
  - simpl Zdigits2 in *. rewrite Z.div_0_l by lia. unfold grid.
    split; [split; [lia | apply Z.pow_pos_nonneg; lia] |]. split; lia.
  - assert (Hpos : 0 < m) by lia.
    pose proof (Zdigits2_bounds m Hpos) as [Hlo Hhi].
    pose proof (Zdigits2_pos m Hpos) as Hd.
    set (d := Zdigits2 m) in *.
    unfold grid. split; [split |].
    + apply Z.div_pos; lia.
    + apply Z.div_lt_upper_bound; [lia |].
      rewrite <- Z.pow_add_r by lia.
      apply Z.lt_le_trans with (1 := Hhi). apply Z.pow_le_mono_r; lia.
    + split; [lia |].
      destruct (Z.eq_dec E (-1074)) as [| HE]; [now left | right].
      assert (HEd : E = d + e - 53) by lia.
      apply Z.div_le_lower_bound; [lia |].
      rewrite <- Z.pow_add_r by lia.
      apply Z.le_trans with (2 := Hlo). apply Z.pow_le_mono_r; lia.
Qed.

Lemma fexp_on_grid m E :
  0 < m < 2 ^ 53 -> -1074 <= E -> (E = -1074 \/ 2 ^ 52 <= m) ->
  fexp prec emax (Zdigits2 m + E) = E.
Proof.
  intros [Hpos Hlt] HE Hcase. rewrite fexp_eq.
  assert (Hd : Zdigits2 m <= 53).
  { pose proof (Zdigits2_bounds m Hpos) as [Hlo _].
    pose proof (Zdigits2_pos m Hpos).
    destruct (Z_le_gt_dec (Zdigits2 m) 53) as [| Hgt]; [assumption |].
    assert (2 ^ 53 <= 2 ^ (Zdigits2 m - 1)) by (apply Z.pow_le_mono_r; lia). lia. }
  destruct Hcase as [-> | Hbig]; [lia |].
  assert (Zdigits2 m = 53) by (apply Zdigits2_unique; [lia | split; simpl; lia]).
  lia.
Qed.

Lemma finish_cases s m' m1 E :
  grid m' E -> m1 = m' \/ m1 = m' + 1 ->
  (m1 = 0 /\ finish s m1 E = S754_zero s) \/
  (0 < m1 /\ exists mf ef,
      finish s m1 E = S754_finite s mf ef /\
      valid (S754_finite s mf ef) = true /\
      F2R (Zpos mf) ef = F2R m1 E) \/
  (0 < m1 /\ finish s m1 E = S754_infinity s /\ (bpow 1024 <= F2R m1 E)%R).
Proof.
  intros [[Hm0 Hm53] [HE Hcase]] Hm1.
  assert (H1 : 0 <= m1 <= 2 ^ 53) by lia.
  assert (Hcase1 : E = -1074 \/ 2 ^ 52 <= m1) by lia.
  destruct (Z.eq_dec m1 0) as [-> | Hne].
  { left. split; [reflexivity |]. unfold finish, shr_fexp. simpl Zdigits2.
    rewrite fexp_eq. simpl shr_record_of_loc.
    destruct (Z.max (0 + E - 53) (-1074) - E) eqn:Hn; try lia; reflexivity. }
  right. assert (Hpos : 0 < m1) by lia.
  destruct (Z.eq_dec m1 (2 ^ 53)) as [-> | Hne53].
  - (* the rounding carried into a new binade *)
    assert (Hfin : finish s (2 ^ 53) E =
                   if E + 1 <=? 971 then S754_finite s (2 ^ 52) (E + 1)
                   else S754_infinity s).
    { unfold finish, shr_fexp. change (Zdigits2 (2 ^ 53)) with 54.
      rewrite fexp_eq. replace (Z.max (54 + E - 53) (-1074) - E) with 1 by lia.
      reflexivity. }
    rewrite Hfin. destruct (Z.leb_spec (E + 1) 971) as [Hle | Hgt].
    + left. split; [lia |]. exists (2 ^ 52)%positive, (E + 1). split; [reflexivity |].
      split.
      * unfold valid, valid_binary, bounded, canonical_mantissa.
        change (Z.pos (digits2_pos (2 ^ 52))) with 53. rewrite fexp_eq.
        apply andb_true_intro. split; [apply Z.eqb_eq; lia | apply Z.leb_le; simpl; lia].
      * rewrite (F2R_align _ (E + 1) E) by lia.
        replace (E + 1 - E) with 1 by lia. reflexivity.
    + right. split; [lia |]. split; [reflexivity |].
      apply Rle_trans with (F2R (2 ^ 53) 971).
      * unfold F2R. rewrite <- bpow_IZR by lia. rewrite <- bpow_plus. apply bpow_le. lia.
      * rewrite (F2R_align _ E 971) by lia. apply F2R_le.
        assert (0 < 2 ^ (E - 971)) by (apply Z.pow_pos_nonneg; lia). nia.
  - assert (Hlt : m1 < 2 ^ 53) by lia.
    assert (Hfexp : fexp prec emax (Zdigits2 m1 + E) = E)
      by (apply fexp_on_grid; lia).
    destruct m1 as [| p | p]; try lia.
    assert (Hfin : finish s (Z.pos p) E =
                   if E <=? 971 then S754_finite s p E else S754_infinity s).
    { unfold finish, shr_fexp. rewrite Hfexp, Z.sub_diag. reflexivity. }
    rewrite Hfin. destruct (Z.leb_spec E 971) as [Hle | Hgt].
    + left. split; [lia |]. exists p, E. split; [reflexivity |]. split; [| reflexivity].
      unfold valid, valid_binary, bounded, canonical_mantissa.
      change (Z.pos (digits2_pos p)) with (Zdigits2 (Z.pos p)). rewrite Hfexp.
      apply andb_true_intro. split; [apply Z.eqb_refl | apply Z.leb_le; simpl; lia].
    + right. split; [lia |]. split; [reflexivity |].
      destruct Hcase1 as [-> | Hbig]; [lia |].
      apply Rle_trans with (F2R (2 ^ 52) 972).
      * unfold F2R. rewrite <- bpow_IZR by lia. rewrite <- bpow_plus. apply bpow_le. lia.
      * rewrite (F2R_align _ E 972) by lia. apply F2R_le.
        assert (1 <= 2 ^ (E - 972)) by (assert (0 < 2 ^ (E - 972)) by (apply Z.pow_pos_nonneg; lia); lia).
        nia.
Qed.

(** ** The grid of the floats *)

Lemma valid_grid s mc ec :
  valid (S754_finite s mc ec) = true -> grid (Zpos mc) ec /\ ec <= 971.
Proof.
  unfold valid, valid_binary, bounded, canonical_mantissa.
  intros H. apply andb_prop in H as [Hcan Hle].
  apply Z.eqb_eq in Hcan. apply Z.leb_le in Hle. rewrite fexp_eq in Hcan.
  change (Z.pos (digits2_pos mc)) with (Zdigits2 (Z.pos mc)) in Hcan.
  pose proof (Zdigits2_bounds (Z.pos mc) ltac:(lia)) as [Hlo Hhi].
  pose proof (Zdigits2_pos (Z.pos mc) ltac:(lia)) as Hd.
  set (d := Zdigits2 (Z.pos mc)) in *.
  split; [| simpl in Hle; lia]. unfold grid. split; [split; [lia |] |].
  - apply Z.lt_le_trans with (1 := Hhi). apply Z.pow_le_mono_r; lia.
  - split; [lia |].
    destruct (Z.eq_dec ec (-1074)) as [| Hne]; [now left | right].
    assert (d = 53) by lia. subst d. replace 52 with (53 - 1) by lia.
    rewrite <- H. exact Hlo.
Qed.

Lemma grid_below m' E mc ec :
  grid m' E -> grid mc ec ->
  (F2R mc ec < F2R (m' + 1) E)%R -> (F2R mc ec <= F2R m' E)%R.
Proof.
  intros [[Hm0 Hm53] [HE Hcase]] [[Hc0 Hc53] [Hec Hccase]] Hlt.
  destruct (Z_le_gt_dec E ec) as [Hle | Hgt].
  - rewrite (F2R_align mc ec E) in * by lia.
    apply F2R_lt in Hlt. apply F2R_le. lia.
  - destruct Hcase as [-> | Hbig]; [lia |].
    rewrite (F2R_align m' E ec) by lia. apply F2R_le.
    assert (2 <= 2 ^ (E - ec)).
    { change 2 with (2 ^ 1) at 1. apply Z.pow_le_mono_r; lia. }
    change (2 ^ 53) with (2 ^ 52 * 2) in Hc53. nia.
Qed.

Lemma grid_above m' E mc ec :
  grid m' E -> grid mc ec ->
  (F2R m' E < F2R mc ec)%R -> (F2R (m' + 1) E <= F2R mc ec)%R.
Proof.
  intros [[Hm0 Hm53] [HE Hcase]] [[Hc0 Hc53] [Hec Hccase]] Hlt.
  destruct (Z_le_gt_dec E ec) as [Hle | Hgt].
  - rewrite (F2R_align mc ec E) in * by lia.
    apply F2R_lt in Hlt. apply F2R_le. lia.
  - exfalso. destruct Hcase as [-> | Hbig]; [lia |].
    rewrite (F2R_align m' E ec) in Hlt by lia. apply F2R_lt in Hlt.
    assert (2 <= 2 ^ (E - ec)).
    { change 2 with (2 ^ 1) at 1. apply Z.pow_le_mono_r; lia. }
    change (2 ^ 53) with (2 ^ 52 * 2) in Hc53. nia.
Qed.

Lemma nonneg_float_grid c :
  valid c = true -> nonneg_float c ->
  exists mc ec, grid mc ec /\ ec <= 971 /\ B2R c = F2R mc ec.
Proof.
  intros Hv Hn. destruct c as [s | s | | s mc ec]; simpl in Hn; try contradiction.
  - exists 0, (-1074). split; [| split; [lia |]].
    + unfold grid. split; [split; [lia | reflexivity] |]. split; [lia | now left].
    + unfold F2R. simpl. lra.
  - subst s. destruct (valid_grid _ _ _ Hv) as [Hg Hle].
    exists (Z.pos mc), ec. split; [exact Hg |]. split; [exact Hle | reflexivity].
Qed.

Lemma grid_lt_overflow mc ec :
  grid mc ec -> ec <= 971 -> (F2R mc ec < bpow 1024)%R.
Proof.
  intros [[Hc0 Hc53] _] Hle.
  apply Rlt_le_trans with (F2R (2 ^ 53) ec).
  - apply F2R_lt. lia.
  - unfold F2R. rewrite <- bpow_IZR by lia. rewrite <- bpow_plus. apply bpow_le. lia.
Qed.

(** ** Rounding of a non-negative number *)

Lemma round_aux_nonneg m e l :
  0 <= m -> e <= fexp prec emax (Zdigits2 m + e) ->
  exists m' E l',
    E = fexp prec emax (Zdigits2 m + e) /\
    m' = m / 2 ^ (E - e) /\
    grid m' E /\
    (l = loc_Exact -> l' = loc_of_rem (m mod 2 ^ (E - e)) (E - e)) /\
    rounds_to (binary_round_aux prec emax false m e l) (round_nearest_even m' l') E.
Proof.
  intros Hm He.
  destruct (round_aux_finish false m e l Hm He) as [l' [Hl' Heq]].
  pose proof (grid_of_shift m e Hm He) as Hg.
  set (E := fexp prec emax (Zdigits2 m + e)) in *.
  set (m' := m / 2 ^ (E - e)) in *.
  exists m', E, l'.
  split; [reflexivity |]. split; [reflexivity |]. split; [exact Hg |].
  split; [exact Hl' |]. rewrite Heq.
  assert (Hm1 : round_nearest_even m' l' = m' \/ round_nearest_even m' l' = m' + 1).
  { unfold round_nearest_even. destruct l' as [| []]; try destruct (Z.even m'); auto. }
  destruct (finish_cases false m' _ E Hg Hm1) as [[H0 Hf] | [[Hp [mf [ef [Hf [Hv HR]]]]] | [Hp [Hf Hov]]]].
  - left. rewrite Hf, H0. repeat split. unfold F2R; simpl; lra.
  - left. rewrite Hf. split; [exact Hv |]. split; [reflexivity |]. exact HR.
  - right. split; assumption.
Qed.

Lemma round_nearest_even_bounds m l :
  m <= round_nearest_even m l <= m + 1.
Proof.
  unfold round_nearest_even. destruct l as [| []]; try destruct (Z.even m); lia.
Qed.

Lemma shift_bounds m n :
  0 <= m -> 0 <= n -> m / 2 ^ n * 2 ^ n <= m < (m / 2 ^ n + 1) * 2 ^ n.
Proof.
  intros Hm Hn. assert (Hp : 0 < 2 ^ n) by (apply Z.pow_pos_nonneg; lia).
  pose proof (Z.div_mod m (2 ^ n) ltac:(lia)).
  pose proof (Z.mod_pos_bound m (2 ^ n) Hp). nia.
Qed.

(** Rounding does not go below a float that is below the number rounded. *)
Lemma round_aux_RD m e l c :
  0 <= m -> e <= fexp prec emax (Zdigits2 m + e) ->
  valid c = true -> nonneg_float c ->
  (B2R c < F2R (m + 1) e)%R ->
  let z := binary_round_aux prec emax false m e l in
  z = S754_infinity false \/
  (valid z = true /\ nonneg_float z /\ (B2R c <= B2R z)%R).
Proof.
  intros Hm He Hv Hn Hlt z.
  destruct (round_aux_nonneg m e l Hm He) as [m' [E [l' [HE [Hm' [Hg [_ Hr]]]]]]].
  fold z in Hr. destruct Hr as [[Hvz [Hnz HB]] | [Hinf _]]; [right | now left].
  split; [exact Hvz |]. split; [exact Hnz |]. rewrite HB.
  destruct (nonneg_float_grid c Hv Hn) as [mc [ec [Hgc [_ HBc]]]].
  rewrite HBc in *.
  pose proof (shift_bounds m (E - e) Hm ltac:(lia)) as [_ Hup]. rewrite <- Hm' in Hup.
  assert (Hlt' : (F2R mc ec < F2R (m' + 1) E)%R).
  { apply Rlt_le_trans with (1 := Hlt).
    rewrite (F2R_align (m' + 1) E e) by lia. apply F2R_le. lia. }
  apply Rle_trans with (F2R m' E); [now apply grid_below |].
  apply F2R_le. apply round_nearest_even_bounds.
Qed.

(** Rounding does not go above a float that is above the number rounded. *)
Lemma round_aux_RU m e l c :
  0 <= m -> e <= fexp prec emax (Zdigits2 m + e) ->
  valid c = true -> nonneg_float c ->
  (l = loc_Exact /\ (F2R m e <= B2R c)%R) \/ (F2R m e < B2R c)%R ->
  let z := binary_round_aux prec emax false m e l in
  valid z = true /\ nonneg_float z /\ (B2R z <= B2R c)%R.
Proof.
  intros Hm He Hv Hn Hc z.
  destruct (round_aux_nonneg m e l Hm He) as [m' [E [l' [HE [Hm' [Hg [Hl' Hr]]]]]]].
  fold z in Hr.
  destruct (nonneg_float_grid c Hv Hn) as [mc [ec [Hgc [Hec HBc]]]].
  rewrite HBc in *.
  pose proof (shift_bounds m (E - e) Hm ltac:(lia)) as [Hdown _]. rewrite <- Hm' in Hdown.
  assert (Hm'm : (F2R m' E <= F2R m e)%R).
  { rewrite (F2R_align m' E e) by lia. apply F2R_le. lia. }
  assert (Hbound : (F2R (round_nearest_even m' l') E <= F2R mc ec)%R).
  { destruct (Rlt_le_dec (F2R m' E) (F2R mc ec)) as [Hlt | Hge].
    - apply Rle_trans with (F2R (m' + 1) E); [| now apply grid_above].
      apply F2R_le. apply round_nearest_even_bounds.
    - destruct Hc as [[-> Hle] | Hlt]; [| lra].
      assert (Heq : F2R m' E = F2R m e) by lra.
      rewrite (F2R_align m' E e) in Heq by lia. apply F2R_eq in Heq.
      assert (Hrem : m mod 2 ^ (E - e) = 0).
      { rewrite <- Heq. apply Z.mod_mul.
        assert (0 < 2 ^ (E - e)) by (apply Z.pow_pos_nonneg; lia). lia. }
      rewrite (Hl' eq_refl), Hrem. unfold loc_of_rem. simpl. lra. }
  destruct Hr as [[Hvz [Hnz HB]] | [_ Hov]].
  - split; [exact Hvz |]. split; [exact Hnz |]. rewrite HB. exact Hbound.
  - exfalso. pose proof (grid_lt_overflow mc ec Hgc Hec). lra.
Qed.

(** ** Multiplication *)

Lemma grid_digits m E : grid m E -> 2 ^ 52 <= m -> Zdigits2 m = 53.
Proof.
  intros [[H0 H53] _] Hbig. apply Zdigits2_unique; [lia | split; simpl; lia].
Qed.

Lemma mul_exponent_ok mx ex my ey :
  grid (Z.pos mx) ex -> grid (Z.pos my) ey ->
  ex + ey <= fexp prec emax (Zdigits2 (Z.pos (mx * my)) + (ex + ey)).
Proof.
  intros Hx Hy. rewrite fexp_eq.
  pose proof Hx as [[_ Hx53] [Hex Hxc]]. pose proof Hy as [[_ Hy53] [Hey Hyc]].
  assert (Hd : forall a b, 2 ^ 52 <= Z.pos a -> 53 <= Zdigits2 (Z.pos (a * b))).
  { intros a b Ha. rewrite <- (Zdigits2_unique (2 ^ 52) 53) by (simpl; lia).
    apply Zdigits2_le; [reflexivity |]. rewrite Pos2Z.inj_mul. nia. }
  destruct Hxc as [-> | Hxbig].
  - destruct Hyc as [-> | Hybig]; [lia |].
    specialize (Hd my mx Hybig). rewrite Pos.mul_comm in Hd. lia.
  - specialize (Hd mx my Hxbig). lia.
Qed.

Lemma nonneg_float_B2R x : nonneg_float x -> (0 <= B2R x)%R.
Proof.
  destruct x as [s | s | | s m e]; simpl; try contradiction; try lra.
  intros ->. simpl. pose proof (bpow_gt_0 e).
  assert (0 < IZR (Z.pos m))%R by (apply IZR_lt; lia). nra.
Qed.

Lemma fmul_RD x y c :
  valid x = true -> valid y = true -> valid c = true ->
  nonneg_float x -> nonneg_float y -> nonneg_float c ->
  (B2R c <= B2R x * B2R y)%R ->
  fmul x y = S754_infinity false \/
  (valid (fmul x y) = true /\ nonneg_float (fmul x y) /\ (B2R c <= B2R (fmul x y))%R).
Proof.
  intros Hvx Hvy Hvc Hnx Hny Hnc Hle.
  destruct x as [sx | sx | | sx mx ex]; simpl in Hnx; try contradiction;
    destruct y as [sy | sy | | sy my ey]; simpl in Hny; try contradiction;
    try (right; simpl in *; repeat split; lra).
  subst sx sy. unfold fmul, SFmul. simpl xorb.
  destruct (valid_grid _ _ _ Hvx) as [Hgx _]. destruct (valid_grid _ _ _ Hvy) as [Hgy _].
  apply round_aux_RD; try assumption; try lia.
  - now apply mul_exponent_ok.
  - apply Rle_lt_trans with (1 := Hle). simpl B2R.
    replace (IZR (Z.pos mx) * bpow ex * (IZR (Z.pos my) * bpow ey))%R
      with (F2R (Z.pos (mx * my)) (ex + ey)).
    + apply F2R_lt. lia.
    + unfold F2R. rewrite bpow_plus, Pos2Z.inj_mul, mult_IZR. ring.
Qed.

Lemma fmul_RU x y c :
  valid x = true -> valid y = true -> valid c = true ->
  nonneg_float x -> nonneg_float y -> nonneg_float c ->
  (B2R x * B2R y <= B2R c)%R ->
  valid (fmul x y) = true /\ nonneg_float (fmul x y) /\ (B2R (fmul x y) <= B2R c)%R.
Proof.
  intros Hvx Hvy Hvc Hnx Hny Hnc Hle.
  pose proof (nonneg_float_B2R c Hnc) as Hc0.
  destruct x as [sx | sx | | sx mx ex]; simpl in Hnx; try contradiction;
    destruct y as [sy | sy | | sy my ey]; simpl in Hny; try contradiction;
    try (simpl in *; repeat split; lra).
  subst sx sy. unfold fmul, SFmul. simpl xorb.
  destruct (valid_grid _ _ _ Hvx) as [Hgx _]. destruct (valid_grid _ _ _ Hvy) as [Hgy _].
  apply round_aux_RU; try assumption; try lia.
  - now apply mul_exponent_ok.
  - left. split; [reflexivity |]. simpl B2R in Hle.
    replace (F2R (Z.pos (mx * my)) (ex + ey))
      with (IZR (Z.pos mx) * bpow ex * (IZR (Z.pos my) * bpow ey))%R; [exact Hle |].
    unfold F2R. rewrite bpow_plus, Pos2Z.inj_mul, mult_IZR. ring.
Qed.

(** ** Division *)

Lemma new_location_exact nb k : new_location nb k = loc_Exact <-> k = 0.
Proof.
  unfold new_location, new_location_even, new_location_odd.
  destruct (Z.even nb); destruct (Z.eqb_spec k 0); split; intros H;
    try reflexivity; try assumption; try discriminate; try contradiction.
Qed.

Lemma div_core_spec mx ex my ey :
  let '(q, e', l) := SFdiv_core_binary prec emax (Z.pos mx) ex (Z.pos my) ey in
  0 <= q /\ e' <= fexp prec emax (Zdigits2 q + e') /\
  (F2R (Z.pos mx) ex < F2R (q + 1) e' * F2R (Z.pos my) ey)%R /\
  ((l = loc_Exact /\ (F2R q e' * F2R (Z.pos my) ey = F2R (Z.pos mx) ex)%R) \/
   (F2R q e' * F2R (Z.pos my) ey < F2R (Z.pos mx) ex)%R).
Proof.
  unfold SFdiv_core_binary.
  set (d1 := Zdigits2 (Z.pos mx)). set (d2 := Zdigits2 (Z.pos my)).
  set (e' := Z.min (fexp prec emax (d1 + ex - (d2 + ey))) (ex - ey)).
  set (s := ex - ey - e').
  assert (Hs : 0 <= s) by (unfold s, e'; lia).
  set (m' := match s with Z.pos _ => Z.shiftl (Z.pos mx) s | 0 => Z.pos mx | Z.neg _ => 0 end).
  assert (Hm' : m' = Z.pos mx * 2 ^ s).
  { unfold m'. destruct s as [| p | p] eqn:Es; [simpl; lia | | lia].
    apply Z.shiftl_mul_pow2. lia. }
  assert (Hps : 0 < 2 ^ s) by (apply Z.pow_pos_nonneg; lia).
  pose proof (Z_div_mod m' (Z.pos my) ltac:(lia)) as Hdm.
  destruct (Z.div_eucl m' (Z.pos my)) as [q r]. destruct Hdm as [Hdm Hr].
  assert (Hq : 0 <= q) by nia.
  pose proof (Zdigits2_bounds (Z.pos mx) ltac:(lia)) as [Hx1 Hx2]. fold d1 in Hx1, Hx2.
  pose proof (Zdigits2_bounds (Z.pos my) ltac:(lia)) as [Hy1 Hy2]. fold d2 in Hy1, Hy2.
  pose proof (Zdigits2_pos (Z.pos mx) ltac:(lia)) as Hd1. fold d1 in Hd1.
  pose proof (Zdigits2_pos (Z.pos my) ltac:(lia)) as Hd2. fold d2 in Hd2.
  (* the exact quotient in terms of the aligned mantissas *)
  assert (Hval : forall k, (F2R k e' * F2R (Z.pos my) ey)%R
                           = F2R (k * Z.pos my) (e' + ey)).
  { intros k. unfold F2R. rewrite mult_IZR, bpow_plus. ring. }
  assert (Hx : F2R (Z.pos mx) ex = F2R m' (e' + ey)).
  { rewrite (F2R_align (Z.pos mx) ex (e' + ey)) by (unfold s in Hs; lia).
    f_equal. rewrite Hm'. f_equal. f_equal. unfold s. lia. }
  split; [exact Hq |]. split.
  - (* enough digits are computed *)
    rewrite fexp_eq.
    set (z := d1 + ex - (d2 + ey)) in *.
    assert (He'z : e' <= Z.max (z - 53) (-1074))
      by (unfold e'; rewrite fexp_eq; lia).
    destruct (Z.eq_dec q 0) as [-> | Hq0].
    + simpl Zdigits2.
      assert (Hlt : Z.pos mx * 2 ^ s < Z.pos my) by lia.
      assert (Hds : d1 + s <= d2).
      { destruct (Z_le_gt_dec (d1 + s) d2) as [| Hgt]; [assumption | exfalso].
        assert (2 ^ d2 <= 2 ^ (d1 - 1 + s)) by (apply Z.pow_le_mono_r; lia).
        rewrite Z.pow_add_r in H by lia. nia. }
      assert (z <= e') by (unfold z, s in *; lia). lia.
    + assert (Hqpos : 0 < q) by lia.
      assert (Hdq : d1 + s - d2 <= Zdigits2 q).
      { pose proof (Zdigits2_pos q Hqpos).
        destruct (Z_le_gt_dec (d1 + s - d2) 0) as [| Hk]; [lia |].
        set (k := d1 + s - d2) in *.
        rewrite <- (Zdigits2_unique (2 ^ (k - 1)) k); [| lia |].
        * apply Zdigits2_le; [apply Z.pow_pos_nonneg; lia |].
          assert (Hlow : 2 ^ (k - 1) * Z.pos my < Z.pos mx * 2 ^ s).
          { apply Z.lt_le_trans with (2 ^ (k - 1) * 2 ^ d2).
            - apply Z.mul_lt_mono_pos_l; [apply Z.pow_pos_nonneg; lia | lia].
            - rewrite <- Z.pow_add_r by lia.
              replace (k - 1 + d2) with (d1 - 1 + s) by (unfold k; lia).
              rewrite Z.pow_add_r by lia. nia. }
          assert (0 < 2 ^ (k - 1)) by (apply Z.pow_pos_nonneg; lia).
          nia.
        * split; [lia |]. apply Z.pow_lt_mono_r; lia. }
      assert (z <= Zdigits2 q + e') by (unfold z, s in *; lia). lia.
  - split.
    + rewrite Hval, Hx. apply F2R_lt. nia.
    + destruct (Z.eq_dec r 0) as [-> | Hr0].
      * left. split; [now apply new_location_exact |].
        rewrite Hval, Hx. f_equal. lia.
      * right. rewrite Hval, Hx. apply F2R_lt. nia.
Qed.

Lemma positive_float_B2R y : positive_float y -> (0 < B2R y)%R.
Proof.
  destruct y as [s | s | | [|] m e]; simpl; try contradiction. intros _.
  pose proof (bpow_gt_0 e). assert (0 < IZR (Z.pos m))%R by (apply IZR_lt; lia). nra.
Qed.

Lemma positive_nonneg y : positive_float y -> nonneg_float y.
Proof. destruct y as [s | s | | [|] m e]; simpl; try contradiction; auto. Qed.

Lemma fdiv_RD x y c :
  valid x = true -> valid y = true -> valid c = true ->
  nonneg_float x -> positive_float y -> nonneg_float c ->
  (B2R c * B2R y <= B2R x)%R ->
  fdiv x y = S754_infinity false \/
  (valid (fdiv x y) = true /\ nonneg_float (fdiv x y) /\ (B2R c <= B2R (fdiv x y))%R).
Proof.
  intros Hvx Hvy Hvc Hnx Hpy Hnc Hle.
  pose proof (positive_float_B2R y Hpy) as Hy0.
  destruct y as [sy | sy | | [|] my ey]; simpl in Hpy; try contradiction.
  destruct x as [sx | sx | | sx mx ex]; simpl in Hnx; try contradiction.
  - right. simpl. repeat split. simpl in Hle, Hy0. nra.
  - subst sx. unfold fdiv, SFdiv. simpl xorb.
    pose proof (div_core_spec mx ex my ey) as Hcore.
    destruct (SFdiv_core_binary prec emax (Z.pos mx) ex (Z.pos my) ey) as [[q e'] l].
    destruct Hcore as [Hq [He' [Hup _]]].
    apply round_aux_RD; try assumption.
    change (B2R (S754_finite false mx ex)) with (F2R (Z.pos mx) ex) in Hle.
    change (B2R (S754_finite false my ey)) with (F2R (Z.pos my) ey) in Hle, Hy0.
    nra.
Qed.

Lemma fdiv_RU x y c :
  valid x = true -> valid y = true -> valid c = true ->
  nonneg_float x -> positive_float y -> nonneg_float c ->
  (B2R x <= B2R c * B2R y)%R ->
  valid (fdiv x y) = true /\ nonneg_float (fdiv x y) /\ (B2R (fdiv x y) <= B2R c)%R.
Proof.
  intros Hvx Hvy Hvc Hnx Hpy Hnc Hle.
  pose proof (positive_float_B2R y Hpy) as Hy0.
  pose proof (nonneg_float_B2R c Hnc) as Hc0.
  destruct y as [sy | sy | | [|] my ey]; simpl in Hpy; try contradiction.
  destruct x as [sx | sx | | sx mx ex]; simpl in Hnx; try contradiction.
  - simpl. repeat split. exact Hc0.
  - subst sx. unfold fdiv, SFdiv. simpl xorb.
    pose proof (div_core_spec mx ex my ey) as Hcore.
    destruct (SFdiv_core_binary prec emax (Z.pos mx) ex (Z.pos my) ey) as [[q e'] l].
    destruct Hcore as [Hq [He' [_ Hlow]]].
    apply round_aux_RU; try assumption.
    change (B2R (S754_finite false mx ex)) with (F2R (Z.pos mx) ex) in Hle.
    change (B2R (S754_finite false my ey)) with (F2R (Z.pos my) ey) in Hle, Hy0.
    destruct Hlow as [[-> Heq] | Hlt].
    + left. split; [reflexivity | nra].
    + right. nra.
Qed.

(** ** Conversion of integers *)

Lemma iter_xO_pow m d : Z.pos (Pos.iter xO m d) = Z.pos m * 2 ^ Z.pos d.
Proof.
  induction d as [| d IH] using Pos.peano_ind.
  - simpl. lia.
  - rewrite Pos.iter_succ, Pos2Z.inj_xO, IH, Pos2Z.inj_succ, Z.pow_succ_r by lia. ring.
Qed.

Lemma shl_align_spec m e e' :
  snd (shl_align m e e') = Z.min e e' /\
  Z.pos (fst (shl_align m e e')) = Z.pos m * 2 ^ (e - Z.min e e').
Proof.
  unfold shl_align. destruct (e' - e) as [| k | k] eqn:Hk; cbn [fst snd].
  - replace (Z.min e e') with e by lia. rewrite Z.sub_diag. split; simpl; lia.
  - replace (Z.min e e') with e by lia. rewrite Z.sub_diag. split; simpl; lia.
  - replace (Z.min e e') with e' by lia. split; [reflexivity |].
    rewrite iter_xO_pow. f_equal. f_equal. lia.
Qed.

Lemma of_int_exact n :
  0 < n < 2 ^ 53 ->
  valid (of_int n) = true /\ positive_float (of_int n) /\ B2R (of_int n) = IZR n.
Proof.
  intros [Hpos Hlt]. destruct n as [| p | p]; try lia.
  unfold of_int, binary_normalize, binary_round.
  pose proof (Zdigits2_bounds (Z.pos p) ltac:(lia)) as [Hlo Hhi].
  pose proof (Zdigits2_pos (Z.pos p) ltac:(lia)) as Hd.
  change (Z.pos (digits2_pos p)) with (Zdigits2 (Z.pos p)).
  set (d := Zdigits2 (Z.pos p)) in *.
  assert (Hd53 : d <= 53).
  { destruct (Z_le_gt_dec d 53) as [| Hgt]; [assumption | exfalso].
    assert (2 ^ 53 <= 2 ^ (d - 1)) by (apply Z.pow_le_mono_r; lia). lia. }
  rewrite fexp_eq. replace (Z.max (d + 0 - 53) (-1074)) with (d - 53) by lia.
  destruct (shl_align_spec p 0 (d - 53)) as [Hez Hmz].
  destruct (shl_align p 0 (d - 53)) as [mz ez]. cbn [fst snd] in Hez, Hmz.
  replace (Z.min 0 (d - 53)) with (d - 53) in * by lia. subst ez.
  replace (0 - (d - 53)) with (53 - d) in Hmz by lia.
  assert (Hdz : Zdigits2 (Z.pos mz) = 53).
  { rewrite Hmz, Zdigits2_mul_pow2 by lia. fold d. lia. }
  assert (Hfexp : fexp prec emax (Zdigits2 (Z.pos mz) + (d - 53)) = d - 53).
  { rewrite Hdz, fexp_eq. lia. }
  destruct (round_aux_finish false (Z.pos mz) (d - 53) loc_Exact ltac:(lia)
              ltac:(rewrite Hfexp; lia)) as [l' [Hl' Heq]].
  rewrite Hfexp, Z.sub_diag in Hl', Heq. rewrite Heq, (Hl' eq_refl).
  rewrite Z.pow_0_r, Z.mod_1_r, Z.div_1_r.
  change (round_nearest_even (Z.pos mz) (loc_of_rem 0 0)) with (Z.pos mz).
  unfold finish, shr_fexp. rewrite Hfexp, Z.sub_diag. cbn [shr shr_record_of_loc shr_m].
  destruct (Z.leb_spec (d - 53) (emax - prec)) as [_ | Hbad];
    [| unfold emax, prec in Hbad; lia].
  split; [| split; [exact I |]].
  - unfold valid, valid_binary, bounded, canonical_mantissa.
    change (Z.pos (digits2_pos mz)) with (Zdigits2 (Z.pos mz)). rewrite Hfexp.
    apply andb_true_intro. split; [apply Z.eqb_refl | apply Z.leb_le; unfold emax, prec; lia].
  - change (B2R (S754_finite false mz (d - 53))) with (F2R (Z.pos mz) (d - 53)).
    rewrite Hmz. replace (53 - d) with (0 - (d - 53)) by lia.
    rewrite <- (F2R_align (Z.pos p) 0 (d - 53)) by lia.
    unfold F2R. simpl. lra.
Qed.

(** ** Comparison *)

Lemma grid_compare m1 e1 m2 e2 :
  grid (Z.pos m1) e1 -> grid (Z.pos m2) e2 ->
  cmp_spec (match e1 ?= e2 with
            | Lt => Lt
            | Gt => Gt
            | Eq => Pos.compare_cont Eq m1 m2
            end) (F2R (Z.pos m1) e1) (F2R (Z.pos m2) e2).
Proof.
  intros [[_ H1] [He1 Hc1]] [[_ H2] [He2 Hc2]].
  assert (Hpow : forall a b, a < b -> 2 <= 2 ^ (b - a)).
  { intros a b Hab. change 2 with (2 ^ 1) at 1. apply Z.pow_le_mono_r; lia. }
  destruct (Z.compare_spec e1 e2) as [-> | Hlt | Hgt]; unfold cmp_spec.
  - change (Pos.compare_cont Eq m1 m2) with (Z.pos m1 ?= Z.pos m2).
    destruct (Z.compare_spec (Z.pos m1) (Z.pos m2)) as [Heq | Hlt | Hgt].
    + now rewrite Heq.
    + now apply F2R_lt.
    + now apply F2R_lt.
  - destruct Hc2 as [-> | Hbig]; [lia |].
    rewrite (F2R_align (Z.pos m2) e2 e1) by lia. apply F2R_lt.
    specialize (Hpow e1 e2 Hlt). change (2 ^ 53) with (2 ^ 52 * 2) in H1. nia.
  - destruct Hc1 as [-> | Hbig]; [lia |].
    rewrite (F2R_align (Z.pos m1) e1 e2) by lia. apply F2R_lt.
    specialize (Hpow e2 e1 ltac:(lia)). change (2 ^ 53) with (2 ^ 52 * 2) in H2. nia.
Qed.

Lemma cmp_spec_opp c a b : cmp_spec c a b -> cmp_spec (CompOpp c) (- a) (- b).
Proof. destruct c; simpl; intros H; lra. Qed.

Lemma B2R_finite s m e :
  B2R (S754_finite s m e) = (if s then - F2R (Z.pos m) e else F2R (Z.pos m) e)%R.
Proof.
  destruct s; unfold B2R, F2R, cond_Zopp; [| reflexivity].
  rewrite opp_IZR. ring.
Qed.

Lemma F2R_pos m e : (0 < F2R (Z.pos m) e)%R.
Proof.
  unfold F2R. pose proof (bpow_gt_0 e).
  assert (0 < IZR (Z.pos m))%R by (apply IZR_lt; lia). nra.
Qed.

(** On the numbers the comparison of floats is the order of the reals. *)
Lemma SFcompare_spec x y :
  valid x = true -> valid y = true -> is_finite x = true -> is_finite y = true ->
  exists c, SFcompare x y = Some c /\ cmp_spec c (B2R x) (B2R y).
Proof.
  intros Hvx Hvy Hfx Hfy.
  destruct x as [sx | sx | | sx mx ex]; try discriminate;
    destruct y as [sy | sy | | sy my ey]; try discriminate.
  - exists Eq. split; reflexivity.
  - exists (if sy then Gt else Lt). split; [reflexivity |].
    rewrite B2R_finite. pose proof (F2R_pos my ey). destruct sy; simpl; lra.
  - exists (if sx then Lt else Gt). split; [reflexivity |].
    rewrite B2R_finite. pose proof (F2R_pos mx ex). destruct sx; simpl; lra.
  - destruct (valid_grid _ _ _ Hvx) as [Hgx _]. destruct (valid_grid _ _ _ Hvy) as [Hgy _].
    rewrite !B2R_finite. pose proof (F2R_pos mx ex). pose proof (F2R_pos my ey).
    pose proof (grid_compare mx ex my ey Hgx Hgy) as Hcmp.
    destruct sx, sy; simpl SFcompare; eexists; (split; [reflexivity |]).
    + destruct (ex ?= ey); try (apply cmp_spec_opp in Hcmp; exact Hcmp).
    + simpl; lra.
    + simpl; lra.
    + exact Hcmp.
Qed.

Lemma flt_spec x y :
  valid x = true -> valid y = true -> is_finite x = true -> is_finite y = true ->
  (flt x y = true <-> (B2R x < B2R y)%R).
Proof.
  intros Hvx Hvy Hfx Hfy.
  destruct (SFcompare_spec x y Hvx Hvy Hfx Hfy) as [c [Hc Hs]].
  unfold flt, SFltb. rewrite Hc. destruct c; simpl in Hs; split; intros H;
    try reflexivity; try discriminate; lra.
Qed.

Lemma fle_spec x y :
  valid x = true -> valid y = true -> is_finite x = true -> is_finite y = true ->
  (fle x y = true <-> (B2R x <= B2R y)%R).
Proof.
  intros Hvx Hvy Hfx Hfy.
  destruct (SFcompare_spec x y Hvx Hvy Hfx Hfy) as [c [Hc Hs]].
  unfold fle, SFleb. rewrite Hc. destruct c; simpl in Hs; split; intros H;
    try reflexivity; try discriminate; lra.
Qed.

Lemma nonneg_is_finite x : nonneg_float x -> is_finite x = true.
Proof. destruct x; simpl; try contradiction; reflexivity. Qed.

(** ** Truncation to an integer *)

Lemma py_int_nonneg z :
  nonneg_float z ->
  exists k, py_int z = inr k /\ 0 <= k /\ (IZR k <= B2R z < IZR k + 1)%R.
Proof.
  destruct z as [s | s | | s m e]; simpl nonneg_float; try contradiction.
  - intros _. exists 0. simpl. repeat split; try lia; lra.
  - intros ->. exists (Z.shiftl (Z.pos m) e). split; [reflexivity |].
    change (B2R (S754_finite false m e)) with (F2R (Z.pos m) e).
    destruct (Z_le_gt_dec 0 e) as [He | He].
    + rewrite Z.shiftl_mul_pow2 by lia.
      assert (0 < 2 ^ e) by (apply Z.pow_pos_nonneg; lia).
      split; [nia |]. rewrite (F2R_align (Z.pos m) e 0) by lia.
      rewrite Z.sub_0_r. unfold F2R. simpl bpow. lra.
    + rewrite Z.shiftl_div_pow2 by lia.
      pose proof (shift_bounds (Z.pos m) (- e) ltac:(lia) ltac:(lia)) as [Hlo Hhi].
      set (k := Z.pos m / 2 ^ (- e)) in *.
      assert (Hk : 0 <= k) by (apply Z.div_pos; [lia | apply Z.pow_pos_nonneg; lia]).
      split; [exact Hk |].
      assert (Ha : forall j, IZR j = F2R (j * 2 ^ (0 - e)) e).
      { intros j. rewrite <- (F2R_align j 0 e) by lia. unfold F2R. simpl. lra. }
      replace (IZR k + 1)%R with (IZR (k + 1)) by (rewrite plus_IZR; lra).
      rewrite (Ha k), (Ha (k + 1)). replace (0 - e) with (- e) by lia.
      split; [apply F2R_le; lia | apply F2R_lt; lia].
Qed.

Lemma py_int_ge z W :
  nonneg_float z -> (IZR W <= B2R z)%R ->
  exists k, py_int z = inr k /\ W <= k.
Proof.
  intros Hn HW. destruct (py_int_nonneg z Hn) as [k [Hk [_ [_ Hhi]]]].
  exists k. split; [exact Hk |].
  assert (IZR W < IZR (k + 1))%R by (rewrite plus_IZR; lra).
  apply lt_IZR in H. lia.
Qed.

Lemma py_int_le z W :
  nonneg_float z -> (B2R z <= IZR W)%R ->
  exists k, py_int z = inr k /\ 0 <= k <= W.
Proof.
  intros Hn HW. destruct (py_int_nonneg z Hn) as [k [Hk [Hk0 [Hlo _]]]].
  exists k. split; [exact Hk |]. split; [exact Hk0 |].
  apply le_IZR. lra.
Qed.

(** ** Shapes of slices and of slice assignments *)

Lemma norm_index_le len i : (norm_index len i <= len)%nat.
Proof. unfold norm_index. destruct (Z.ltb_spec i 0); lia. Qed.

Lemma slice_in_bounds len start stop :
  (slice_lo len start + slice_len len start stop <= len)%nat.
Proof.
  unfold slice_len, slice_lo, slice_hi.
  destruct start as [i |], stop as [j |];
    try pose proof (norm_index_le len i); try pose proof (norm_index_le len j); lia.
Qed.

Lemma length_py_slice {A : Type} start stop (l : list A) :
  length (py_slice start stop l) = slice_len (length l) start stop.
Proof.
  unfold py_slice. rewrite length_firstn, length_skipn.
  pose proof (slice_in_bounds (length l) start stop). lia.
Qed.

Lemma getitem_height im r0 r1 c0 c1 :
  img_height (getitem im r0 r1 c0 c1) = slice_len (img_height im) r0 r1.
Proof. unfold img_height, getitem; simpl. now rewrite length_map, length_py_slice. Qed.

Lemma getitem_width im r0 r1 c0 c1 :
  img_width (getitem im r0 r1 c0 c1) = slice_len (img_width im) c0 c1.
Proof. reflexivity. Qed.

Lemma Forall_firstn_skipn {A : Type} (P : A -> Prop) n (l : list A) :
  Forall P l -> Forall P (firstn n l) /\ Forall P (skipn n l).
Proof.
  intros H. rewrite <- (firstn_skipn n l) in H. now apply Forall_app in H.
Qed.

Lemma Forall_py_slice {A : Type} (P : A -> Prop) start stop (l : list A) :
  Forall P l -> Forall P (py_slice start stop l).
Proof.
  intros H. unfold py_slice.
  apply Forall_firstn_skipn. now apply Forall_firstn_skipn.
Qed.

Lemma getitem_wf im r0 r1 c0 c1 : wf_image im -> wf_image (getitem im r0 r1 c0 c1).
Proof.
  unfold wf_image, getitem; simpl. intros Hwf.
  apply Forall_map. apply Forall_py_slice.
  apply Forall_impl with (2 := Hwf). intros r Hr.
  now rewrite length_py_slice, Hr.
Qed.

Lemma length_broadcast {A : Type} n (l : list A) :
  broadcastable (length l) n = true -> length (broadcast n l) = n.
Proof.
  unfold broadcastable, broadcast. intros H. apply orb_prop in H.
  destruct l as [| x [| y t]].
  - destruct H as [H | H]; [apply Nat.eqb_eq in H; simpl in *; lia | discriminate].
  - now rewrite repeat_length.
  - destruct H as [H | H]; [apply Nat.eqb_eq in H; simpl in *; lia | discriminate].
Qed.

Lemma Forall_broadcast {A : Type} (P : A -> Prop) n (l : list A) :
  Forall P l -> Forall P (broadcast n l).
Proof.
  intros H. unfold broadcast. destruct l as [| x [| y t]]; try assumption.
  inversion H; subst. apply Forall_forall. intros z Hz.
  apply repeat_spec in Hz. now subst.
Qed.

Lemma length_zip_with {A B C : Type} (f : A -> B -> C) l l' :
  length (zip_with f l l') = Nat.min (length l) (length l').
Proof.
  revert l'. induction l as [| a t IH]; intros [| b t']; simpl; auto.
Qed.

Lemma Forall_zip_with {A B C : Type} (f : A -> B -> C)
      (P : A -> Prop) (Q : B -> Prop) (R : C -> Prop) :
  (forall a b, P a -> Q b -> R (f a b)) ->
  forall l l', Forall P l -> Forall Q l' -> Forall R (zip_with f l l').
Proof.
  intros Hf l. induction l as [| a t IH]; intros [| b t'] HP HQ; simpl;
    try constructor.
  - inversion HP; inversion HQ; subst. now apply Hf.
  - inversion HP; inversion HQ; subst. now apply IH.
Qed.

Lemma length_splice {A : Type} lo (new l : list A) :
  (lo + length new <= length l)%nat -> length (splice lo new l) = length l.
Proof.
  intros H. unfold splice. rewrite !length_app, length_firstn, length_skipn. lia.
Qed.

Lemma Forall_splice {A : Type} (P : A -> Prop) lo (new l : list A) :
  Forall P new -> Forall P l -> Forall P (splice lo new l).
Proof.
  intros Hn Hl. unfold splice. rewrite !Forall_app. repeat split; try assumption;
    now apply Forall_firstn_skipn.
Qed.

(** A slice assignment keeps the shape of the array assigned to. *)
Lemma setitem_shape dst r0 r1 c0 c1 src r :
  setitem dst r0 r1 c0 c1 src = inr r ->
  img_height r = img_height dst /\ img_width r = img_width dst /\
  (wf_image dst -> wf_image src -> wf_image r).
Proof.
  unfold setitem.
  set (rlo := slice_lo (img_height dst) r0).
  set (th := slice_len (img_height dst) r0 r1).
  set (clo := slice_lo (img_width dst) c0).
  set (tw := slice_len (img_width dst) c0 c1).
  destruct (broadcastable (img_height src) th && broadcastable (img_width src) tw)
    eqn:Hb; [| discriminate].
  apply andb_prop in Hb as [Hbh Hbw]. intros H. injection H as <-.
  pose proof (slice_in_bounds (img_height dst) r0 r1) as Hr. fold rlo th in Hr.
  pose proof (slice_in_bounds (img_width dst) c0 c1) as Hc. fold clo tw in Hc.
  set (src_rows := map (broadcast tw) (broadcast th (img_rows src))).
  set (old := firstn th (skipn rlo (img_rows dst))).
  assert (Hold : length old = th).
  { unfold old. rewrite length_firstn, length_skipn. unfold img_height in Hr. lia. }
  assert (Hsrc : length src_rows = th).
  { unfold src_rows. rewrite length_map. now apply length_broadcast. }
  assert (Hnew : length (zip_with (fun d s => splice clo s d) old src_rows) = th).
  { rewrite length_zip_with. lia. }
  split; [| split].
  - unfold img_height; simpl. apply length_splice. rewrite Hnew.
    unfold img_height in Hr. exact Hr.
  - reflexivity.
  - intros Hwd Hws. unfold wf_image in *; simpl.
    apply Forall_splice; [| exact Hwd].
    apply Forall_zip_with with (P := fun d => length d = img_width dst)
                               (Q := fun s => length s = tw).
    + intros d s Hd Hs. rewrite length_splice; [exact Hd | lia].
    + unfold old. apply Forall_firstn_skipn. now apply Forall_firstn_skipn.
    + unfold src_rows. apply Forall_map. apply Forall_broadcast.
      apply Forall_impl with (2 := Hws). intros s Hs.
      apply length_broadcast. now rewrite Hs.
Qed.

Lemma zeros_like_shape im :
  img_height (zeros_like im) = img_height im /\
  img_width (zeros_like im) = img_width im /\
  (wf_image im -> wf_image (zeros_like im)).
Proof.
  unfold zeros_like, img_height, wf_image; simpl. rewrite length_map.
  repeat split. intros H. apply Forall_map. apply Forall_impl with (2 := H).
  intros r Hr. now rewrite length_map.
Qed.

Lemma addWeighted_shape src1 alpha src2 beta gamma r :
  addWeighted src1 alpha src2 beta gamma = inr r ->
  img_height r = img_height src1 /\ img_width r = img_width src1 /\
  (wf_image src1 -> wf_image src2 -> wf_image r).
Proof.
  unfold addWeighted, same_shape.
  destruct (Nat.eqb_spec (img_height src1) (img_height src2)) as [Hh | _];
    [| discriminate].
  destruct (Nat.eqb_spec (img_width src1) (img_width src2)) as [Hw | _];
    [| discriminate].
  simpl. intros H. injection H as <-. unfold img_height in *; simpl.
  split; [rewrite length_zip_with; lia |]. split; [reflexivity |].
  intros H1 H2. unfold wf_image in *; simpl.
  apply Forall_zip_with with (P := fun a => length a = img_width src1)
                             (Q := fun b => length b = img_width src2);
    try assumption.
  intros a b Ha Hb. rewrite length_zip_with. lia.
Qed.

Lemma setitem_keeps dst r0 r1 c0 c1 src r :
  setitem dst r0 r1 c0 c1 src = inr r -> wf_image dst -> wf_image src ->
  shape r = shape dst /\ wf_image r.
Proof.
  intros H Hd Hs. apply setitem_shape in H as [Hh [Hw Hwf]].
  unfold shape. rewrite Hh, Hw. split; [reflexivity | now apply Hwf].
Qed.

Lemma fade_shape prev_frame next_frame progress r :
  fade prev_frame next_frame progress = inr r ->
  wf_image prev_frame -> wf_image next_frame ->
  shape r = shape prev_frame /\ wf_image r.
Proof.
  unfold fade. intros H Hp Hn. apply addWeighted_shape in H as [Hh [Hw Hwf]].
  unfold shape. rewrite Hh, Hw. split; [reflexivity | now apply Hwf].
Qed.

Lemma zoom_shape E prev_frame next_frame fg bg zf progress r :
  resize_ok E ->
  zoom E prev_frame next_frame fg bg zf progress = inr r ->
  wf_image prev_frame -> wf_image next_frame -> wf_image bg ->
  shape bg = shape prev_frame ->
  shape r = shape prev_frame /\ wf_image r.
Proof.
  intros HE H Hp Hn Hb Hsb. unfold zoom in H.
  destruct (shape prev_frame) as [h w] eqn:Hs.
  destruct (py_int (fmul (of_int w) (if flt zf (ratio 1 10) then ratio 1 10 else zf)))
    as [e | sw]; [discriminate |].
  destruct (py_int (fmul (of_int h) (if flt zf (ratio 1 10) then ratio 1 10 else zf)))
    as [e | sh]; [discriminate |].
  cbn [ebind] in H.
  destruct (cv2_resize E fg (Z.max sw 10) (Z.max sh 10)) as [e | scaled] eqn:Hr;
    [discriminate |].
  cbn [ebind] in H. apply HE in Hr as [_ Hws].
  match type of H with
  | match ?s with _ => _ end = _ => destruct s as [[] | r'] eqn:Hset
  end; try discriminate.
  - apply fade_shape in H; try assumption. now rewrite Hs in H.
  - injection H as <-. apply setitem_keeps in Hset; try assumption.
    + now rewrite Hsb in Hset.
    + now apply getitem_wf.
Qed.

(** A transition returns a frame of the resolution of its two inputs. *)
Lemma apply_transition_shape E prev_frame next_frame kind progress r :
  resize_ok E ->
  shape prev_frame = shape next_frame ->
  wf_image prev_frame -> wf_image next_frame ->
  apply_transition E prev_frame next_frame kind progress = inr r ->
  shape r = shape prev_frame /\ wf_image r.
Proof.
  intros HE Hs Hp Hn H. unfold apply_transition in H.
  destruct (shape prev_frame) as [h w] eqn:Hsp.
  assert (Hset : forall dst r0 r1 c0 c1 src r,
             setitem dst r0 r1 c0 c1 src = inr r -> wf_image dst -> wf_image src ->
             shape dst = (h, w) -> shape r = (h, w) /\ wf_image r).
  { intros dst r0 r1 c0 c1 src r' H' Hd Hsrc Hsd.
    apply setitem_keeps in H'; try assumption. now rewrite Hsd in H'. }
  assert (Hz : shape (zeros_like prev_frame) = (h, w) /\ wf_image (zeros_like prev_frame)).
  { destruct (zeros_like_shape prev_frame) as [Hh [Hw Hwf]].
    unfold shape in *. rewrite Hh, Hw. split; [exact Hsp | now apply Hwf]. }
  destruct Hz as [Hzs Hzw].
  repeat match type of H with
         | (if ?k =? ?c then _ else _) = _ => destruct (k =? c)
         end.
  - apply fade_shape in H; try assumption. now rewrite Hsp in H.
  - destruct (py_int (fmul (of_int w) progress)) as [e | cut]; [discriminate |].
    cbn [ebind] in H. eapply Hset; eauto using getitem_wf.
  - destruct (py_int (fmul (of_int w) (fsub (of_int 1) progress))) as [e | cut];
      [discriminate |].
    cbn [ebind] in H. eapply Hset; eauto using getitem_wf.
  - destruct (py_int (fmul (of_int h) progress)) as [e | cut]; [discriminate |].
    cbn [ebind] in H. eapply Hset; eauto using getitem_wf.
  - destruct (py_int (fmul (of_int h) (fsub (of_int 1) progress))) as [e | cut];
      [discriminate |].
    cbn [ebind] in H. eapply Hset; eauto using getitem_wf.
  - apply zoom_shape in H; try assumption; [now rewrite Hsp in H | reflexivity].
  - apply zoom_shape in H; try assumption; [now rewrite Hsp in H |].
    rewrite Hsp. now symmetry.
  - destruct (py_int (fmul (of_int w) progress)) as [e | offset]; [discriminate |].
    cbn [ebind] in H.
    match type of H with
    | ebind ?c _ = _ => destruct c as [e | r1] eqn:H1
    end; [discriminate |]. cbn [ebind] in H.
    assert (Hr1 : shape r1 = (h, w) /\ wf_image r1).
    { destruct (offset <? w).
      - eapply Hset; eauto using getitem_wf.
      - injection H1 as <-. now split. }
    destruct Hr1 as [Hr1s Hr1w].
    destruct (0 <? offset).
    + eapply Hset; eauto using getitem_wf.
    + injection H as <-. now split.
  - destruct (py_int (fmul (of_int w) progress)) as [e | offset]; [discriminate |].
    cbn [ebind] in H.
    match type of H with
    | ebind ?c _ = _ => destruct c as [e | r1] eqn:H1
    end; [discriminate |]. cbn [ebind] in H.
    assert (Hr1 : shape r1 = (h, w) /\ wf_image r1).
    { destruct (offset <? w).
      - eapply Hset; eauto using getitem_wf.
      - injection H1 as <-. now split. }
    destruct Hr1 as [Hr1s Hr1w].
    destruct (0 <? offset).
    + eapply Hset; eauto using getitem_wf.
    + injection H as <-. now split.
  - apply fade_shape in H; try assumption. now rewrite Hsp in H.
Qed.

(** ** The image normaliser *)

Lemma valid_nonneg_finite z : nonneg_float z -> z <> S754_infinity false.
Proof. intros H ->. exact H. Qed.

(** The ratio of two image dimensions. *)
Lemma truediv_dims a b :
  0 < a < 2 ^ 53 -> 0 < b < 2 ^ 53 ->
  exists q, truediv a b = inr q /\ valid q = true /\ nonneg_float q /\
            (forall c, valid c = true -> nonneg_float c ->
                       (B2R c * IZR b <= IZR a)%R -> (B2R c <= B2R q)%R) /\
            (forall c, valid c = true -> nonneg_float c ->
                       (IZR a <= B2R c * IZR b)%R -> (B2R q <= B2R c)%R).
Proof.
  intros Ha Hb. unfold truediv. destruct (Z.eqb_spec b 0); [lia |].
  destruct (of_int_exact a Ha) as [Hva [Hpa HBa]].
  destruct (of_int_exact b Hb) as [Hvb [Hpb HBb]].
  eexists. split; [reflexivity |].
  assert (Hq : valid (fdiv (of_int a) (of_int b)) = true /\
               nonneg_float (fdiv (of_int a) (of_int b))).
  { destruct (fdiv_RU (of_int a) (of_int b) (of_int a)) as [H1 [H2 _]];
      auto using positive_nonneg.
    rewrite HBa, HBb. assert (1 <= IZR b)%R by (apply IZR_le; lia).
    assert (0 < IZR a)%R by (apply IZR_lt; lia). nra. }
  destruct Hq as [Hvq Hnq]. split; [exact Hvq |]. split; [exact Hnq |]. split.
  - intros c Hvc Hnc Hle.
    destruct (fdiv_RD (of_int a) (of_int b) c) as [Hinf | [_ [_ H]]];
      auto using positive_nonneg.
    + now rewrite HBa, HBb.
    + rewrite Hinf in Hnq. contradiction.
  - intros c Hvc Hnc Hle.
    destruct (fdiv_RU (of_int a) (of_int b) c) as [_ [_ H]];
      auto using positive_nonneg.
    now rewrite HBa, HBb.
Qed.

(** Two non-negative floats that denote the same number are both zeros or
    are the same float. *)
Lemma nonneg_B2R_inj x y :
  valid x = true -> valid y = true -> nonneg_float x -> nonneg_float y ->
  B2R x = B2R y -> (is_zero x = true /\ is_zero y = true) \/ x = y.
Proof.
  intros Hvx Hvy Hnx Hny Heq.
  destruct x as [sx | sx | | sx mx ex]; simpl in Hnx; try contradiction;
    destruct y as [sy | sy | | sy my ey]; simpl in Hny; try contradiction;
    subst.
  - left. split; reflexivity.
  - exfalso. rewrite B2R_finite in Heq. pose proof (F2R_pos my ey). simpl in Heq. lra.
  - exfalso. rewrite B2R_finite in Heq. pose proof (F2R_pos mx ex). simpl in Heq. lra.
  - right. destruct (valid_grid _ _ _ Hvx) as [Hgx _].
    destruct (valid_grid _ _ _ Hvy) as [Hgy _].
    pose proof (grid_compare mx ex my ey Hgx Hgy) as Hc.
    rewrite !B2R_finite in Heq.
    destruct (Z.compare_spec ex ey) as [He | He | He]; simpl in Hc; try lra.
    change (Pos.compare_cont Eq mx my) with (mx ?= my)%positive in Hc.
    destruct (Pos.compare_spec mx my) as [Hm | Hm | Hm]; simpl in Hc; try lra.
    now subst.
Qed.

Lemma fsub_same_number x y :
  valid x = true -> valid y = true -> nonneg_float x -> nonneg_float y ->
  B2R x = B2R y -> is_zero (fsub x y) = true.
Proof.
  intros Hvx Hvy Hnx Hny Heq.
  destruct (nonneg_B2R_inj x y Hvx Hvy Hnx Hny Heq) as [[Hx Hy] | <-].
  - destruct x as [[|] | | |]; try discriminate; destruct y as [[|] | | |]; try discriminate;
      reflexivity.
  - destruct x as [[|] | sx | | sx mx ex]; simpl in Hnx; try contradiction;
      try reflexivity.
    subst sx. unfold fsub, SFsub. rewrite Z.min_id.
    unfold shl_align. rewrite Z.sub_diag. cbn [fst cond_Zopp].
    rewrite ?Z.sub_diag. reflexivity.
Qed.

Lemma close_ratio_zero z :
  is_zero z = true -> flt (fabs z) (ratio 1 100) = true.
Proof. destruct z as [[|] | | |]; try discriminate; intros _; vm_compute; reflexivity. Qed.

Lemma norm_index_id len a :
  0 <= a <= Z.of_nat len -> norm_index len a = Z.to_nat a.
Proof.
  intros Ha. unfold norm_index. destruct (Z.ltb_spec a 0); [lia |]. f_equal. lia.
Qed.

Lemma slice_len_window len a n :
  0 <= a -> 0 <= n -> a + n <= Z.of_nat len ->
  slice_len len (Some a) (Some (a + n)) = Z.to_nat n.
Proof.
  intros Ha Hn Hlen. unfold slice_len, slice_hi, slice_lo.
  rewrite !norm_index_id by lia. lia.
Qed.

Lemma slice_len_all len : slice_len len None None = len.
Proof. unfold slice_len, slice_hi, slice_lo. lia. Qed.

(** The centre crop of [resize_image]: a window of [n] out of [m >= n]. *)
Lemma centre_crop len m n :
  Z.of_nat len = m -> 0 <= n <= m ->
  Z.of_nat (slice_len len (Some ((m - n) / 2)) (Some ((m - n) / 2 + n))) = n.
Proof.
  intros Hlen Hn.
  assert (0 <= (m - n) / 2 <= m - n).
  { split; [apply Z.div_pos; lia |]. apply Z.div_le_upper_bound; lia. }
  rewrite slice_len_window by lia. lia.
Qed.

(** [resize_image] returns a frame of exactly the target size, in its three
    branches; it raises when the target height is 0. *)
Lemma resize_image_shape E image width height r :
  resize_ok E ->
  0 < Z.of_nat (img_height image) < 2 ^ 53 ->
  0 < Z.of_nat (img_width image) < 2 ^ 53 ->
  0 < width < 2 ^ 53 -> 0 <= height < 2 ^ 53 ->
  resize_image E image width height = inr r ->
  shape r = (height, width) /\ wf_image r.
Proof.
  intros HE Hh Hw Hwidth Hheight H. unfold resize_image, shape at 1 in H.
  set (h := Z.of_nat (img_height image)) in *.
  set (w := Z.of_nat (img_width image)) in *.
  destruct (truediv_dims w h Hw Hh) as [cr [Hcr [Hvcr [Hncr [Hcr_lo Hcr_up]]]]].
  rewrite Hcr in H. cbn [ebind] in H.
  destruct (Z.eq_dec height 0) as [-> | Hh0].
  { unfold truediv in H. simpl in H. discriminate. }
  destruct (truediv_dims width height Hwidth ltac:(lia))
    as [tr [Htr [Hvtr [Hntr [Htr_lo Htr_up]]]]].
  rewrite Htr in H. cbn [ebind] in H.
  destruct (of_int_exact width Hwidth) as [Hvw [Hpw HBw]].
  destruct (of_int_exact height ltac:(lia)) as [Hvh [Hph HBh]].
  pose proof (nonneg_float_B2R cr Hncr) as Hcr0.
  destruct (flt (fabs (fsub cr tr)) (ratio 1 100)) eqn:Hclose.
  { exact (HE _ _ _ _ H). }
  assert (Hne : B2R cr <> B2R tr).
  { intros Heq. rewrite (close_ratio_zero _ (fsub_same_number cr tr Hvcr Hvtr Hncr Hntr Heq))
      in Hclose. discriminate. }
  destruct (flt tr cr) eqn:Hwider.
  - (* the image is wider: crop the columns *)
    apply flt_spec in Hwider; auto using nonneg_is_finite.
    assert (Hexact : (IZR width <= IZR height * B2R cr)%R).
    { destruct (Rle_lt_dec (IZR width) (IZR height * B2R cr)) as [| Hlt]; [assumption |].
      exfalso. assert (B2R cr <= B2R tr)%R by (apply Htr_lo; auto; lra). lra. }
    destruct (fmul_RD (of_int height) cr (of_int width)) as [Hinf | [Hvm [Hnm Hle]]];
      auto using positive_nonneg.
    { now rewrite HBw, HBh. }
    { rewrite Hinf in H. discriminate. }
    rewrite HBw in Hle.
    destruct (py_int_ge _ width Hnm Hle) as [new_w [Hnw Hge]].
    rewrite Hnw in H. cbn [ebind] in H.
    destruct (cv2_resize E image new_w height) as [e | resized] eqn:Hres; [discriminate |].
    cbn [ebind] in H. injection H as <-.
    apply HE in Hres as [Hshape Hwf]. unfold shape in Hshape.
    injection Hshape as Hrh Hrw.
    split; [| now apply getitem_wf].
    unfold shape. rewrite getitem_height, getitem_width, slice_len_all, Hrh.
    f_equal. apply centre_crop; [exact Hrw | lia].
  - (* the image is taller: crop the rows *)
    assert (Hle : (B2R cr <= B2R tr)%R).
    { destruct (Rle_lt_dec (B2R cr) (B2R tr)) as [| Hlt]; [assumption |].
      apply flt_spec in Hlt; auto using nonneg_is_finite. congruence. }
    destruct (is_zero cr) eqn:Hzero; [discriminate |]. cbn [ebind] in H.
    assert (Hpcr : positive_float cr).
    { destruct cr as [s | s | | [|] m e]; simpl in *; try discriminate;
        try contradiction; auto. }
    assert (Hexact : (IZR height * B2R cr <= IZR width)%R).
    { destruct (Rle_lt_dec (IZR height * B2R cr) (IZR width)) as [| Hlt]; [assumption |].
      exfalso. assert (B2R tr <= B2R cr)%R by (apply Htr_up; auto; lra). lra. }
    destruct (fdiv_RD (of_int width) cr (of_int height)) as [Hinf | [Hvm [Hnm Hge]]];
      auto using positive_nonneg.
    { now rewrite HBw, HBh. }
    { rewrite Hinf in H. discriminate. }
    rewrite HBh in Hge.
    destruct (py_int_ge _ height Hnm Hge) as [new_h [Hnh Hge']].
    rewrite Hnh in H. cbn [ebind] in H.
    destruct (cv2_resize E image width new_h) as [e | resized] eqn:Hres; [discriminate |].
    cbn [ebind] in H. injection H as <-.
    apply HE in Hres as [Hshape Hwf]. unfold shape in Hshape.
    injection Hshape as Hrh Hrw.
    split; [| now apply getitem_wf].
    unfold shape. rewrite getitem_height, getitem_width, slice_len_all, Hrw.
    f_equal. apply centre_crop; [exact Hrh | lia].
Qed.

(** ** The canvas *)

Lemma canvas_inv_print th tw ev : preserves (canvas_inv th tw) (print ev).
Proof. intros st Hst. exact Hst. Qed.

Lemma canvas_inv_write th tw frame st :
  on_canvas th tw frame -> canvas_inv th tw st ->
  canvas_inv th tw (snd (out_write frame st)).
Proof.
  intros Hf [Hw Hp]. split; simpl; [| exact Hp].
  apply Forall_app. split; [exact Hw | now constructor].
Qed.

Lemma display_loop_canvas th tw iters total curr_img :
  on_canvas th tw curr_img ->
  preserves (canvas_inv th tw) (display_loop iters total curr_img).
Proof.
  intros Hc. induction iters as [| j rest IH]; simpl.
  - apply preserves_ret.
  - apply preserves_bind; [| intros _; exact IH].
    intros st Hst. unfold bind, get_frame_count; simpl.
    destruct (frame_count st <? total); simpl; [| exact Hst].
    now apply canvas_inv_write.
Qed.

Lemma transition_loop_canvas E th tw iters tf total kind curr_img :
  resize_ok E -> on_canvas th tw curr_img ->
  preserves (canvas_inv th tw) (transition_loop E iters tf total kind curr_img).
Proof.
  intros HE [Hcs Hcw]. induction iters as [| j rest IH]; simpl.
  - apply preserves_ret.
  - apply preserves_bind; [| intros _; exact IH].
    intros st Hst. unfold bind, get_frame_count, lift, get_prev_image; simpl.
    destruct (frame_count st <? total); simpl; [| exact Hst].
    destruct (truediv j tf) as [e | progress]; simpl; [exact Hst |].
    destruct (prev_image st) as [p |] eqn:Hprev; simpl; [| exact Hst].
    destruct (apply_transition E p curr_img kind progress) as [e | frame] eqn:Hat;
      simpl; [exact Hst |].
    apply canvas_inv_write; [| exact Hst].
    destruct Hst as [_ Hp]. destruct (Hp p Hprev) as [Hps Hpw].
    apply apply_transition_shape in Hat; try assumption; [| congruence].
    destruct Hat as [Hfs Hfw]. split; [congruence | exact Hfw].
Qed.

Lemma process_image_canvas E cfg fixed idur tw th total i img_path :
  resize_ok E -> decoder_ok E ->
  0 < tw < 2 ^ 53 -> 0 <= th < 2 ^ 53 ->
  preserves (canvas_inv th tw)
            (process_image E cfg fixed idur tw th total i img_path).
Proof.
  intros HE HD Htw Hth. unfold process_image.
  destruct (imread E img_path) as [raw |] eqn:Hread; [| apply canvas_inv_print].
  destruct (HD _ _ Hread) as [Hwf [Hh Hw]].
  apply preserves_bind_lift. intros curr Hcurr.
  assert (Hc : on_canvas th tw curr).
  { apply resize_image_shape in Hcurr; try assumption; lia. }
  apply preserves_bind.
  - apply preserves_if.
    + apply preserves_bind; [apply preserves_lift | intros fpi].
      now apply display_loop_canvas.
    + apply preserves_bind.
      * destruct fixed; [apply preserves_ret |]. intros st Hst. exact Hst.
      * intros kind. apply preserves_bind; [apply preserves_lift | intros tf].
        apply preserves_bind; [now apply transition_loop_canvas | intros _].
        apply preserves_bind; [apply preserves_lift | intros fpi].
        now apply display_loop_canvas.
  - intros _. apply preserves_bind.
    { intros st [Hw' _]. split; simpl; [exact Hw' |].
      intros p Hp. injection Hp as <-. exact Hc. }
    intros _. apply preserves_bind; [intros st Hst; exact Hst | intros fc].
    apply preserves_bind; [apply preserves_lift | intros q].
    apply preserves_bind; [apply preserves_lift | intros pct].
    apply canvas_inv_print.
Qed.

Lemma process_images_canvas E cfg fixed idur tw th total files :
  resize_ok E -> decoder_ok E ->
  0 < tw < 2 ^ 53 -> 0 <= th < 2 ^ 53 ->
  forall i, preserves (canvas_inv th tw)
                      (process_images E cfg fixed idur tw th total i files).
Proof.
  intros HE HD Htw Hth. induction files as [| f rest IH]; intros i; simpl.
  - apply preserves_ret.
  - apply preserves_bind; [now apply process_image_canvas | intros _; apply IH].
Qed.

(** The target height computed from a width below 2^31. *)
Lemma canvas_height_bounds w th :
  0 < w < 2 ^ 31 -> canvas_height w = inr th -> 0 <= th < 2 ^ 53.
Proof.
  intros Hw H. unfold canvas_height in H.
  destruct (truediv_dims (w * 9) 16 ltac:(lia) ltac:(lia))
    as [q [Hq [Hvq [Hnq [_ Hup]]]]].
  rewrite Hq in H. cbn [ebind] in H.
  destruct (of_int_exact (w * 9) ltac:(lia)) as [Hv [Hp HB]].
  assert (Hle : (B2R q <= IZR (w * 9))%R).
  { rewrite <- HB. apply Hup; auto using positive_nonneg. rewrite HB.
    assert (0 < IZR (w * 9))%R by (apply IZR_lt; lia). lra. }
  destruct (py_int_le q (w * 9) Hnq Hle) as [k [Hk Hk9]].
  rewrite Hk in H. injection H as <-. lia.
Qed.

(** C9. The canvas is derived from the first image, [(w, int(w * 9 / 16))]
    for its width [w], before any frame is written (a run whose first image
    cannot be read writes none), and every frame written to the sink, a
    display copy or a transition frame, is rectangular with exactly that
    height and width.  [resize_image] returns a frame of exactly the target
    size whenever it returns, in its direct-resize branch and in its two
    resize-then-centre-crop branches. *)
Theorem canvas_resolution_fixed E image_files cfg :
  resize_ok E -> decoder_ok E ->
  (forall frame,
      In frame (written (snd (create_slideshow E image_files cfg initial))) ->
      exists first_path rest first_image target_h,
        image_files = first_path :: rest /\
        imread E first_path = Some first_image /\
        canvas_height (Z.of_nat (img_width first_image)) = inr target_h /\
        shape frame = (target_h, Z.of_nat (img_width first_image)) /\
        wf_image frame) /\
  (forall image width height r,
      0 < Z.of_nat (img_height image) < 2 ^ 53 ->
      0 < Z.of_nat (img_width image) < 2 ^ 53 ->
      0 < width < 2 ^ 53 -> 0 <= height < 2 ^ 53 ->
      resize_image E image width height = inr r ->
      shape r = (height, width) /\ wf_image r).
Proof.
  intros HE HD. split.
  2: { intros image width height r Hh Hw Hwidth Hheight H.
       now apply (resize_image_shape E image width height r). }
  set (I := fun st : builder =>
              (written st = [] /\ prev_image st = None) \/
              exists first_path rest first_image target_h,
                image_files = first_path :: rest /\
                imread E first_path = Some first_image /\
                canvas_height (Z.of_nat (img_width first_image)) = inr target_h /\
                canvas_inv target_h (Z.of_nat (img_width first_image)) st).
  assert (Hpres : preserves I (create_slideshow E image_files cfg)).
  { apply create_slideshow_preserves.
    - intros ev st [[Hw Hp] | [fp [rest [fi [th [H1 [H2 [H3 H4]]]]]]]].
      + left. now split.
      + right. exists fp, rest, fi, th.
        split; [exact H1 |]. split; [exact H2 |]. split; [exact H3 |]. exact H4.
    - intros fixed idur total fp rest fi th Hfiles Hread Hth Htotal st Hst.
      change (snd (shape fi)) with (Z.of_nat (img_width fi)) in *.
      destruct (HD _ _ Hread) as [Hwf [Hh Hw]].
      pose proof (canvas_height_bounds (Z.of_nat (img_width fi)) th Hw Hth) as Hthb.
      right. exists fp, rest, fi, th.
      split; [exact Hfiles |]. split; [exact Hread |]. split; [exact Hth |].
      apply (process_images_canvas E cfg fixed idur (Z.of_nat (img_width fi)) th
               total image_files HE HD ltac:(lia) Hthb 0 st).
      destruct Hst as [[Hw0 Hp0] | [fp' [rest' [fi' [th' [H1 [H2 [H3 H4]]]]]]]].
      + split; [rewrite Hw0; constructor | intros p Hp; congruence].
      + rewrite Hfiles in H1. injection H1 as <- <-. rewrite Hread in H2.
        injection H2 as <-. rewrite Hth in H3. injection H3 as <-. exact H4. }
  intros frame Hin.
  destruct (Hpres initial ltac:(left; split; reflexivity))
    as [[Hw _] | [fp [rest [fi [th [H1 [H2 [H3 [H4 _]]]]]]]]].
  - rewrite Hw in Hin. contradiction.
  - exists fp, rest, fi, th.
    split; [exact H1 |]. split; [exact H2 |]. split; [exact H3 |].
    rewrite Forall_forall in H4. exact (H4 frame Hin).
Qed.

(** ** Signs of results *)

Lemma round_aux_has_sign s m e l : has_sign s (binary_round_aux prec emax s m e l).
Proof.
  unfold binary_round_aux.
  destruct (shr_fexp prec emax m e l) as [mrs' e'].
  destruct (shr_fexp prec emax _ e' loc_Exact) as [mrs'' e''].
  destruct (shr_m mrs''); try reflexivity; try exact I.
  destruct (e'' <=? emax - prec); reflexivity.
Qed.

Lemma binary_round_has_sign s m e : has_sign s (binary_round prec emax s m e).
Proof.
  unfold binary_round. destruct (shl_align m e _) as [mz ez].
  apply round_aux_has_sign.
Qed.

Lemma has_sign_nonneg x : has_sign false x -> sign_nonneg x.
Proof. destruct x; simpl; auto. Qed.

Lemma of_int_sign_nonneg n : 0 <= n -> sign_nonneg (of_int n).
Proof.
  intros Hn. destruct n as [| p | p]; [exact I | | lia].
  apply has_sign_nonneg. apply binary_round_has_sign.
Qed.

Lemma fmul_sign_nonneg x y : sign_nonneg x -> sign_nonneg y -> sign_nonneg (fmul x y).
Proof.
  intros Hx Hy.
  destruct x as [sx | sx | | sx mx ex], y as [sy | sy | | sy my ey];
    simpl in *; subst; auto.
  apply has_sign_nonneg. apply round_aux_has_sign.
Qed.

(** A positive mantissa at an exponent of the format does not round to zero. *)
Lemma binary_round_nonzero s m e :
  -1074 <= e ->
  exists r, binary_round prec emax s m e = r /\
            (r = S754_infinity s \/
             exists mf ef, r = S754_finite s mf ef /\ valid r = true).
Proof.
  intros He. eexists. split; [reflexivity |].
  unfold binary_round.
  destruct (shl_align_spec m e (fexp prec emax (Z.pos (digits2_pos m) + e))) as [Hez Hmz].
  destruct (shl_align m e _) as [mz ez]. cbn [fst snd] in Hez, Hmz.
  change (Z.pos (digits2_pos m)) with (Zdigits2 (Z.pos m)) in *.
  set (E := fexp prec emax (Zdigits2 (Z.pos m) + e)) in *.
  assert (Hdig : Zdigits2 (Z.pos mz) + ez = Zdigits2 (Z.pos m) + e).
  { rewrite Hmz, Zdigits2_mul_pow2 by lia. lia. }
  assert (Hpre : ez <= fexp prec emax (Zdigits2 (Z.pos mz) + ez)).
  { rewrite Hdig. fold E. lia. }
  destruct (round_aux_finish s (Z.pos mz) ez loc_Exact ltac:(lia) Hpre) as [l' [_ Heq]].
  pose proof (grid_of_shift (Z.pos mz) ez ltac:(lia) Hpre) as Hg.
  rewrite Heq. rewrite Hdig in *. fold E in Hg |- *.
  set (m' := Z.pos mz / 2 ^ (E - ez)) in *.
  assert (Hm' : 0 < m').
  { destruct Hg as [_ [_ [HE | Hbig]]].
    - unfold m'. replace (E - ez) with 0 by (unfold E in *; rewrite fexp_eq in *; lia).
      rewrite Z.pow_0_r, Z.div_1_r. lia.
    - assert (0 < 2 ^ 52) by reflexivity. lia. }
  pose proof (round_nearest_even_bounds m' l') as Hb.
  destruct (finish_cases s m' (round_nearest_even m' l') E Hg ltac:(lia))
    as [[H0 _] | [[_ [mf [ef [Hf [Hv _]]]]] | [_ [Hf _]]]].
  - lia.
  - right. exists mf, ef. rewrite Hf. split; [reflexivity | exact Hv].
  - left. exact Hf.
Qed.

(** ** Subtraction and the sign of the difference *)

Lemma B2R_aligned s m e ez :
  ez <= e ->
  B2R (S754_finite s m e)
  = F2R (cond_Zopp s (Z.pos (fst (shl_align m e ez)))) ez.
Proof.
  intros Hez. destruct (shl_align_spec m e ez) as [_ Hm].
  replace (Z.min e ez) with ez in Hm by lia.
  rewrite Hm. rewrite B2R_finite, (F2R_align (Z.pos m) e ez) by lia.
  destruct s; unfold cond_Zopp; [| reflexivity].
  unfold F2R. rewrite opp_IZR. ring.
Qed.

(** For finite operands, [x - y <= 0] holds exactly when [x <= y]: the
    difference of two different floats does not round to zero. *)
Lemma fsub_le_zero x y :
  valid x = true -> is_finite x = true ->
  valid y = true ->
  fle (fsub x y) (S754_zero false) = fle x y.
Proof.
  intros Hvx Hfx Hvy.
  destruct x as [sx | sx | | sx mx ex]; try discriminate;
    destruct y as [sy | sy | | sy my ey];
    try (destruct sx; destruct sy; reflexivity);
    try (destruct sx; reflexivity); try (destruct sy; reflexivity).
  destruct (valid_grid _ _ _ Hvx) as [[_ [Hex _]] _].
  destruct (valid_grid _ _ _ Hvy) as [[_ [Hey _]] _].
  pose proof (B2R_aligned sx mx ex (Z.min ex ey) ltac:(lia)) as Hx.
  pose proof (B2R_aligned sy my ey (Z.min ex ey) ltac:(lia)) as Hy.
  unfold fsub, SFsub.
  set (ez := Z.min ex ey) in *.
  set (D := cond_Zopp sx (Z.pos (fst (shl_align mx ex ez)))
            - cond_Zopp sy (Z.pos (fst (shl_align my ey ez)))) in *.
  assert (Hdiff : (B2R (S754_finite sx mx ex) - B2R (S754_finite sy my ey))%R = F2R D ez).
  { rewrite Hx, Hy. unfold D, F2R. rewrite minus_IZR. ring. }
  assert (Hspec : fle (S754_finite sx mx ex) (S754_finite sy my ey) = true
                  <-> D <= 0).
  { rewrite fle_spec by (auto; reflexivity). split; intros H.
    - apply (F2R_le D 0 ez). unfold F2R at 2. simpl IZR. lra.
    - apply (F2R_le D 0 ez) in H. unfold F2R at 2 in H. simpl IZR in H. lra. }
  destruct D as [| p | p] eqn:HD; unfold binary_normalize.
  - simpl. symmetry. apply Hspec. lia.
  - destruct (binary_round_nonzero false p ez ltac:(lia)) as [r [-> [-> | [mf [ef [-> _]]]]]].
    + simpl. symmetry. apply not_true_is_false. rewrite Hspec. lia.
    + simpl. symmetry. apply not_true_is_false. rewrite Hspec. lia.
  - destruct (binary_round_nonzero true p ez ltac:(lia)) as [r [-> [-> | [mf [ef [-> _]]]]]].
    + simpl. symmetry. apply Hspec. lia.
    + simpl. symmetry. apply Hspec. lia.
Qed.

(** The difference of two finite floats is a valid float or an infinity. *)
Lemma fsub_valid x y :
  valid x = true -> is_finite x = true -> valid y = true -> is_finite y = true ->
  valid (fsub x y) = true.
Proof.
  intros Hvx Hfx Hvy Hfy.
  destruct x as [sx | sx | | sx mx ex]; try discriminate;
    destruct y as [sy | sy | | sy my ey]; try discriminate;
    try (destruct sx; destruct sy; reflexivity); try assumption.
  destruct (valid_grid _ _ _ Hvx) as [[_ [Hex _]] _].
  destruct (valid_grid _ _ _ Hvy) as [[_ [Hey _]] _].
  unfold fsub, SFsub, binary_normalize.
  match goal with |- context [match ?d with _ => _ end] => destruct d as [| p | p] end.
  - reflexivity.
  - destruct (binary_round_nonzero false p (Z.min ex ey) ltac:(lia))
      as [r [-> [-> | [mf [ef [-> Hv]]]]]]; [reflexivity | exact Hv].
  - destruct (binary_round_nonzero true p (Z.min ex ey) ltac:(lia))
      as [r [-> [-> | [mf [ef [-> Hv]]]]]]; [reflexivity | exact Hv].
Qed.

(** ** Feasibility of the schedule *)

Lemma fsub_cases x y :
  valid x = true -> is_finite x = true -> valid y = true -> is_finite y = true ->
  is_zero (fsub x y) = true \/
  (exists s, fsub x y = S754_infinity s) \/
  (exists s m e, fsub x y = S754_finite s m e).
Proof.
  intros Hvx Hfx Hvy Hfy.
  destruct x as [sx | sx | | sx mx ex]; try discriminate;
    destruct y as [sy | sy | | sy my ey]; try discriminate.
  - left. destruct sx, sy; reflexivity.
  - right. right. simpl. eauto.
  - right. right. simpl. eauto.
  - destruct (valid_grid _ _ _ Hvx) as [[_ [Hex _]] _].
    destruct (valid_grid _ _ _ Hvy) as [[_ [Hey _]] _].
    unfold fsub, SFsub, binary_normalize.
    match goal with |- context [match ?d with _ => _ end] => destruct d as [| p | p] end.
    + left. reflexivity.
    + destruct (binary_round_nonzero false p (Z.min ex ey) ltac:(lia))
        as [r [-> [-> | [mf [ef [-> Hv]]]]]]; right; eauto.
    + destruct (binary_round_nonzero true p (Z.min ex ey) ltac:(lia))
        as [r [-> [-> | [mf [ef [-> Hv]]]]]]; right; eauto.
Qed.

(** The total transition time of a non-negative transition duration. *)
Lemma total_transition_time_cases cfg n :
  valid (transition_duration cfg) = true -> nonneg_float (transition_duration cfg) ->
  1 <= n < 2 ^ 53 ->
  total_transition_time cfg n = S754_infinity false \/
  (valid (total_transition_time cfg n) = true /\
   nonneg_float (total_transition_time cfg n)).
Proof.
  intros Hv Hn Hrange. unfold total_transition_time.
  destruct (Z.eq_dec n 1) as [-> | Hne].
  - right. change (of_int (1 - 1)) with (S754_zero false).
    destruct (transition_duration cfg) as [s | s | | s m e]; simpl in Hn;
      try contradiction; split; reflexivity.
  - destruct (of_int_exact (n - 1) ltac:(lia)) as [Hvo [Hpo HBo]].
    assert (Hle : (B2R (S754_zero false)
                   <= B2R (of_int (n - 1)) * B2R (transition_duration cfg))%R).
    { simpl B2R at 1. pose proof (nonneg_float_B2R _ Hn).
      pose proof (positive_float_B2R _ Hpo). nra. }
    destruct (fmul_RD (of_int (n - 1)) (transition_duration cfg) (S754_zero false)
                Hvo Hv eq_refl (positive_nonneg _ Hpo) Hn I Hle)
      as [Hinf | [Hvm [Hnm _]]]; [now left | right; now split].
Qed.



(** ** The schedule, in the words of the specification *)

Lemma py_int_floor x :
  sign_nonneg x ->
  match py_int x, floor x with
  | inr a, Some b => a = b
  | inl _, None => True
  | _, _ => False
  end.
Proof. destruct x as [s | s | | s m e]; simpl; auto. intros ->. reflexivity. Qed.

Lemma fsub_positive_sign x y :
  sign_nonneg y -> flt (S754_zero false) (fsub x y) = true -> sign_nonneg x.
Proof.
  intros Hy H.
  destruct x as [sx | sx | | sx mx ex]; simpl; auto.
  - destruct sx; [| reflexivity].
    destruct y as [sy | sy | | sy my ey]; simpl in Hy; subst; try discriminate;
      destruct sy; discriminate.
  - destruct sx; [| reflexivity].
    destruct y as [sy | sy | | sy my ey]; simpl in Hy; subst; try discriminate.
    exfalso. unfold fsub, SFsub, cond_Zopp, binary_normalize in H.
    match type of H with
    | context [Z.sub (Z.opp (Z.pos ?a)) (Z.pos ?b)] =>
        change (Z.sub (Z.opp (Z.pos a)) (Z.pos b)) with (Z.neg (a + b)) in H
    end.
    cbv iota in H.
    match type of H with
    | context [binary_round prec emax true ?p ?e] =>
        pose proof (binary_round_has_sign true p e) as Hs;
        destruct (binary_round prec emax true p e) as [s | s | | s m e']
    end; simpl in Hs; subst; discriminate.
Qed.

Lemma fdiv_sign_nonneg x n :
  flt (S754_zero false) x = true -> 1 <= n -> sign_nonneg (fdiv x (of_int n)).
Proof.
  intros Hx Hn. destruct n as [| p | p]; try lia.
  unfold of_int, binary_normalize.
  destruct (binary_round_nonzero false p 0 ltac:(lia)) as [r [-> [-> | [mf [ef [-> _]]]]]];
    destruct x as [sx | sx | | sx mx ex]; try discriminate;
    destruct sx; try discriminate; simpl; auto.
  apply has_sign_nonneg.
  destruct (SFdiv_core_binary prec emax (Z.pos mx) ex (Z.pos mf) ef) as [[q e'] l].
  apply round_aux_has_sign.
Qed.



(** ** The number of frames written *)

Lemma length_range n : Z.of_nat (length (range n)) = Z.max 0 n.
Proof. unfold range. rewrite length_map, length_seq. lia. Qed.

Lemma display_loop_count iters total curr_img st :
  exists st', display_loop iters total curr_img st = (inr tt, st') /\
              frame_count st'
              = Z.min (frame_count st + Z.of_nat (length iters))
                      (Z.max (frame_count st) total).
Proof.
  revert st. induction iters as [| j rest IH]; intros st.
  - exists st. split; [reflexivity | simpl; lia].
  - simpl display_loop. unfold bind at 1. unfold bind at 1. unfold get_frame_count.
    destruct (Z.ltb_spec (frame_count st) total) as [Hlt | Hge].
    + cbn [out_write]. destruct (IH (snd (out_write curr_img st))) as [st' [Hrun Hfc]].
      exists st'. split; [exact Hrun |]. rewrite Hfc. simpl frame_count.
      simpl length. lia.
    + cbn [ret]. destruct (IH st) as [st' [Hrun Hfc]].
      exists st'. split; [exact Hrun |]. rewrite Hfc. simpl length. lia.
Qed.

Lemma transition_loop_count E iters tf total kind curr_img st st' :
  transition_loop E iters tf total kind curr_img st = (inr tt, st') ->
  frame_count st'
  = Z.min (frame_count st + Z.of_nat (length iters)) (Z.max (frame_count st) total).
Proof.
  revert st. induction iters as [| j rest IH]; intros st H.
  - injection H as <-. simpl. lia.
  - simpl transition_loop in H. unfold bind at 1 in H. unfold bind at 1 in H.
    unfold get_frame_count in H.
    destruct (Z.ltb_spec (frame_count st) total) as [Hlt | Hge].
    + unfold bind, lift, get_prev_image in H.
      destruct (truediv j tf) as [e | progress]; [discriminate |].
      destruct (prev_image st) as [p |]; [| discriminate].
      destruct (apply_transition E p curr_img kind progress) as [e | frame];
        [discriminate |].
      cbn [out_write] in H. apply IH in H. rewrite H. simpl frame_count.
      simpl length. lia.
    + cbn [ret] in H. apply IH in H. rewrite H. simpl length. lia.
Qed.

Lemma bind_inr {A B : Type} (c : M A) (f : A -> M B) st b st' :
  bind c f st = (inr b, st') ->
  exists a st1, c st = (inr a, st1) /\ f a st1 = (inr b, st').
Proof.
  unfold bind. destruct (c st) as [[e | a] st1]; [discriminate |].
  intros H. exists a, st1. split; [reflexivity | exact H].
Qed.

Lemma lift_inr {A : Type} (x : exn + A) st a st' :
  lift x st = (inr a, st') -> x = inr a /\ st' = st.
Proof. unfold lift. intros H. injection H as -> ->. split; reflexivity. Qed.

(** The steps after the frames of an image leave the frame counter alone. *)
Lemma process_image_tail_count curr_img total st st' :
  (set_prev_image curr_img ;;
   frame_count <- get_frame_count ;;
   ratio <- lift (truediv frame_count total) ;;
   pct <- lift (py_int (fmul ratio (of_int 100))) ;;
   print (PrintProgress (Z.min 100 pct) frame_count total))%build st = (inr tt, st') ->
  frame_count st' = frame_count st.
Proof.
  intros H.
  apply bind_inr in H as [[] [s1 [H1 H]]]. injection H1 as <-.
  apply bind_inr in H as [fc [s2 [H2 H]]]. injection H2 as <- <-.
  apply bind_inr in H as [q [s3 [H3 H]]]. apply lift_inr in H3 as [_ ->].
  apply bind_inr in H as [pct [s4 [H4 H]]]. apply lift_inr in H4 as [_ ->].
  injection H as <-. reflexivity.
Qed.

Lemma process_image_count E cfg fixed idur tw th total i img_path st st' fpi tf :
  imread E img_path <> None ->
  py_int (fmul idur (of_int (frame_rate cfg))) = inr fpi ->
  py_int (fmul (transition_duration cfg) (of_int (frame_rate cfg))) = inr tf ->
  process_image E cfg fixed idur tw th total i img_path st = (inr tt, st') ->
  0 <= frame_count st <= Z.max 0 total ->
  frame_count st' = Z.min (frame_count st + step_frames fpi tf i) (Z.max 0 total).
Proof.
  intros Hread Hfpi Htf H Hfc. unfold process_image in H.
  destruct (imread E img_path) as [raw |]; [| contradiction].
  apply bind_inr in H as [curr [s1 [H1 H]]]. apply lift_inr in H1 as [_ ->].
  apply bind_inr in H as [[] [s2 [H2 H]]].
  apply process_image_tail_count in H. rewrite H. clear H.
  unfold step_frames. destruct (i =? 0).
  - apply bind_inr in H2 as [fpi' [s3 [H3 H2]]]. apply lift_inr in H3 as [H3 ->].
    rewrite Hfpi in H3. injection H3 as <-.
    destruct (display_loop_count (range fpi) total curr st) as [s4 [Hrun Hcount]].
    rewrite Hrun in H2. injection H2 as <-.
    rewrite Hcount, length_range. lia.
  - apply bind_inr in H2 as [kind [s3 [H3 H2]]].
    assert (Hs3 : frame_count s3 = frame_count st).
    { destruct fixed; [injection H3 as _ <-; reflexivity |].
      unfold random_randint in H3. injection H3 as _ <-. reflexivity. }
    apply bind_inr in H2 as [tf' [s4 [H4 H2]]]. apply lift_inr in H4 as [H4 ->].
    rewrite Htf in H4. injection H4 as <-.
    apply bind_inr in H2 as [[] [s5 [H5 H2]]].
    apply transition_loop_count in H5.
    apply bind_inr in H2 as [fpi' [s6 [H6 H2]]]. apply lift_inr in H6 as [H6 ->].
    rewrite Hfpi in H6. injection H6 as <-.
    destruct (display_loop_count (range fpi) total curr s5) as [s7 [Hrun Hcount]].
    rewrite Hrun in H2. injection H2 as <-.
    rewrite Hcount, H5, !length_range, Hs3. lia.
Qed.

Lemma process_images_count E cfg fixed idur tw th total fpi tf files :
  Forall (fun p => imread E p <> None) files ->
  py_int (fmul idur (of_int (frame_rate cfg))) = inr fpi ->
  py_int (fmul (transition_duration cfg) (of_int (frame_rate cfg))) = inr tf ->
  forall i st st',
    0 <= i ->
    process_images E cfg fixed idur tw th total i files st = (inr tt, st') ->
    0 <= frame_count st <= Z.max 0 total ->
    frame_count st'
    = Z.min (frame_count st
             + (Z.of_nat (length files) * (Z.max 0 tf + Z.max 0 fpi)
                - (if (i =? 0) && negb (Nat.eqb (length files) 0)
                   then Z.max 0 tf else 0)))
            (Z.max 0 total).
Proof.
  intros Hall Hfpi Htf. induction Hall as [| f rest Hf Hrest IH]; intros i st st' Hi H Hfc.
  - injection H as <-. simpl. rewrite andb_false_r. lia.
  - simpl process_images in H. apply bind_inr in H as [[] [s1 [H1 H]]].
    pose proof (process_image_count E cfg fixed idur tw th total i f st s1 fpi tf
                  Hf Hfpi Htf H1 Hfc) as Hc1.
    apply IH in H; [| lia | rewrite Hc1; unfold step_frames; destruct (i =? 0); lia].
    rewrite H, Hc1. unfold step_frames.
    destruct (Z.eqb_spec (i + 1) 0) as [| _]; [lia |].
    cbn [andb]. simpl length. cbn [Nat.eqb negb]. rewrite andb_true_r.
    replace (Z.of_nat (S (length rest)) * (Z.max 0 tf + Z.max 0 fpi))
      with (Z.of_nat (length rest) * (Z.max 0 tf + Z.max 0 fpi)
            + (Z.max 0 tf + Z.max 0 fpi)) by (rewrite Nat2Z.inj_succ; ring).
    assert (0 <= Z.of_nat (length rest) * (Z.max 0 tf + Z.max 0 fpi))
      by (apply Z.mul_nonneg_nonneg; lia).
    generalize dependent (Z.of_nat (length rest) * (Z.max 0 tf + Z.max 0 fpi)).
    intros P _ _ HP. destruct (i =? 0); lia.
Qed.

Lemma create_slideshow_within_budget E image_files cfg total :
  frame_budget cfg = inr total ->
  within_budget total (snd (create_slideshow E image_files cfg initial)).
Proof.
  intros Hb.
  assert (H : preserves (within_budget total) (create_slideshow E image_files cfg)).
  { apply create_slideshow_preserves.
    - intros ev. apply within_budget_neutral. apply neutral_print.
    - intros fixed idur total' fp rest fi th _ _ _ Htotal. rewrite Hb in Htotal.
      injection Htotal as <-. apply process_images_within_budget. }
  apply (H initial). split; simpl; lia.
Qed.

Lemma print_frame_count ev st a st' :
  print ev st = (inr a, st') -> frame_count st' = frame_count st.
Proof. intros H. injection H as _ <-. reflexivity. Qed.

(** A run that returns normally went through the loop over the images, from
    a state where no frame had been written. *)
Lemma create_slideshow_returns E image_files cfg st' :
  create_slideshow E image_files cfg initial = (inr tt, st') ->
  exists fixed idur tw th total st1 st2,
    image_files <> [] /\
    compute_image_duration cfg (Z.of_nat (length image_files)) = inr idur /\
    frame_budget cfg = inr total /\
    frame_count st1 = 0 /\
    process_images E cfg fixed idur tw th total 0 image_files st1 = (inr tt, st2) /\
    frame_count st' = frame_count st2.
Proof.
  unfold create_slideshow. destruct (select_transition cfg) as [fixed unknown].
  intros H.
  apply bind_inr in H as [[] [s1 [H1 H]]].
  assert (Hs1 : frame_count s1 = 0).
  { destruct unknown; [apply print_frame_count in H1; exact H1 | injection H1 as <-; reflexivity]. }
  apply bind_inr in H as [idur [s2 [H2 H]]]. apply lift_inr in H2 as [Hidur ->].
  apply bind_inr in H as [[] [s3 [H3 H]]]. apply print_frame_count in H3.
  destruct image_files as [| first_path rest]; [discriminate |].
  destruct (imread E first_path) as [first_image |]; [| discriminate].
  destruct (shape first_image) as [h w].
  apply bind_inr in H as [scaled [s4 [H4 H]]]. apply lift_inr in H4 as [_ ->].
  apply bind_inr in H as [th [s5 [H5 H]]]. apply lift_inr in H5 as [_ ->].
  apply bind_inr in H as [[] [s6 [H6 H]]].
  assert (Hs6 : frame_count s6 = 0).
  { destruct (5 <? Z.abs (th - h)); [apply print_frame_count in H6 | injection H6 as <-];
      congruence. }
  apply bind_inr in H as [[] [s7 [H7 H]]].
  assert (Hs7 : s7 = s6).
  { destruct (writer_opened E _ _ _ _); [injection H7 as <- | discriminate]. reflexivity. }
  subst s7.
  apply bind_inr in H as [total [s8 [H8 H]]]. apply lift_inr in H8 as [Htotal ->].
  apply bind_inr in H as [[] [s9 [H9 H]]]. apply print_frame_count in H9.
  apply bind_inr in H as [[] [s10 [H10 H]]].
  apply bind_inr in H as [[] [s11 [H11 H]]]. apply print_frame_count in H11.
  apply bind_inr in H as [fc [s12 [H12 H]]]. injection H12 as _ <-.
  apply bind_inr in H as [seconds [s13 [H13 H]]]. apply lift_inr in H13 as [_ ->].
  apply print_frame_count in H.
  exists fixed, idur, w, th, total, s9, s10.
  split; [discriminate |]. split; [exact Hidur |]. split; [exact Htotal |]. split; [congruence |].
  split; [exact H10 | congruence].
Qed.


(** ** Monotonicity of rounding to nearest *)

Lemma rnd_bounds a n : a / 2 ^ n <= rnd a n <= a / 2 ^ n + 1.
Proof. apply round_nearest_even_bounds. Qed.

Lemma rnd_scale a n k : 0 <= a -> 0 <= n -> 0 <= k -> rnd (a * 2 ^ k) (n + k) = rnd a n.
Proof.
  intros Ha Hn Hk. unfold rnd, loc_of_rem.
  assert (Hpk : 0 < 2 ^ k) by (apply Z.pow_pos_nonneg; lia).
  assert (Hpn : 0 < 2 ^ n) by (apply Z.pow_pos_nonneg; lia).
  rewrite !Z.pow_add_r by lia.
  rewrite Z.div_mul_cancel_r by lia.
  rewrite Zmult_mod_distr_r.
  destruct (Z.eqb_spec (a mod 2 ^ n) 0) as [H0 | H0].
  - rewrite H0. simpl. reflexivity.
  - destruct (Z.eqb_spec (a mod 2 ^ n * 2 ^ k) 0) as [H1 | H1]; [nia |].
    f_equal. f_equal.
    destruct (Z.compare_spec (2 * (a mod 2 ^ n)) (2 ^ n)) as [Hc | Hc | Hc].
    + apply Z.compare_eq_iff.
      replace (2 * (a mod 2 ^ n * 2 ^ k)) with (2 * (a mod 2 ^ n) * 2 ^ k) by ring.
      now rewrite Hc.
    + apply Z.compare_lt_iff.
      replace (2 * (a mod 2 ^ n * 2 ^ k)) with (2 * (a mod 2 ^ n) * 2 ^ k) by ring.
      apply Z.mul_lt_mono_pos_r; assumption.
    + apply Z.compare_gt_iff.
      replace (2 * (a mod 2 ^ n * 2 ^ k)) with (2 * (a mod 2 ^ n) * 2 ^ k) by ring.
      apply Z.mul_lt_mono_pos_r; assumption.
Qed.

Lemma rnd_mono a1 a2 n : 0 <= a1 <= a2 -> 0 <= n -> rnd a1 n <= rnd a2 n.
Proof.
  intros Ha Hn.
  assert (Hp : 0 < 2 ^ n) by (apply Z.pow_pos_nonneg; lia).
  pose proof (Z.div_le_mono a1 a2 (2 ^ n) Hp ltac:(lia)) as Hq.
  destruct (Z.eq_dec (a1 / 2 ^ n) (a2 / 2 ^ n)) as [Heq | Hne].
  - pose proof (Z.div_mod a1 (2 ^ n) ltac:(lia)) as H1.
    pose proof (Z.div_mod a2 (2 ^ n) ltac:(lia)) as H2.
    pose proof (Z.mod_pos_bound a1 (2 ^ n) Hp) as Hb1.
    pose proof (Z.mod_pos_bound a2 (2 ^ n) Hp) as Hb2.
    assert (HR : a1 mod 2 ^ n <= a2 mod 2 ^ n) by (rewrite Heq in H1; lia).
    unfold rnd. rewrite Heq. unfold loc_of_rem, round_nearest_even.
    set (q := a2 / 2 ^ n). set (R1 := a1 mod 2 ^ n) in *. set (R2 := a2 mod 2 ^ n) in *.
    destruct (Z.eqb_spec R1 0), (Z.eqb_spec R2 0); try lia;
      try (destruct (Z.compare_spec (2 * R2) (2 ^ n)); destruct (Z.even q); lia).
    destruct (Z.compare_spec (2 * R1) (2 ^ n)), (Z.compare_spec (2 * R2) (2 ^ n));
      destruct (Z.even q); lia.
  - pose proof (rnd_bounds a1 n). pose proof (rnd_bounds a2 n). lia.
Qed.

Lemma bpow_lt_inv a b : (bpow a < bpow b)%R -> a < b.
Proof.
  intros H. destruct (Z_lt_ge_dec a b) as [| Hge]; [assumption | exfalso].
  pose proof (bpow_le b a ltac:(lia)). lra.
Qed.

Lemma F2R_digits_bounds m e :
  0 < m -> (bpow (Zdigits2 m - 1 + e) <= F2R m e < bpow (Zdigits2 m + e))%R.
Proof.
  intros Hm. pose proof (Zdigits2_bounds m Hm) as [Hlo Hhi].
  pose proof (Zdigits2_pos m Hm) as Hd.
  rewrite !bpow_plus. unfold F2R.
  rewrite (bpow_IZR (Zdigits2 m - 1)), (bpow_IZR (Zdigits2 m)) by lia.
  pose proof (bpow_gt_0 e). apply IZR_le in Hlo. apply IZR_lt in Hhi.
  split; [apply Rmult_le_compat_r; lra | apply Rmult_lt_compat_r; lra].
Qed.

(** Rounding to nearest is monotone. *)
Lemma round_aux_mono m1 e1 m2 e2 :
  0 <= m1 -> 0 <= m2 ->
  e1 <= fexp prec emax (Zdigits2 m1 + e1) ->
  e2 <= fexp prec emax (Zdigits2 m2 + e2) ->
  (F2R m1 e1 <= F2R m2 e2)%R ->
  let z1 := binary_round_aux prec emax false m1 e1 loc_Exact in
  let z2 := binary_round_aux prec emax false m2 e2 loc_Exact in
  z2 = S754_infinity false \/
  (valid z1 = true /\ nonneg_float z1 /\ valid z2 = true /\ nonneg_float z2 /\
   (B2R z1 <= B2R z2)%R).
Proof.
  intros Hm1 Hm2 He1 He2 Hle z1 z2.
  destruct (round_aux_nonneg m1 e1 loc_Exact Hm1 He1)
    as [m1' [E1 [l1 [HE1 [Hm1' [Hg1 [Hl1 Hr1]]]]]]].
  destruct (round_aux_nonneg m2 e2 loc_Exact Hm2 He2)
    as [m2' [E2 [l2 [HE2 [Hm2' [Hg2 [Hl2 Hr2]]]]]]].
  fold z1 in Hr1. fold z2 in Hr2.
  rewrite (Hl1 eq_refl) in Hr1. rewrite (Hl2 eq_refl) in Hr2.
  rewrite Hm1' in Hr1. rewrite Hm2' in Hr2.
  fold (rnd m1 (E1 - e1)) in Hr1. fold (rnd m2 (E2 - e2)) in Hr2.
  assert (Hcore : (F2R (rnd m1 (E1 - e1)) E1 <= F2R (rnd m2 (E2 - e2)) E2)%R).
  { pose proof (rnd_bounds m1 (E1 - e1)) as Hb1. pose proof (rnd_bounds m2 (E2 - e2)) as Hb2.
    rewrite <- Hm1' in Hb1. rewrite <- Hm2' in Hb2.
    pose proof Hg1 as [[Hg1a Hg1b] [Hg1c Hg1d]]. pose proof Hg2 as [[Hg2a Hg2b] [Hg2c Hg2d]].
    assert (Hr2pos : (0 <= F2R (rnd m2 (E2 - e2)) E2)%R).
    { unfold F2R. pose proof (bpow_gt_0 E2).
      assert (0 <= IZR (rnd m2 (E2 - e2)))%R. { apply IZR_le. lia. } nra. }
    destruct (Z.eq_dec m1 0) as [-> | Hne1].
    { replace (rnd 0 (E1 - e1)) with 0.
      - unfold F2R at 1. rewrite Rmult_0_l. exact Hr2pos.
      - unfold rnd. rewrite Z.div_0_l, Z.mod_0_l by (apply Z.pow_nonzero; lia).
        reflexivity. }
    assert (Hpos1 : 0 < m1) by lia.
    assert (Hpos2 : 0 < m2).
    { destruct (Z.eq_dec m2 0) as [-> | ]; [| lia]. exfalso.
      pose proof (F2R_digits_bounds m1 e1 Hpos1) as [Hlo _].
      pose proof (bpow_gt_0 (Zdigits2 m1 - 1 + e1)). unfold F2R at 2 in Hle.
      simpl in Hle. lra. }
    assert (Hmag : Zdigits2 m1 + e1 <= Zdigits2 m2 + e2).
    { pose proof (F2R_digits_bounds m1 e1 Hpos1) as [Hlo _].
      pose proof (F2R_digits_bounds m2 e2 Hpos2) as [_ Hhi].
      assert (Hlt : (bpow (Zdigits2 m1 - 1 + e1) < bpow (Zdigits2 m2 + e2))%R) by lra.
      apply bpow_lt_inv in Hlt. lia. }
    assert (HE : E1 <= E2) by (rewrite HE1, HE2, !fexp_eq; lia).
    destruct (Z.eq_dec E1 E2) as [Heq | Hneq].
    - (* the same binade *)
      rewrite <- Heq in *. clear Heq.
      apply F2R_le.
      set (e0 := Z.min e1 e2).
      rewrite <- (rnd_scale m1 (E1 - e1) (e1 - e0)) by (unfold e0; lia).
      rewrite <- (rnd_scale m2 (E1 - e2) (e2 - e0)) by (unfold e0; lia).
      replace (E1 - e1 + (e1 - e0)) with (E1 - e0) by lia.
      replace (E1 - e2 + (e2 - e0)) with (E1 - e0) by lia.
      apply rnd_mono; [| unfold e0; lia].
      rewrite (F2R_align m1 e1 e0), (F2R_align m2 e2 e0) in Hle by (unfold e0; lia).
      apply F2R_le in Hle.
      assert (0 < 2 ^ (e1 - e0)) by (apply Z.pow_pos_nonneg; unfold e0; lia).
      split; [nia | exact Hle].
    - (* a higher binade *)
      destruct Hg2d as [Hbad | Hbig]; [lia |].
      apply Rle_trans with (F2R (2 ^ 53) E1); [apply F2R_le; lia |].
      apply Rle_trans with (F2R (2 ^ 52) E2); [| apply F2R_le; lia].
      rewrite (F2R_align (2 ^ 52) E2 E1) by lia. apply F2R_le.
      assert (2 <= 2 ^ (E2 - E1)).
      { change 2 with (2 ^ 1) at 1. apply Z.pow_le_mono_r; lia. }
      change (2 ^ 53) with (2 ^ 52 * 2). nia. }
  destruct Hr2 as [[Hv2 [Hn2 HB2]] | [Hinf2 _]]; [right | now left].
  destruct Hr1 as [[Hv1 [Hn1 HB1]] | [_ Hov]].
  - repeat split; try assumption. rewrite HB1, HB2. exact Hcore.
  - exfalso. destruct (nonneg_float_grid z2 Hv2 Hn2) as [mc [ec [Hgc [Hec HBc]]]].
    pose proof (grid_lt_overflow mc ec Hgc Hec). rewrite <- HBc, HB2 in H. lra.
Qed.

(** Multiplication by a non-negative float is monotone. *)
Lemma fmul_mono x y1 y2 :
  valid x = true -> valid y1 = true -> valid y2 = true ->
  nonneg_float x -> nonneg_float y1 -> nonneg_float y2 ->
  (B2R y1 <= B2R y2)%R ->
  fmul x y2 = S754_infinity false \/
  (valid (fmul x y1) = true /\ nonneg_float (fmul x y1) /\
   valid (fmul x y2) = true /\ nonneg_float (fmul x y2) /\
   (B2R (fmul x y1) <= B2R (fmul x y2))%R).
Proof.
  intros Hvx Hv1 Hv2 Hnx Hn1 Hn2 Hle.
  pose proof (nonneg_float_B2R x Hnx) as Hx0.
  pose proof (nonneg_float_B2R y1 Hn1) as Hy10.
  pose proof (nonneg_float_B2R y2 Hn2) as Hy20.
  assert (Hzero : forall z, is_zero z = true ->
                            valid z = true /\ nonneg_float z /\ B2R z = 0%R).
  { intros z Hz. destruct z; try discriminate. repeat split. }
  assert (Hlow : forall y, valid y = true -> nonneg_float y ->
                           fmul x y = S754_infinity false \/
                           (valid (fmul x y) = true /\ nonneg_float (fmul x y))).
  { intros y Hvy Hny.
    destruct (fmul_RD x y (S754_zero false) Hvx Hvy eq_refl Hnx Hny I)
      as [Hinf | [H1 [H2 _]]]; [| now left | right; now split].
    simpl B2R at 1. pose proof (nonneg_float_B2R y Hny). nra. }
  destruct (Hlow y2 Hv2 Hn2) as [Hinf | [Hv2' Hn2']]; [now left | right].
  destruct x as [sx | sx | | sx mx ex]; simpl in Hnx; try contradiction.
  { (* x is a zero *)
    assert (H1 : is_zero (fmul (S754_zero sx) y1) = true)
      by (destruct y1; simpl in Hn1; try contradiction; reflexivity).
    assert (H2 : is_zero (fmul (S754_zero sx) y2) = true)
      by (destruct y2; simpl in Hn2; try contradiction; reflexivity).
    destruct (Hzero _ H1) as [Ha [Hb Hc]]. destruct (Hzero _ H2) as [Hd [He Hf]].
    repeat split; try assumption. rewrite Hc, Hf. lra. }
  subst sx.
  destruct y1 as [s1 | s1 | | s1 m1 e1]; simpl in Hn1; try contradiction.
  { (* y1 is a zero *)
    repeat split; try assumption; try reflexivity.
    simpl B2R at 1. now apply nonneg_float_B2R. }
  subst s1.
  destruct y2 as [s2 | s2 | | s2 m2 e2]; simpl in Hn2; try contradiction.
  { exfalso. pose proof (positive_float_B2R (S754_finite false m1 e1) I) as Hp.
    simpl B2R at 2 in Hle. lra. }
  subst s2.
  destruct (valid_grid _ _ _ Hvx) as [Hgx _].
  destruct (valid_grid _ _ _ Hv1) as [Hg1 _].
  destruct (valid_grid _ _ _ Hv2) as [Hg2 _].
  assert (Hprod : forall m e,
             (F2R (Z.pos (mx * m)) (ex + e)
              = B2R (S754_finite false mx ex) * B2R (S754_finite false m e))%R).
  { intros m e. simpl B2R. unfold F2R.
    rewrite bpow_plus, Pos2Z.inj_mul, mult_IZR. ring. }
  destruct (round_aux_mono (Z.pos (mx * m1)) (ex + e1) (Z.pos (mx * m2)) (ex + e2))
    as [Hinf | H]; try lia; try (now apply mul_exponent_ok).
  - rewrite !Hprod. apply Rmult_le_compat_l; assumption.
  - unfold fmul, SFmul in Hv2', Hn2'. simpl xorb in Hv2', Hn2'.
    rewrite Hinf in Hn2'. contradiction.
  - exact H.
Qed.

(** ** The wipe to the left *)

Lemma of_int_nonneg_exact n :
  0 <= n < 2 ^ 53 ->
  valid (of_int n) = true /\ nonneg_float (of_int n) /\ B2R (of_int n) = IZR n.
Proof.
  intros Hn. destruct (Z.eq_dec n 0) as [-> | Hne].
  - repeat split.
  - destruct (of_int_exact n ltac:(lia)) as [Hv [Hp HB]].
    split; [exact Hv |]. split; [now apply positive_nonneg | exact HB].
Qed.

(** The floats of the closed interval from 0.0 to 1.0. *)
Lemma unit_interval p :
  valid p = true -> fle (of_int 0) p = true -> fle p (of_int 1) = true ->
  nonneg_float p /\ (0 <= B2R p <= 1)%R.
Proof.
  intros Hv H0 H1.
  assert (Hn : nonneg_float p).
  { destruct p as [s | [|] | | [|] m e]; try discriminate; simpl; auto. }
  split; [exact Hn |]. split; [now apply nonneg_float_B2R |].
  destruct (of_int_nonneg_exact 1 ltac:(lia)) as [Hv1 [Hn1 HB1]].
  apply fle_spec in H1; auto using nonneg_is_finite.
  rewrite HB1 in H1. exact H1.
Qed.

(** The column where a wipe over a width [w] is cut at progress [p]. *)
Lemma wipe_cut w p :
  0 <= w < 2 ^ 53 ->
  valid p = true -> fle (of_int 0) p = true -> fle p (of_int 1) = true ->
  exists cut, py_int (fmul (of_int w) p) = inr cut /\
              floor (fmul (of_int w) p) = Some cut /\ 0 <= cut <= w.
Proof.
  intros Hw Hv H0 H1.
  destruct (unit_interval p Hv H0 H1) as [Hn [Hp0 Hp1]].
  destruct (of_int_nonneg_exact w Hw) as [Hvw [Hnw HBw]].
  assert (Hle : (B2R (of_int w) * B2R p <= B2R (of_int w))%R).
  { pose proof (nonneg_float_B2R _ Hnw). nra. }
  destruct (fmul_RU (of_int w) p (of_int w) Hvw Hv Hvw Hnw Hn Hnw Hle)
    as [Hvm [Hnm Hup]].
  rewrite HBw in Hup.
  destruct (py_int_le _ w Hnm Hup) as [cut [Hcut Hrange]].
  exists cut. split; [exact Hcut |]. split; [| exact Hrange].
  destruct (fmul (of_int w) p) as [s | s | | s m e]; simpl in Hnm; try contradiction.
  - simpl in *. congruence.
  - subst s. simpl in *. congruence.
Qed.

Lemma wipe_cut_mono w p1 p2 cut1 cut2 :
  0 <= w < 2 ^ 53 ->
  valid p1 = true -> valid p2 = true ->
  fle (of_int 0) p1 = true -> fle p1 p2 = true -> fle p2 (of_int 1) = true ->
  py_int (fmul (of_int w) p1) = inr cut1 ->
  py_int (fmul (of_int w) p2) = inr cut2 ->
  cut1 <= cut2.
Proof.
  intros Hw Hv1 Hv2 H0 H12 H1 Hc1 Hc2.
  assert (Hn1 : nonneg_float p1).
  { destruct p1 as [s | [|] | | [|] m e]; try discriminate; simpl; auto.
    destruct p2 as [s2 | [|] | | [|] m2 e2]; discriminate. }
  assert (Hn2 : nonneg_float p2).
  { destruct p2 as [s | [|] | | [|] m e]; try discriminate; simpl; auto.
    - destruct p1 as [s1 | [|] | | [|] m1 e1]; simpl in Hn1; try contradiction;
        discriminate.
    - destruct p1 as [s1 | [|] | | [|] m1 e1]; simpl in Hn1; try contradiction;
        discriminate. }
  apply fle_spec in H12; auto using nonneg_is_finite.
  destruct (of_int_nonneg_exact w Hw) as [Hvw [Hnw HBw]].
  destruct (fmul_mono (of_int w) p1 p2 Hvw Hv1 Hv2 Hnw Hn1 Hn2 H12)
    as [Hinf | [Hva [Hna [Hvb [Hnb Hle]]]]].
  { rewrite Hinf in Hc2. discriminate. }
  destruct (py_int_nonneg _ Hna) as [k1 [Hk1 [_ [Hlo1 _]]]].
  destruct (py_int_nonneg _ Hnb) as [k2 [Hk2 [_ [_ Hhi2]]]].
  rewrite Hc1 in Hk1. rewrite Hc2 in Hk2. injection Hk1 as <-. injection Hk2 as <-.
  assert (IZR cut1 < IZR (cut2 + 1))%R by (rewrite plus_IZR; lra).
  apply lt_IZR in H. lia.
Qed.

Lemma broadcast_id {A : Type} n (l : list A) : length l = n -> broadcast n l = l.
Proof.
  intros <-. unfold broadcast. destruct l as [| x [| y t]]; reflexivity.
Qed.

Lemma py_slice_all {A : Type} (l : list A) : py_slice None None l = l.
Proof.
  unfold py_slice. rewrite slice_len_all. simpl. apply firstn_all.
Qed.

Lemma py_slice_prefix {A : Type} (l : list A) cut :
  0 <= cut <= Z.of_nat (length l) ->
  py_slice None (Some cut) l = firstn (Z.to_nat cut) l.
Proof.
  intros Hc. unfold py_slice, slice_len, slice_hi, slice_lo.
  rewrite norm_index_id by lia. simpl. f_equal. lia.
Qed.

Lemma zip_with_map_r {A B B' C : Type} (f : A -> B' -> C) (g : B -> B') l l' :
  zip_with f l (map g l') = zip_with (fun a b => f a (g b)) l l'.
Proof.
  revert l'. induction l as [| a t IH]; intros [| b t']; simpl; try reflexivity.
  now rewrite IH.
Qed.

Lemma zip_with_ext {A B C : Type} (f g : A -> B -> C) (P : A -> Prop) (Q : B -> Prop) :
  (forall a b, P a -> Q b -> f a b = g a b) ->
  forall l l', Forall P l -> Forall Q l' -> zip_with f l l' = zip_with g l l'.
Proof.
  intros Hfg l. induction l as [| a t IH]; intros [| b t'] HP HQ; simpl;
    try reflexivity.
  inversion HP; inversion HQ; subst. f_equal; [now apply Hfg | now apply IH].
Qed.

Lemma wipe_left_assignment A B cut :
  wf_image A -> wf_image B -> shape A = shape B ->
  0 <= cut <= Z.of_nat (img_width A) ->
  setitem A None None None (Some cut) (getitem B None None None (Some cut))
  = inr (left_columns cut A B).
Proof.
  intros HA HB Hs Hcut. apply shape_eq in Hs as [Hh Hw].
  unfold setitem.
  rewrite getitem_height, getitem_width, !slice_len_all.
  assert (Htw : slice_len (img_width A) None (Some cut) = Z.to_nat cut).
  { unfold slice_len, slice_hi, slice_lo. rewrite norm_index_id by lia. lia. }
  rewrite <- Hw, Htw, <- Hh.
  unfold broadcastable. rewrite !Nat.eqb_refl. cbn [orb andb slice_lo].
  unfold left_columns. f_equal. f_equal.
  unfold getitem. cbn [img_rows]. rewrite py_slice_all.
  rewrite broadcast_id by (rewrite length_map; unfold img_height in *; lia).
  rewrite map_map. cbn [skipn]. unfold img_height. rewrite firstn_all.
  rewrite zip_with_map_r.
  set (new := zip_with _ (img_rows A) (img_rows B)).
  assert (Hnew : new = zip_with (fun ra rb => firstn (Z.to_nat cut) rb
                                              ++ skipn (Z.to_nat cut) ra)
                                (img_rows A) (img_rows B)).
  { unfold new.
    apply zip_with_ext with (P := fun ra => length ra = img_width A)
                            (Q := fun rb => length rb = img_width B);
      try assumption.
    intros ra rb Hra Hrb.
    rewrite py_slice_prefix by lia.
    rewrite broadcast_id by (rewrite length_firstn; lia).
    unfold splice. cbn [firstn app]. rewrite length_firstn.
    f_equal. f_equal. lia. }
  rewrite Hnew. unfold splice. cbn [firstn app].
  rewrite skipn_all2; [apply app_nil_r |].
  rewrite length_zip_with. unfold img_height in Hh. lia.
Qed.

Lemma left_columns_none A B :
  wf_image A -> shape A = shape B -> left_columns 0 A B = A.
Proof.
  intros HA Hs. apply shape_eq in Hs as [Hh _]. unfold left_columns.
  destruct A as [wA rowsA]; cbn [img_width img_rows] in *. f_equal.
  unfold img_height in Hh; cbn [img_rows] in Hh. revert Hh.
  generalize (img_rows B). clear. induction rowsA as [| ra t IH]; intros [| rb t'] H;
    simpl in *; try reflexivity; try discriminate.
  f_equal. apply IH. lia.
Qed.

Lemma left_columns_all A B :
  wf_image A -> wf_image B -> shape A = shape B ->
  left_columns (Z.of_nat (img_width A)) A B = B.
Proof.
  intros HA HB Hs. apply shape_eq in Hs as [Hh Hw]. unfold left_columns.
  rewrite Nat2Z.id.
  destruct B as [wB rowsB]; cbn [img_width img_rows] in *.
  unfold wf_image in *; cbn [img_width img_rows] in *. rewrite Hw. f_equal.
  unfold img_height in Hh; cbn [img_rows] in Hh. rewrite Hw in HA.
  revert HA HB Hh. generalize (img_rows A). clear.
  intros rowsA. revert rowsB. induction rowsA as [| ra t IH]; intros [| rb t'] HA HB H;
    simpl in *; try reflexivity; try discriminate.
  inversion HA; inversion HB; subst. f_equal.
  - rewrite firstn_all2, skipn_all2 by lia. apply app_nil_r.
  - apply IH; auto.
Qed.

Lemma apply_transition_wipe_left E A B progress :
  apply_transition E A B 1 progress
  = (cut <- py_int (fmul (of_int (Z.of_nat (img_width A))) progress) ;;
     setitem A None None None (Some cut) (getitem B None None None (Some cut)))%err.
Proof. reflexivity. Qed.

(** C5. For two rectangular frames [A] and [B] of one resolution and of
    width [w], the wipe to the left returns [A] at progress 0.0 and [B] at
    progress 1.0; for every progress [p] from 0.0 to 1.0 it returns the
    frame whose left [floor(w * p)] columns are those of [B] and whose other
    columns are those of [A], with [0 <= floor(w * p) <= w]; and the column
    boundary [floor(w * p)] does not decrease when [p] grows. *)
Theorem wipe_left_columns E A B :
  wf_image A -> wf_image B -> shape A = shape B ->
  Z.of_nat (img_width A) < 2 ^ 53 ->
  let w := Z.of_nat (img_width A) in
  apply_transition E A B 1 (of_int 0) = inr A /\
  apply_transition E A B 1 (of_int 1) = inr B /\
  (forall p,
      valid p = true -> fle (of_int 0) p = true -> fle p (of_int 1) = true ->
      exists cut,
        floor (fmul (of_int w) p) = Some cut /\ 0 <= cut <= w /\
        apply_transition E A B 1 p = inr (left_columns cut A B)) /\
  (forall p1 p2 cut1 cut2,
      valid p1 = true -> valid p2 = true ->
      fle (of_int 0) p1 = true -> fle p1 p2 = true -> fle p2 (of_int 1) = true ->
      floor (fmul (of_int w) p1) = Some cut1 ->
      floor (fmul (of_int w) p2) = Some cut2 ->
      cut1 <= cut2).
Proof.
  intros HA HB Hs Hw53 w.
  assert (Hw : 0 <= w < 2 ^ 53) by (unfold w; lia).
  destruct (of_int_nonneg_exact w Hw) as [Hvw [Hnw HBw]].
  assert (Hgen : forall p,
             valid p = true -> fle (of_int 0) p = true -> fle p (of_int 1) = true ->
             exists cut,
               py_int (fmul (of_int w) p) = inr cut /\
               floor (fmul (of_int w) p) = Some cut /\ 0 <= cut <= w /\
               apply_transition E A B 1 p = inr (left_columns cut A B)).
  { intros p Hv H0 H1.
    destruct (wipe_cut w p Hw Hv H0 H1) as [cut [Hpy [Hfl Hrange]]].
    exists cut. split; [exact Hpy |]. split; [exact Hfl |]. split; [exact Hrange |].
    rewrite apply_transition_wipe_left. fold w. rewrite Hpy. cbn [ebind].
    now apply wipe_left_assignment. }
  split; [| split; [| split]].
  - destruct (Hgen (of_int 0) eq_refl eq_refl eq_refl) as [cut [Hpy [_ [Hrange Hres]]]].
    assert (Hcut : cut = 0).
    { assert (Hle : (B2R (of_int w) * B2R (of_int 0) <= B2R (of_int 0))%R)
        by (simpl B2R; lra).
      destruct (fmul_RU (of_int w) (of_int 0) (of_int 0) Hvw eq_refl eq_refl Hnw I I Hle)
        as [_ [Hnm Hup]].
      destruct (py_int_le _ 0 Hnm Hup) as [k [Hk Hk0]]. rewrite Hpy in Hk.
      injection Hk as ->. lia. }
    rewrite Hres, Hcut. f_equal. now apply left_columns_none.
  - destruct (of_int_nonneg_exact 1 ltac:(lia)) as [Hv1 [Hn1 HB1]].
    destruct (Hgen (of_int 1) Hv1 eq_refl eq_refl) as [cut [Hpy [_ [Hrange Hres]]]].
    assert (Hcut : cut = w).
    { assert (Hle : (B2R (of_int w) <= B2R (of_int w) * B2R (of_int 1))%R)
        by (rewrite HB1; lra).
      destruct (fmul_RD (of_int w) (of_int 1) (of_int w) Hvw Hv1 Hvw Hnw Hn1 Hnw Hle)
        as [Hinf | [_ [Hnm Hlo]]].
      - rewrite Hinf in Hpy. discriminate.
      - rewrite HBw in Hlo. destruct (py_int_ge _ w Hnm Hlo) as [k [Hk Hkw]].
        rewrite Hpy in Hk. injection Hk as ->. lia. }
    rewrite Hres, Hcut. f_equal. now apply left_columns_all.
  - intros p Hv H0 H1. destruct (Hgen p Hv H0 H1) as [cut [_ [Hfl [Hrange Hres]]]].
    exists cut. repeat split; try assumption; apply Hrange.
  - intros p1 p2 cut1 cut2 Hv1 Hv2 H0 H12 H1 Hf1 Hf2.
    assert (H0' : fle (of_int 0) p2 = true).
    { destruct p1 as [s1 | [|] | | [|] m1 e1]; try discriminate;
        destruct p2 as [s2 | [|] | | [|] m2 e2]; try discriminate; reflexivity. }
    assert (H1' : fle p1 (of_int 1) = true).
    { destruct (unit_interval p2 Hv2 H0' H1) as [Hn2 [_ Hp2]].
      assert (Hn1 : nonneg_float p1).
      { destruct p1 as [s | [|] | | [|] m e]; try discriminate; simpl; auto.
        destruct p2 as [s2 | [|] | | [|] m2 e2]; discriminate. }
      destruct (of_int_nonneg_exact 1 ltac:(lia)) as [Hvo [Hno HBo]].
      apply fle_spec; auto using nonneg_is_finite.
      apply fle_spec in H12; auto using nonneg_is_finite. rewrite HBo. lra. }
    destruct (Hgen p1 Hv1 H0 H1') as [c1 [Hpy1 [Hfl1 _]]].
    destruct (Hgen p2 Hv2 H0' H1) as [c2 [Hpy2 [Hfl2 _]]].
    rewrite Hf1 in Hfl1. rewrite Hf2 in Hfl2.
    injection Hfl1 as <-. injection Hfl2 as <-.
    exact (wipe_cut_mono w p1 p2 cut1 cut2 Hw Hv1 Hv2 H0 H12 H1 Hpy1 Hpy2).
Qed.

(** ** The sample collaborators satisfy the assumptions *)

Lemma wf_solid w h p : wf_image (solid w h p).
Proof.
  unfold wf_image, solid. cbn [img_rows img_width].
  apply Forall_forall. intros r Hr. apply repeat_spec in Hr. subst r.
  apply repeat_length.
Qed.

Lemma u8_solid w h p : pixel_ok p -> u8_image (solid w h p).
Proof.
  intros Hp. unfold u8_image, solid. cbn [img_rows].
  apply Forall_forall. intros r Hr. apply repeat_spec in Hr. subst r.
  apply Forall_forall. intros q Hq. apply repeat_spec in Hq. now subst q.
Qed.

Lemma sample_resize_ok : resize_ok sample_externals.
Proof.
  intros im w h r. cbn [cv2_resize sample_externals]. unfold nearest_resize.
  destruct ((0 <? w) && (0 <? h) && (0 <? Z.of_nat (img_height im))
            && (0 <? Z.of_nat (img_width im))) eqn:Hc; [| discriminate].
  apply andb_prop in Hc as [Hc _]. apply andb_prop in Hc as [Hc _].
  apply andb_prop in Hc as [Hw Hh].
  apply Z.ltb_lt in Hw. apply Z.ltb_lt in Hh.
  intros Hr. injection Hr as <-. split.
  - unfold shape, img_height. cbn [img_rows img_width].
    rewrite length_map, length_seq. f_equal; lia.
  - unfold wf_image. cbn [img_rows img_width].
    apply Forall_forall. intros row Hrow. apply in_map_iff in Hrow as [i [<- _]].
    now rewrite length_map, length_seq.
Qed.

Lemma sample_decoder_ok : decoder_ok sample_externals.
Proof.
  intros path im. cbn [imread sample_externals]. unfold sample_files.
  repeat match goal with
         | |- context [String.eqb ?a ?b] => destruct (String.eqb a b)
         end; try discriminate;
    intros H; injection H as <-; (split; [apply wf_solid |]);
    vm_compute; repeat split; reflexivity.
Qed.

(** ** The theorems at concrete inputs *)



Lemma fade_identity_at_boundaries_witness :
  let A := solid 2 2 (1, 2, 3) in
  let B := solid 2 2 (250, 0, 255) in
  shape A = shape B /\
  apply_transition sample_externals A B 0 (of_int 0) = inr A /\
  apply_transition sample_externals A B 0 (of_int 1) = inr B.
Proof.
  split; [reflexivity |].
  apply (fade_identity_at_boundaries sample_externals
           (solid 2 2 (1, 2, 3)) (solid 2 2 (250, 0, 255)));
    [apply wf_solid | apply wf_solid
     | apply u8_solid; unfold pixel_ok, sample_ok; lia
     | apply u8_solid; unfold pixel_ok, sample_ok; lia
     | reflexivity].
Defined.

Lemma wipe_left_columns_witness :
  let A := solid 4 2 (1, 2, 3) in
  let B := solid 4 2 (250, 0, 255) in
  shape A = shape B /\
  apply_transition sample_externals A B 1 (of_int 0) = inr A /\
  apply_transition sample_externals A B 1 (of_int 1) = inr B.
Proof.
  split; [reflexivity |].
  pose proof (wipe_left_columns sample_externals
                (solid 4 2 (1, 2, 3)) (solid 4 2 (250, 0, 255))
                (wf_solid _ _ _) (wf_solid _ _ _) eq_refl eq_refl) as H.
  split; [exact (proj1 H) | exact (proj1 (proj2 H))].
Defined.


Lemma fade_rejects_mismatched_frames_witness :
  let prev_frame := solid 2 1 (1, 1, 1) in
  let next_frame := solid 3 1 (9, 9, 9) in
  shape prev_frame <> shape next_frame /\
  apply_transition sample_externals prev_frame next_frame 0 (ratio 1 2) = inl cv2_error.
Proof.
  split; [vm_compute; discriminate |].
  apply (fade_rejects_mismatched_frames sample_externals
           (solid 2 1 (1, 1, 1)) (solid 3 1 (9, 9, 9)) 0 (ratio 1 2));
    [vm_compute; discriminate | left; lia].
Defined.

Lemma canvas_resolution_fixed_witness :
  let files := ["a.png"; "b.png"; "c.png"]%string in
  let cfg := sample_config (of_int 10) (of_int 1) 10 "fade" in
  resize_ok sample_externals /\ decoder_ok sample_externals /\
  length (written (snd (create_slideshow sample_externals files cfg initial))) = 98%nat /\
  forall frame,
    In frame (written (snd (create_slideshow sample_externals files cfg initial))) ->
    exists first_path rest first_image target_h,
      files = first_path :: rest /\
      imread sample_externals first_path = Some first_image /\
      canvas_height (Z.of_nat (img_width first_image)) = inr target_h /\
      shape frame = (target_h, Z.of_nat (img_width first_image)) /\
      wf_image frame.
Proof.
  split; [exact sample_resize_ok |]. split; [exact sample_decoder_ok |].
  split; [vm_compute; reflexivity |].
  exact (proj1 (canvas_resolution_fixed sample_externals
                  ["a.png"; "b.png"; "c.png"]%string
                  (sample_config (of_int 10) (of_int 1) 10 "fade")
                  sample_resize_ok sample_decoder_ok)).
Defined.


Lemma undecodable_image_skipped_witness :
  let cfg := sample_config (of_int 10) (of_int 1) 10 "fade" in
  imread sample_externals "bad.png" = None /\
  forall st,
    process_image sample_externals cfg (Some 0) (of_int 1) 16 9 100 1 "bad.png" st
    = (inr tt, warned "bad.png" st).
Proof.
  split; [reflexivity |]. intros st.
  exact (proj1 (undecodable_image_skipped sample_externals
                  (sample_config (of_int 10) (of_int 1) 10 "fade")
                  (Some 0) (of_int 1) 16 9 100)
               1 "bad.png"%string st eq_refl).
Defined.

(** A run over three files of which the second cannot be decoded returns
    normally, with one warning and with the frames of the two other images. *)
Lemma middle_image_undecodable_run :
  let files := ["a.png"; "bad.png"; "b.png"]%string in
  let cfg := sample_config (of_int 10) (of_int 1) 10 "fade" in
  let r := create_slideshow sample_externals files cfg initial in
  fst r = inr tt /\
  In (WarnCouldNotRead "bad.png") (stdout (snd r)) /\
  length (written (snd r)) = 62%nat.
Proof.
  vm_compute. split; [reflexivity |]. split; [| reflexivity].
  repeat (try (left; reflexivity); right).
Qed.

(** ** Assignments to a band of columns or of rows *)

Lemma py_slice_suffix {A : Type} (l : list A) cut :
  0 <= cut <= Z.of_nat (length l) ->
  py_slice (Some cut) None l = skipn (Z.to_nat cut) l.
Proof.
  intros Hc. unfold py_slice, slice_len, slice_hi, slice_lo.
  rewrite norm_index_id by lia. apply firstn_all2. rewrite length_skipn. lia.
Qed.

Lemma zip_with_map_l {A A' B C : Type} (f : A' -> B -> C) (g : A -> A') l l' :
  zip_with f (map g l) l' = zip_with (fun a b => f (g a) b) l l'.
Proof.
  revert l'. induction l as [| a t IH]; intros [| b t']; simpl; try reflexivity.
  now rewrite IH.
Qed.

Lemma zip_with_swap {A B C : Type} (f : A -> B -> C) l l' :
  zip_with f l l' = zip_with (fun b a => f a b) l' l.
Proof.
  revert l'. induction l as [| a t IH]; intros [| b t']; simpl; try reflexivity.
  now rewrite IH.
Qed.

Lemma zip_with_same {A C : Type} (f : A -> A -> C) l :
  zip_with f l l = map (fun a => f a a) l.
Proof. induction l as [| a t IH]; simpl; [reflexivity | now rewrite IH]. Qed.

Lemma zip_with_snd {A B : Type} (l : list A) (l' : list B) :
  length l = length l' -> zip_with (fun _ b => b) l l' = l'.
Proof.
  revert l'. induction l as [| a t IH]; intros [| b t'] H; simpl in *;
    try reflexivity; try discriminate.
  f_equal. apply IH. lia.
Qed.

Lemma zip_with_fst {A B : Type} (l : list A) (l' : list B) :
  length l = length l' -> zip_with (fun a _ => a) l l' = l.
Proof.
  revert l'. induction l as [| a t IH]; intros [| b t'] H; simpl in *;
    try reflexivity; try discriminate.
  f_equal. apply IH. lia.
Qed.

(** [dst[:, c0:c1] = src] for a source of the height of [dst] and of the
    width of the band. *)
Lemma setitem_columns dst c0 c1 src :
  wf_image src ->
  img_height src = img_height dst ->
  img_width src = slice_len (img_width dst) c0 c1 ->
  setitem dst None None c0 c1 src
  = inr (mk_image (img_width dst)
           (zip_with (fun d s => firstn (slice_lo (img_width dst) c0) d ++ s
                                 ++ skipn (slice_lo (img_width dst) c0
                                           + slice_len (img_width dst) c0 c1) d)
                     (img_rows dst) (img_rows src))).
Proof.
  intros Hwf Hh Hw. unfold setitem.
  rewrite slice_len_all, Hh, Hw. unfold broadcastable. rewrite !Nat.eqb_refl.
  cbn [orb andb slice_lo]. f_equal. f_equal.
  rewrite broadcast_id by (unfold img_height in Hh; exact Hh).
  cbn [skipn]. unfold img_height. rewrite firstn_all, zip_with_map_r.
  set (tw := slice_len (img_width dst) c0 c1) in *.
  set (new := zip_with _ (img_rows dst) (img_rows src)).
  assert (Hnew : new = zip_with (fun d s => firstn (slice_lo (img_width dst) c0) d ++ s
                                            ++ skipn (slice_lo (img_width dst) c0 + tw) d)
                                (img_rows dst) (img_rows src)).
  { unfold new.
    apply zip_with_ext with (P := fun _ => True) (Q := fun s => length s = img_width src).
    - intros d s _ Hs. rewrite broadcast_id by lia. unfold splice. now rewrite Hs, Hw.
    - apply Forall_forall. auto.
    - exact Hwf. }
  rewrite Hnew. unfold splice. cbn [firstn app].
  rewrite skipn_all2; [apply app_nil_r |].
  rewrite length_zip_with. unfold img_height in Hh. lia.
Qed.

(** [dst[r0:r1, :] = src] for a source of the width of [dst] and of the
    height of the band. *)
Lemma setitem_rows dst r0 r1 src :
  wf_image dst -> wf_image src ->
  img_width src = img_width dst ->
  img_height src = slice_len (img_height dst) r0 r1 ->
  setitem dst r0 r1 None None src
  = inr (mk_image (img_width dst)
           (firstn (slice_lo (img_height dst) r0) (img_rows dst) ++ img_rows src
            ++ skipn (slice_lo (img_height dst) r0 + slice_len (img_height dst) r0 r1)
                     (img_rows dst))).
Proof.
  intros Hd Hs Hw Hh. unfold setitem.
  rewrite slice_len_all, Hh, Hw. unfold broadcastable. rewrite !Nat.eqb_refl.
  cbn [orb andb slice_lo]. f_equal. f_equal.
  set (th := slice_len (img_height dst) r0 r1) in *.
  set (rlo := slice_lo (img_height dst) r0).
  rewrite broadcast_id by (unfold img_height in Hh; exact Hh).
  rewrite zip_with_map_r.
  pose proof (slice_in_bounds (img_height dst) r0 r1) as Hb. fold th rlo in Hb.
  assert (Hold : Forall (fun d => length d = img_width dst)
                        (firstn th (skipn rlo (img_rows dst)))).
  { apply Forall_firstn_skipn. apply Forall_firstn_skipn. exact Hd. }
  assert (Hlen : length (firstn th (skipn rlo (img_rows dst))) = length (img_rows src)).
  { rewrite length_firstn, length_skipn. unfold img_height in *. lia. }
  set (new := zip_with _ _ (img_rows src)).
  assert (Hnew : new = img_rows src).
  { unfold new.
    rewrite (zip_with_ext _ (fun _ s => s) (fun d => length d = img_width dst)
                          (fun s => length s = img_width src)); try assumption.
    - now apply zip_with_snd.
    - intros d s Hdl Hsl. rewrite broadcast_id by lia. unfold splice.
      cbn [firstn app]. rewrite skipn_all2 by lia. apply app_nil_r. }
  rewrite Hnew. unfold splice. unfold img_height in Hh. now rewrite Hh.
Qed.

(** ** The complement [1 - progress] *)

Lemma binary_round_RU m e c :
  -1074 <= e -> valid c = true -> nonneg_float c ->
  (F2R (Z.pos m) e <= B2R c)%R ->
  valid (binary_round prec emax false m e) = true /\
  nonneg_float (binary_round prec emax false m e) /\
  (B2R (binary_round prec emax false m e) <= B2R c)%R.
Proof.
  intros He Hvc Hnc Hle. unfold binary_round.
  destruct (shl_align_spec m e (fexp prec emax (Z.pos (digits2_pos m) + e))) as [Hez Hmz].
  destruct (shl_align m e _) as [mz ez]. cbn [fst snd] in Hez, Hmz.
  change (Z.pos (digits2_pos m)) with (Zdigits2 (Z.pos m)) in *.
  assert (Hdig : Zdigits2 (Z.pos mz) + ez = Zdigits2 (Z.pos m) + e).
  { rewrite Hmz, Zdigits2_mul_pow2 by lia. lia. }
  assert (Hpre : ez <= fexp prec emax (Zdigits2 (Z.pos mz) + ez)).
  { rewrite Hdig. lia. }
  assert (Hval : F2R (Z.pos mz) ez = F2R (Z.pos m) e).
  { rewrite Hmz, Hez. symmetry. apply F2R_align. lia. }
  apply (round_aux_RU (Z.pos mz) ez loc_Exact c); try assumption; try lia.
  left. split; [reflexivity |]. rewrite Hval. exact Hle.
Qed.

(** For a progress in the unit interval, [1 - progress] is in it too. *)
Lemma complement_unit p :
  valid p = true -> fle (of_int 0) p = true -> fle p (of_int 1) = true ->
  valid (fsub (of_int 1) p) = true /\
  fle (of_int 0) (fsub (of_int 1) p) = true /\
  fle (fsub (of_int 1) p) (of_int 1) = true.
Proof.
  intros Hv H0 H1.
  destruct (unit_interval p Hv H0 H1) as [Hn [Hp0 Hp1]].
  destruct (of_int_nonneg_exact 1 ltac:(lia)) as [Hv1 [Hn1 HB1]].
  assert (Hgoal : valid (fsub (of_int 1) p) = true /\
                  nonneg_float (fsub (of_int 1) p) /\
                  (B2R (fsub (of_int 1) p) <= 1)%R).
  { destruct p as [s | s | | s mp ep]; simpl in Hn; try contradiction.
    - destruct s; (split; [reflexivity | split; [reflexivity |]]);
        change (fsub (of_int 1) _) with (of_int 1); rewrite HB1; lra.
    - subst s.
      change (of_int 1) with (S754_finite false 4503599627370496 (-52)) in *.
      destruct (valid_grid _ _ _ Hv) as [[_ [Hep _]] _].
      pose proof (B2R_aligned false 4503599627370496 (-52) (Z.min (-52) ep) ltac:(lia)) as Hx.
      pose proof (B2R_aligned false mp ep (Z.min (-52) ep) ltac:(lia)) as Hy.
      unfold fsub, SFsub.
      set (ez := Z.min (-52) ep) in *.
      cbn [cond_Zopp] in *.
      set (D := Z.pos (fst (shl_align 4503599627370496 (-52) ez))
                - Z.pos (fst (shl_align mp ep ez))) in *.
      assert (Hdiff : (1 - B2R (S754_finite false mp ep))%R = F2R D ez).
      { rewrite <- HB1, Hx, Hy. unfold D, F2R. rewrite minus_IZR. ring. }
      unfold binary_normalize.
      destruct D as [| d | d] eqn:HD.
      + split; [reflexivity | split; [exact I | simpl; lra]].
      + rewrite <- HB1.
        apply (binary_round_RU d ez (S754_finite false 4503599627370496 (-52)));
          try assumption; try (unfold ez; lia).
        rewrite <- Hdiff, HB1. lra.
      + exfalso. assert (Hneg : (F2R (Z.neg d) ez < 0)%R).
        { unfold F2R. pose proof (bpow_gt_0 ez).
          assert (IZR (Z.neg d) < 0)%R by (apply IZR_lt; lia). nra. }
        lra. }
  destruct Hgoal as [Hvq [Hnq Hq1]].
  split; [exact Hvq |]. split.
  - destruct (fsub (of_int 1) p) as [s | s | | s m e]; simpl in Hnq; try contradiction;
      [destruct s; reflexivity | subst s; reflexivity].
  - apply fle_spec; auto using nonneg_is_finite. now rewrite HB1.
Qed.

(** ** The wipes and the slides on frames of one resolution *)

Lemma slice_lo_from len cut :
  0 <= cut <= Z.of_nat len -> slice_lo len (Some cut) = Z.to_nat cut.
Proof. intros H. unfold slice_lo. now apply norm_index_id. Qed.

Lemma slice_len_from len cut :
  0 <= cut <= Z.of_nat len -> slice_len len (Some cut) None = (len - Z.to_nat cut)%nat.
Proof. intros H. unfold slice_len, slice_hi. now rewrite slice_lo_from. Qed.

Lemma slice_len_upto len cut :
  0 <= cut <= Z.of_nat len -> slice_len len None (Some cut) = Z.to_nat cut.
Proof.
  intros H. unfold slice_len, slice_hi, slice_lo. rewrite norm_index_id by lia. lia.
Qed.

Lemma map_py_slice_all {A : Type} (l : list (list A)) : map (py_slice None None) l = l.
Proof.
  rewrite <- (map_id l) at 2. apply map_ext. intros r. apply py_slice_all.
Qed.

Lemma wipe_right_assignment A B cut :
  wf_image A -> wf_image B -> shape A = shape B ->
  0 <= cut <= Z.of_nat (img_width A) ->
  setitem A None None (Some cut) None (getitem B None None (Some cut) None)
  = inr (left_columns cut B A).
Proof.
  intros HA HB Hs Hcut. apply shape_eq in Hs as [Hh Hw].
  rewrite setitem_columns.
  2: now apply getitem_wf.
  2: now rewrite getitem_height, slice_len_all.
  2: now rewrite getitem_width, Hw.
  unfold left_columns. rewrite Hw. f_equal. f_equal.
  unfold getitem. cbn [img_rows]. rewrite py_slice_all, zip_with_map_r.
  rewrite (zip_with_swap _ (img_rows B) (img_rows A)).
  apply zip_with_ext with (P := fun ra => length ra = img_width A)
                          (Q := fun rb => length rb = img_width B); try assumption.
  intros ra rb Hra Hrb. rewrite <- Hw.
  rewrite slice_lo_from, slice_len_from by lia.
  rewrite py_slice_suffix by lia.
  rewrite (skipn_all2 ra) by lia. now rewrite app_nil_r.
Qed.

Lemma wipe_up_assignment A B cut :
  wf_image A -> wf_image B -> shape A = shape B ->
  0 <= cut <= Z.of_nat (img_height A) ->
  setitem A None (Some cut) None None (getitem B None (Some cut) None None)
  = inr (top_rows cut A B).
Proof.
  intros HA HB Hs Hcut. apply shape_eq in Hs as [Hh Hw].
  rewrite setitem_rows; try assumption.
  2: now apply getitem_wf.
  2: now rewrite getitem_width, slice_len_all.
  2: now rewrite getitem_height, Hh.
  unfold top_rows. f_equal. f_equal.
  unfold getitem. cbn [img_rows slice_lo firstn app]. rewrite map_py_slice_all.
  rewrite slice_len_upto by lia.
  rewrite py_slice_prefix by (unfold img_height in *; lia). reflexivity.
Qed.

Lemma wipe_down_assignment A B cut :
  wf_image A -> wf_image B -> shape A = shape B ->
  0 <= cut <= Z.of_nat (img_height A) ->
  setitem A (Some cut) None None None (getitem B (Some cut) None None None)
  = inr (top_rows cut B A).
Proof.
  intros HA HB Hs Hcut. apply shape_eq in Hs as [Hh Hw].
  rewrite setitem_rows; try assumption.
  2: now apply getitem_wf.
  2: now rewrite getitem_width, slice_len_all.
  2: now rewrite getitem_height, Hh.
  unfold top_rows. rewrite Hw. f_equal. f_equal.
  unfold getitem. cbn [img_rows]. rewrite map_py_slice_all.
  rewrite slice_lo_from, slice_len_from by lia.
  rewrite py_slice_suffix by (unfold img_height in *; lia).
  rewrite (skipn_all2 (img_rows A)) by (unfold img_height; lia).
  now rewrite app_nil_r.
Qed.

Lemma top_rows_none A B : top_rows 0 A B = A.
Proof. unfold top_rows. destruct A; reflexivity. Qed.

Lemma top_rows_all A B :
  shape A = shape B -> top_rows (Z.of_nat (img_height A)) A B = B.
Proof.
  intros Hs. apply shape_eq in Hs as [Hh Hw]. unfold top_rows.
  rewrite Nat2Z.id, Hw. unfold img_height in *.
  rewrite Hh at 1. rewrite firstn_all, skipn_all, app_nil_r. destruct B; reflexivity.
Qed.

Lemma zip_with_zip_r {A B C D E : Type} (f : C -> D -> E) (g : A -> B -> C) (h : B -> D) l l' :
  zip_with f (zip_with g l l') (map h l') = zip_with (fun a b => f (g a b) (h b)) l l'.
Proof.
  revert l'. induction l as [| a t IH]; intros [| b t']; simpl; try reflexivity.
  now rewrite IH.
Qed.

Lemma zip_with_zip_l {A B C D E : Type} (f : C -> D -> E) (g : A -> B -> C) (h : A -> D) l l' :
  zip_with f (zip_with g l l') (map h l) = zip_with (fun a b => f (g a b) (h a)) l l'.
Proof.
  revert l'. induction l as [| a t IH]; intros [| b t']; simpl; try reflexivity.
  now rewrite IH.
Qed.

Lemma map_as_zip {A B C : Type} (f : A -> C) (l : list A) (l' : list B) :
  length l = length l' -> map f l = zip_with (fun a _ => f a) l l'.
Proof.
  revert l'. induction l as [| a t IH]; intros [| b t'] H; simpl in *;
    try reflexivity; try discriminate.
  f_equal. apply IH. lia.
Qed.

Lemma rowwise_ext g g' A B :
  wf_image A -> wf_image B ->
  (forall ra rb, length ra = img_width A -> length rb = img_width B -> g ra rb = g' ra rb) ->
  rowwise g A B = rowwise g' A B.
Proof.
  intros HA HB H. unfold rowwise. f_equal.
  now apply zip_with_ext with (P := fun ra => length ra = img_width A)
                              (Q := fun rb => length rb = img_width B).
Qed.

Lemma rowwise_wf g A B :
  wf_image A -> wf_image B ->
  (forall ra rb, length ra = img_width A -> length rb = img_width B ->
                 length (g ra rb) = img_width A) ->
  wf_image (rowwise g A B).
Proof.
  intros HA HB H. unfold wf_image, rowwise. cbn [img_rows img_width].
  now apply Forall_zip_with with (P := fun ra => length ra = img_width A)
                                 (Q := fun rb => length rb = img_width B).
Qed.

Lemma zeros_like_rowwise A B :
  shape A = shape B ->
  zeros_like A = rowwise (fun ra _ => map (fun _ => black) ra) A B.
Proof.
  intros Hs. apply shape_eq in Hs as [Hh _]. unfold zeros_like, rowwise. f_equal.
  now apply map_as_zip.
Qed.

(** [R[:, c0:c1] = A[:, a0:a1]] and [R[:, c0:c1] = B[:, b0:b1]] for a frame
    [R] given row by row from [A] and [B]. *)
Lemma setitem_rowwise_l g A B c0 c1 a0 a1 :
  wf_image A -> shape A = shape B ->
  slice_len (img_width A) a0 a1 = slice_len (img_width A) c0 c1 ->
  setitem (rowwise g A B) None None c0 c1 (getitem A None None a0 a1)
  = inr (rowwise (fun ra rb => firstn (slice_lo (img_width A) c0) (g ra rb)
                               ++ py_slice a0 a1 ra
                               ++ skipn (slice_lo (img_width A) c0
                                         + slice_len (img_width A) c0 c1) (g ra rb))
                 A B).
Proof.
  intros HA Hs Hlen. apply shape_eq in Hs as [Hh Hw].
  rewrite setitem_columns.
  - unfold rowwise, getitem. cbn [img_rows img_width].
    rewrite py_slice_all, zip_with_zip_l. reflexivity.
  - now apply getitem_wf.
  - rewrite getitem_height, slice_len_all. unfold rowwise, img_height. cbn [img_rows].
    rewrite length_zip_with. unfold img_height in Hh. lia.
  - rewrite getitem_width. exact Hlen.
Qed.

Lemma setitem_rowwise_r g A B c0 c1 b0 b1 :
  wf_image B -> shape A = shape B ->
  slice_len (img_width A) b0 b1 = slice_len (img_width A) c0 c1 ->
  setitem (rowwise g A B) None None c0 c1 (getitem B None None b0 b1)
  = inr (rowwise (fun ra rb => firstn (slice_lo (img_width A) c0) (g ra rb)
                               ++ py_slice b0 b1 rb
                               ++ skipn (slice_lo (img_width A) c0
                                         + slice_len (img_width A) c0 c1) (g ra rb))
                 A B).
Proof.
  intros HB Hs Hlen. apply shape_eq in Hs as [Hh Hw].
  rewrite setitem_columns.
  - unfold rowwise, getitem. cbn [img_rows img_width].
    rewrite py_slice_all, zip_with_zip_r. reflexivity.
  - now apply getitem_wf.
  - rewrite getitem_height, slice_len_all. unfold rowwise, img_height. cbn [img_rows].
    rewrite length_zip_with. unfold img_height in Hh. lia.
  - rewrite getitem_width, <- Hw. exact Hlen.
Qed.

Lemma slide_left_assignment A B offset :
  wf_image A -> wf_image B -> shape A = shape B ->
  0 <= offset <= Z.of_nat (img_width A) ->
  let w := Z.of_nat (img_width A) in
  (result <- (if offset <? w then
                setitem (zeros_like A) None None None (Some (w - offset))
                        (getitem A None None (Some offset) None)
              else inr (zeros_like A)) ;;
   if 0 <? offset then
     setitem result None None (Some (w - offset)) None
             (getitem B None None None (Some offset))
   else inr result)%err
  = inr (slid_left offset A B).
Proof.
  intros HA HB Hs Ho w. pose proof Hs as Hs'. apply shape_eq in Hs' as [Hh Hw].
  rewrite (zeros_like_rowwise A B Hs).
  change (slid_left offset A B)
    with (rowwise (fun ra rb => skipn (Z.to_nat offset) ra ++ firstn (Z.to_nat offset) rb) A B).
  destruct (Z.ltb_spec offset w) as [Hlt | Hge].
  - rewrite setitem_rowwise_l; try assumption.
    2: { rewrite slice_len_from, slice_len_upto by (unfold w in *; lia). unfold w. lia. }
    cbn [ebind]. destruct (Z.ltb_spec 0 offset) as [Hpos | Hzero].
    + rewrite setitem_rowwise_r; try assumption.
      2: { rewrite slice_len_from, slice_len_upto by (unfold w in *; lia). unfold w. lia. }
      f_equal. apply rowwise_ext; try assumption. intros ra rb Hra Hrb.
      unfold w.
      rewrite !slice_lo_from, !slice_len_from, !slice_len_upto by lia.
      cbn [slice_lo firstn app Nat.add].
      rewrite py_slice_suffix, py_slice_prefix by lia.
      set (z := map (fun _ : pixel => black) ra).
      assert (Hz : length z = img_width A) by (unfold z; now rewrite length_map).
      set (n := Z.to_nat offset).
      replace (Z.to_nat (Z.of_nat (img_width A) - offset)) with (img_width A - n)%nat by lia.
      assert (Hn : (0 < n < img_width A)%nat) by lia.
      rewrite firstn_app, length_skipn.
      replace (img_width A - n - (length ra - n))%nat with 0%nat by lia.
      rewrite firstn_all2 by (rewrite length_skipn; lia).
      cbn [firstn]. rewrite app_nil_r.
      rewrite (skipn_all2 (skipn n ra ++ _)); [now rewrite app_nil_r |].
      rewrite length_app, !length_skipn. lia.
    + f_equal. apply rowwise_ext; try assumption. intros ra rb Hra Hrb.
      assert (offset = 0) by lia. subst offset.
      cbn [slice_lo firstn app Z.to_nat skipn]. rewrite app_nil_r.
      rewrite py_slice_suffix by lia. cbn [Z.to_nat skipn].
      rewrite skipn_all2; [now rewrite app_nil_r |].
      rewrite length_map, slice_len_upto by lia. unfold w. lia.
  - assert (offset = w) by lia. subst offset. cbn [ebind].
    destruct (Z.ltb_spec 0 w) as [Hpos | Hzero].
    + rewrite setitem_rowwise_r; try assumption.
      2: { rewrite slice_len_from, slice_len_upto by (unfold w in *; lia). unfold w. lia. }
      f_equal. apply rowwise_ext; try assumption. intros ra rb Hra Hrb.
      rewrite !slice_lo_from, !slice_len_from by (unfold w; lia).
      rewrite py_slice_prefix by (unfold w; lia). unfold w.
      replace (Z.to_nat (Z.of_nat (img_width A) - Z.of_nat (img_width A))) with 0%nat by lia.
      cbn [firstn app]. rewrite Nat2Z.id.
      rewrite !skipn_all2; [now rewrite app_nil_r | lia | rewrite length_map; lia].
    + apply f_equal. apply rowwise_ext; try assumption. intros ra rb Hra Hrb.
      assert (img_width A = 0)%nat by (unfold w in *; lia).
      destruct ra; [| simpl in Hra; lia]. destruct rb; [| simpl in Hrb; lia].
      simpl. now rewrite firstn_nil, skipn_nil.
Qed.

Lemma slide_right_assignment A B offset :
  wf_image A -> wf_image B -> shape A = shape B ->
  0 <= offset <= Z.of_nat (img_width A) ->
  let w := Z.of_nat (img_width A) in
  (result <- (if offset <? w then
                setitem (zeros_like A) None None (Some offset) None
                        (getitem A None None None (Some (w - offset)))
              else inr (zeros_like A)) ;;
   if 0 <? offset then
     setitem result None None None (Some offset)
             (getitem B None None (Some (w - offset)) None)
   else inr result)%err
  = inr (slid_right offset A B).
Proof.
  intros HA HB Hs Ho w. pose proof Hs as Hs'. apply shape_eq in Hs' as [Hh Hw].
  rewrite (zeros_like_rowwise A B Hs).
  change (slid_right offset A B)
    with (rowwise (fun ra rb => skipn (img_width A - Z.to_nat offset) rb
                                ++ firstn (img_width A - Z.to_nat offset) ra) A B).
  set (n := Z.to_nat offset).
  assert (Hk : Z.to_nat (w - offset) = (img_width A - n)%nat) by (unfold w, n; lia).
  destruct (Z.ltb_spec offset w) as [Hlt | Hge].
  - rewrite setitem_rowwise_l; try assumption.
    2: { rewrite slice_len_from, slice_len_upto by (unfold w in *; lia). lia. }
    cbn [ebind]. destruct (Z.ltb_spec 0 offset) as [Hpos | Hzero].
    + rewrite setitem_rowwise_r; try assumption.
      2: { rewrite slice_len_from, slice_len_upto by (unfold w in *; lia). lia. }
      f_equal. apply rowwise_ext; try assumption. intros ra rb Hra Hrb.
      rewrite !slice_lo_from, !slice_len_from, !slice_len_upto by (unfold w in *; lia).
      cbn [slice_lo firstn app Nat.add].
      rewrite py_slice_suffix, py_slice_prefix by (unfold w in *; lia).
      rewrite Hk. fold n.
      set (z := map (fun _ : pixel => black) ra).
      assert (Hz : length z = img_width A) by (unfold z; now rewrite length_map).
      assert (Hn : (0 < n < img_width A)%nat) by (unfold n, w in *; lia).
      rewrite (skipn_all2 z) by lia. rewrite app_nil_r.
      rewrite skipn_app, length_firstn.
      rewrite (skipn_all2 (firstn n z)) by (rewrite length_firstn; lia).
      replace (n - Nat.min n (length z))%nat with 0%nat by lia.
      reflexivity.
    + f_equal. apply rowwise_ext; try assumption. intros ra rb Hra Hrb.
      assert (offset = 0) by lia. subst offset.
      assert (n = 0%nat) by (unfold n; lia).
      rewrite !slice_lo_from, !slice_len_from by (unfold w; lia).
      rewrite py_slice_prefix by (unfold w; lia). rewrite Hk. fold n.
      replace n with 0%nat. cbn [firstn app Nat.add].
      rewrite Nat.sub_0_r, !skipn_all2; [now rewrite app_nil_r | lia | rewrite length_map; lia].
  - assert (offset = w) by lia. subst offset. cbn [ebind].
    assert (Hnw : n = img_width A) by (unfold n, w; lia).
    destruct (Z.ltb_spec 0 w) as [Hpos | Hzero].
    + rewrite setitem_rowwise_r; try assumption.
      2: { rewrite slice_len_from, slice_len_upto by (unfold w in *; lia). lia. }
      f_equal. apply rowwise_ext; try assumption. intros ra rb Hra Hrb.
      cbn [slice_lo firstn app Nat.add].
      rewrite slice_len_upto by (unfold w; lia).
      rewrite py_slice_suffix by (unfold w; lia). rewrite Hk. fold n. rewrite Hnw.
      rewrite Nat.sub_diag. cbn [firstn skipn].
      rewrite skipn_all2; [reflexivity | rewrite length_map; lia].
    + apply f_equal. apply rowwise_ext; try assumption. intros ra rb Hra Hrb.
      assert (img_width A = 0)%nat by (unfold w in *; lia).
      destruct ra; [| simpl in Hra; lia]. destruct rb; [| simpl in Hrb; lia].
      simpl. now rewrite firstn_nil, skipn_nil.
Qed.

(** ** The boundary [int(dim * progress)] *)

Lemma scaled_ends dim :
  0 <= dim < 2 ^ 53 ->
  py_int (fmul (of_int dim) (of_int 0)) = inr 0 /\
  py_int (fmul (of_int dim) (of_int 1)) = inr dim.
Proof.
  intros Hd. destruct (of_int_nonneg_exact dim Hd) as [Hvw [Hnw HBw]].
  destruct (of_int_nonneg_exact 1 ltac:(lia)) as [Hv1 [Hn1 HB1]].
  split.
  - destruct (wipe_cut dim (of_int 0) Hd eq_refl eq_refl eq_refl) as [cut [Hpy _]].
    assert (Hle : (B2R (of_int dim) * B2R (of_int 0) <= B2R (of_int 0))%R)
      by (simpl B2R; lra).
    destruct (fmul_RU (of_int dim) (of_int 0) (of_int 0) Hvw eq_refl eq_refl Hnw I I Hle)
      as [_ [Hnm Hup]].
    destruct (py_int_le _ 0 Hnm Hup) as [k [Hk Hk0]]. rewrite Hk. f_equal. lia.
  - destruct (wipe_cut dim (of_int 1) Hd Hv1 eq_refl eq_refl) as [cut [Hpy [_ Hrange]]].
    assert (Hle : (B2R (of_int dim) <= B2R (of_int dim) * B2R (of_int 1))%R)
      by (rewrite HB1; lra).
    destruct (fmul_RD (of_int dim) (of_int 1) (of_int dim) Hvw Hv1 Hvw Hnw Hn1 Hnw Hle)
      as [Hinf | [_ [Hnm Hlo]]].
    + rewrite Hinf in Hpy. discriminate.
    + rewrite HBw in Hlo. destruct (py_int_ge _ dim Hnm Hlo) as [k [Hk Hkw]].
      rewrite Hpy in Hk. injection Hk as <-. rewrite Hpy. f_equal. lia.
Qed.

Lemma floor_cut_mono dim p1 p2 cut1 cut2 :
  0 <= dim < 2 ^ 53 ->
  valid p1 = true -> valid p2 = true ->
  fle (of_int 0) p1 = true -> fle p1 p2 = true -> fle p2 (of_int 1) = true ->
  floor (fmul (of_int dim) p1) = Some cut1 ->
  floor (fmul (of_int dim) p2) = Some cut2 ->
  cut1 <= cut2.
Proof.
  intros Hd Hv1 Hv2 H0 H12 H1 Hf1 Hf2.
  assert (H0' : fle (of_int 0) p2 = true).
  { destruct p1 as [s1 | [|] | | [|] m1 e1]; try discriminate;
      destruct p2 as [s2 | [|] | | [|] m2 e2]; try discriminate; reflexivity. }
  assert (H1' : fle p1 (of_int 1) = true).
  { destruct (unit_interval p2 Hv2 H0' H1) as [Hn2 [_ Hp2]].
    destruct (unit_interval p2 Hv2 H0' H1) as [_ _].
    assert (Hn1 : nonneg_float p1).
    { destruct p1 as [s | [|] | | [|] m e]; try discriminate; simpl; auto.
      destruct p2 as [s2 | [|] | | [|] m2 e2]; discriminate. }
    destruct (of_int_nonneg_exact 1 ltac:(lia)) as [Hvo [Hno HBo]].
    apply fle_spec; auto using nonneg_is_finite.
    apply fle_spec in H12; auto using nonneg_is_finite. rewrite HBo. lra. }
  destruct (wipe_cut dim p1 Hd Hv1 H0 H1') as [c1 [Hpy1 [Hfl1 _]]].
  destruct (wipe_cut dim p2 Hd Hv2 H0' H1) as [c2 [Hpy2 [Hfl2 _]]].
  rewrite Hf1 in Hfl1. rewrite Hf2 in Hfl2.
  injection Hfl1 as <-. injection Hfl2 as <-.
  exact (wipe_cut_mono dim p1 p2 cut1 cut2 Hd Hv1 Hv2 H0 H12 H1 Hpy1 Hpy2).
Qed.

Lemma complement_ends :
  fsub (of_int 1) (of_int 0) = of_int 1 /\ fsub (of_int 1) (of_int 1) = of_int 0.
Proof. split; vm_compute; reflexivity. Qed.

Lemma apply_transition_wipe_right E A B progress :
  apply_transition E A B 2 progress
  = (cut <- py_int (fmul (of_int (Z.of_nat (img_width A))) (fsub (of_int 1) progress)) ;;
     setitem A None None (Some cut) None (getitem B None None (Some cut) None))%err.
Proof. reflexivity. Qed.

Lemma apply_transition_wipe_up E A B progress :
  apply_transition E A B 3 progress
  = (cut <- py_int (fmul (of_int (Z.of_nat (img_height A))) progress) ;;
     setitem A None (Some cut) None None (getitem B None (Some cut) None None))%err.
Proof. reflexivity. Qed.

Lemma apply_transition_wipe_down E A B progress :
  apply_transition E A B 4 progress
  = (cut <- py_int (fmul (of_int (Z.of_nat (img_height A))) (fsub (of_int 1) progress)) ;;
     setitem A (Some cut) None None None (getitem B (Some cut) None None None))%err.
Proof. reflexivity. Qed.

Lemma apply_transition_slide_left E A B progress :
  apply_transition E A B 7 progress
  = (let w := Z.of_nat (img_width A) in
     offset <- py_int (fmul (of_int w) progress) ;;
     result <- (if offset <? w then
                  setitem (zeros_like A) None None None (Some (w - offset))
                          (getitem A None None (Some offset) None)
                else inr (zeros_like A)) ;;
     if 0 <? offset then
       setitem result None None (Some (w - offset)) None
               (getitem B None None None (Some offset))
     else inr result)%err.
Proof. reflexivity. Qed.

Lemma apply_transition_slide_right E A B progress :
  apply_transition E A B 8 progress
  = (let w := Z.of_nat (img_width A) in
     offset <- py_int (fmul (of_int w) progress) ;;
     result <- (if offset <? w then
                  setitem (zeros_like A) None None (Some offset) None
                          (getitem A None None None (Some (w - offset)))
                else inr (zeros_like A)) ;;
     if 0 <? offset then
       setitem result None None None (Some offset)
               (getitem B None None (Some (w - offset)) None)
     else inr result)%err.
Proof. reflexivity. Qed.

Lemma rowwise_fst g A B :
  wf_image A -> wf_image B -> shape A = shape B ->
  (forall ra rb, length ra = img_width A -> length rb = img_width B -> g ra rb = ra) ->
  rowwise g A B = A.
Proof.
  intros HA HB Hs Hg. rewrite (rowwise_ext g (fun ra _ => ra)) by assumption.
  apply shape_eq in Hs as [Hh _]. unfold rowwise.
  rewrite zip_with_fst by exact Hh. destruct A; reflexivity.
Qed.

Lemma rowwise_snd g A B :
  wf_image A -> wf_image B -> shape A = shape B ->
  (forall ra rb, length ra = img_width A -> length rb = img_width B -> g ra rb = rb) ->
  rowwise g A B = B.
Proof.
  intros HA HB Hs Hg. rewrite (rowwise_ext g (fun _ rb => rb)) by assumption.
  apply shape_eq in Hs as [Hh Hw]. unfold rowwise.
  rewrite zip_with_snd by exact Hh. rewrite Hw. destruct B; reflexivity.
Qed.

Lemma slid_left_ends A B :
  wf_image A -> wf_image B -> shape A = shape B ->
  slid_left 0 A B = A /\ slid_left (Z.of_nat (img_width A)) A B = B.
Proof.
  intros HA HB Hs. split.
  - apply (rowwise_fst _ A B HA HB Hs). intros ra rb _ _. simpl. apply app_nil_r.
  - apply (rowwise_snd _ A B HA HB Hs). intros ra rb Hra Hrb.
    pose proof (shape_eq _ _ Hs) as [_ Hw].
    rewrite Nat2Z.id, skipn_all2, firstn_all2 by lia. reflexivity.
Qed.

Lemma slid_right_ends A B :
  wf_image A -> wf_image B -> shape A = shape B ->
  slid_right 0 A B = A /\ slid_right (Z.of_nat (img_width A)) A B = B.
Proof.
  intros HA HB Hs. pose proof (shape_eq _ _ Hs) as [_ Hw]. split.
  - apply (rowwise_fst _ A B HA HB Hs). intros ra rb Hra Hrb.
    cbn [Z.to_nat]. rewrite Nat.sub_0_r, skipn_all2, firstn_all2 by lia. reflexivity.
  - apply (rowwise_snd _ A B HA HB Hs). intros ra rb Hra Hrb.
    rewrite Nat2Z.id, Nat.sub_diag. simpl. apply app_nil_r.
Qed.

(** Wipe to the right.  For two rectangular frames [A] and [B] of one
    resolution and of width [w], kind 2 returns [A] at progress 0.0 and [B]
    at progress 1.0; for every progress [p] from 0.0 to 1.0 it returns the
    frame whose columns from [cut = floor(w * (1 - p))] on are those of [B]
    and whose first [cut] columns are those of [A], with [0 <= cut <= w]. *)
Theorem wipe_right_columns E A B :
  wf_image A -> wf_image B -> shape A = shape B ->
  Z.of_nat (img_width A) < 2 ^ 53 ->
  let w := Z.of_nat (img_width A) in
  apply_transition E A B 2 (of_int 0) = inr A /\
  apply_transition E A B 2 (of_int 1) = inr B /\
  (forall p,
      valid p = true -> fle (of_int 0) p = true -> fle p (of_int 1) = true ->
      exists cut,
        floor (fmul (of_int w) (fsub (of_int 1) p)) = Some cut /\ 0 <= cut <= w /\
        apply_transition E A B 2 p = inr (left_columns cut B A)).
Proof.
  intros HA HB Hs Hw53 w.
  assert (Hw : 0 <= w < 2 ^ 53) by (unfold w; lia).
  pose proof (shape_eq _ _ Hs) as [_ Hwid].
  destruct (scaled_ends w Hw) as [Hend0 Hend1].
  destruct complement_ends as [Hc0 Hc1].
  split; [| split].
  - rewrite apply_transition_wipe_right. fold w. rewrite Hc0, Hend1. cbn [ebind].
    rewrite wipe_right_assignment by (try assumption; unfold w; lia).
    f_equal. unfold w. rewrite Hwid. apply left_columns_all; auto.
  - rewrite apply_transition_wipe_right. fold w. rewrite Hc1, Hend0. cbn [ebind].
    rewrite wipe_right_assignment by (try assumption; lia).
    f_equal. apply left_columns_none; auto.
  - intros p Hv H0 H1.
    destruct (complement_unit p Hv H0 H1) as [Hvq [Hq0 Hq1]].
    destruct (wipe_cut w (fsub (of_int 1) p) Hw Hvq Hq0 Hq1) as [cut [Hpy [Hfl Hrange]]].
    exists cut. split; [exact Hfl |]. split; [exact Hrange |].
    rewrite apply_transition_wipe_right. fold w. rewrite Hpy. cbn [ebind].
    now apply wipe_right_assignment.
Qed.

(** Wipe upwards.  For two rectangular frames [A] and [B] of one resolution
    and of height [h], kind 3 returns [A] at progress 0.0 and [B] at
    progress 1.0; for every progress [p] from 0.0 to 1.0 it returns the
    frame whose top [floor(h * p)] rows are those of [B] and whose other
    rows are those of [A]; the boundary does not decrease when [p] grows. *)
Theorem wipe_up_rows E A B :
  wf_image A -> wf_image B -> shape A = shape B ->
  Z.of_nat (img_height A) < 2 ^ 53 ->
  let h := Z.of_nat (img_height A) in
  apply_transition E A B 3 (of_int 0) = inr A /\
  apply_transition E A B 3 (of_int 1) = inr B /\
  (forall p,
      valid p = true -> fle (of_int 0) p = true -> fle p (of_int 1) = true ->
      exists cut,
        floor (fmul (of_int h) p) = Some cut /\ 0 <= cut <= h /\
        apply_transition E A B 3 p = inr (top_rows cut A B)) /\
  (forall p1 p2 cut1 cut2,
      valid p1 = true -> valid p2 = true ->
      fle (of_int 0) p1 = true -> fle p1 p2 = true -> fle p2 (of_int 1) = true ->
      floor (fmul (of_int h) p1) = Some cut1 ->
      floor (fmul (of_int h) p2) = Some cut2 ->
      cut1 <= cut2).
Proof.
  intros HA HB Hs Hh53 h.
  assert (Hh : 0 <= h < 2 ^ 53) by (unfold h; lia).
  destruct (scaled_ends h Hh) as [Hend0 Hend1].
  split; [| split; [| split]].
  - rewrite apply_transition_wipe_up. fold h. rewrite Hend0. cbn [ebind].
    rewrite wipe_up_assignment by (try assumption; lia).
    f_equal. apply top_rows_none.
  - rewrite apply_transition_wipe_up. fold h. rewrite Hend1. cbn [ebind].
    rewrite wipe_up_assignment by (try assumption; unfold h; lia).
    f_equal. now apply top_rows_all.
  - intros p Hv H0 H1.
    destruct (wipe_cut h p Hh Hv H0 H1) as [cut [Hpy [Hfl Hrange]]].
    exists cut. split; [exact Hfl |]. split; [exact Hrange |].
    rewrite apply_transition_wipe_up. fold h. rewrite Hpy. cbn [ebind].
    now apply wipe_up_assignment.
  - intros p1 p2 cut1 cut2. now apply floor_cut_mono.
Qed.

(** Wipe downwards.  For two rectangular frames [A] and [B] of one
    resolution and of height [h], kind 4 returns [A] at progress 0.0 and
    [B] at progress 1.0; for every progress [p] from 0.0 to 1.0 it returns
    the frame whose rows from [cut = floor(h * (1 - p))] on are those of [B]
    and whose first [cut] rows are those of [A], with [0 <= cut <= h]. *)
Theorem wipe_down_rows E A B :
  wf_image A -> wf_image B -> shape A = shape B ->
  Z.of_nat (img_height A) < 2 ^ 53 ->
  let h := Z.of_nat (img_height A) in
  apply_transition E A B 4 (of_int 0) = inr A /\
  apply_transition E A B 4 (of_int 1) = inr B /\
  (forall p,
      valid p = true -> fle (of_int 0) p = true -> fle p (of_int 1) = true ->
      exists cut,
        floor (fmul (of_int h) (fsub (of_int 1) p)) = Some cut /\ 0 <= cut <= h /\
        apply_transition E A B 4 p = inr (top_rows cut B A)).
Proof.
  intros HA HB Hs Hh53 h.
  assert (Hh : 0 <= h < 2 ^ 53) by (unfold h; lia).
  pose proof (shape_eq _ _ Hs) as [Hhei _].
  destruct (scaled_ends h Hh) as [Hend0 Hend1].
  destruct complement_ends as [Hc0 Hc1].
  split; [| split].
  - rewrite apply_transition_wipe_down. fold h. rewrite Hc0, Hend1. cbn [ebind].
    rewrite wipe_down_assignment by (try assumption; unfold h; lia).
    f_equal. unfold h. rewrite Hhei. now apply top_rows_all.
  - rewrite apply_transition_wipe_down. fold h. rewrite Hc1, Hend0. cbn [ebind].
    rewrite wipe_down_assignment by (try assumption; lia).
    f_equal. apply top_rows_none.
  - intros p Hv H0 H1.
    destruct (complement_unit p Hv H0 H1) as [Hvq [Hq0 Hq1]].
    destruct (wipe_cut h (fsub (of_int 1) p) Hh Hvq Hq0 Hq1) as [cut [Hpy [Hfl Hrange]]].
    exists cut. split; [exact Hfl |]. split; [exact Hrange |].
    rewrite apply_transition_wipe_down. fold h. rewrite Hpy. cbn [ebind].
    now apply wipe_down_assignment.
Qed.

(** Slide to the left.  For two rectangular frames [A] and [B] of one
    resolution and of width [w], kind 7 returns [A] at progress 0.0 and [B]
    at progress 1.0; for every progress [p] from 0.0 to 1.0 each row of the
    result is the row of [A] without its first [offset = floor(w * p)]
    pixels, followed by the first [offset] pixels of the row of [B]: no
    pixel of the black canvas is left.  The offset does not decrease when
    [p] grows. *)
Theorem slide_left_columns E A B :
  wf_image A -> wf_image B -> shape A = shape B ->
  Z.of_nat (img_width A) < 2 ^ 53 ->
  let w := Z.of_nat (img_width A) in
  apply_transition E A B 7 (of_int 0) = inr A /\
  apply_transition E A B 7 (of_int 1) = inr B /\
  (forall p,
      valid p = true -> fle (of_int 0) p = true -> fle p (of_int 1) = true ->
      exists offset,
        floor (fmul (of_int w) p) = Some offset /\ 0 <= offset <= w /\
        apply_transition E A B 7 p = inr (slid_left offset A B)) /\
  (forall p1 p2 offset1 offset2,
      valid p1 = true -> valid p2 = true ->
      fle (of_int 0) p1 = true -> fle p1 p2 = true -> fle p2 (of_int 1) = true ->
      floor (fmul (of_int w) p1) = Some offset1 ->
      floor (fmul (of_int w) p2) = Some offset2 ->
      offset1 <= offset2).
Proof.
  intros HA HB Hs Hw53 w.
  assert (Hw : 0 <= w < 2 ^ 53) by (unfold w; lia).
  destruct (scaled_ends w Hw) as [Hend0 Hend1].
  destruct (slid_left_ends A B HA HB Hs) as [Hnone Hall].
  assert (Hgen : forall offset p,
             py_int (fmul (of_int w) p) = inr offset -> 0 <= offset <= w ->
             apply_transition E A B 7 p = inr (slid_left offset A B)).
  { intros offset p Hpy Hrange. rewrite apply_transition_slide_left.
    cbv zeta. fold w. rewrite Hpy. cbn [ebind].
    now apply slide_left_assignment. }
  split; [| split; [| split]].
  - rewrite (Hgen 0 _ Hend0) by lia. now rewrite Hnone.
  - rewrite (Hgen w _ Hend1) by lia. unfold w. now rewrite Hall.
  - intros p Hv H0 H1.
    destruct (wipe_cut w p Hw Hv H0 H1) as [offset [Hpy [Hfl Hrange]]].
    exists offset. split; [exact Hfl |]. split; [exact Hrange |]. now apply Hgen.
  - intros p1 p2 o1 o2. now apply floor_cut_mono.
Qed.

(** Slide to the right.  For two rectangular frames [A] and [B] of one
    resolution and of width [w], kind 8 returns [A] at progress 0.0 and [B]
    at progress 1.0; for every progress [p] from 0.0 to 1.0 each row of the
    result is the last [offset = floor(w * p)] pixels of the row of [B],
    followed by the first [w - offset] pixels of the row of [A].  The offset
    does not decrease when [p] grows. *)
Theorem slide_right_columns E A B :
  wf_image A -> wf_image B -> shape A = shape B ->
  Z.of_nat (img_width A) < 2 ^ 53 ->
  let w := Z.of_nat (img_width A) in
  apply_transition E A B 8 (of_int 0) = inr A /\
  apply_transition E A B 8 (of_int 1) = inr B /\
  (forall p,
      valid p = true -> fle (of_int 0) p = true -> fle p (of_int 1) = true ->
      exists offset,
        floor (fmul (of_int w) p) = Some offset /\ 0 <= offset <= w /\
        apply_transition E A B 8 p = inr (slid_right offset A B)) /\
  (forall p1 p2 offset1 offset2,
      valid p1 = true -> valid p2 = true ->
      fle (of_int 0) p1 = true -> fle p1 p2 = true -> fle p2 (of_int 1) = true ->
      floor (fmul (of_int w) p1) = Some offset1 ->
      floor (fmul (of_int w) p2) = Some offset2 ->
      offset1 <= offset2).
Proof.
  intros HA HB Hs Hw53 w.
  assert (Hw : 0 <= w < 2 ^ 53) by (unfold w; lia).
  destruct (scaled_ends w Hw) as [Hend0 Hend1].
  destruct (slid_right_ends A B HA HB Hs) as [Hnone Hall].
  assert (Hgen : forall offset p,
             py_int (fmul (of_int w) p) = inr offset -> 0 <= offset <= w ->
             apply_transition E A B 8 p = inr (slid_right offset A B)).
  { intros offset p Hpy Hrange. rewrite apply_transition_slide_right.
    cbv zeta. fold w. rewrite Hpy. cbn [ebind].
    now apply slide_right_assignment. }
  split; [| split; [| split]].
  - rewrite (Hgen 0 _ Hend0) by lia. now rewrite Hnone.
  - rewrite (Hgen w _ Hend1) by lia. unfold w. now rewrite Hall.
  - intros p Hv H0 H1.
    destruct (wipe_cut w p Hw Hv H0 H1) as [offset [Hpy [Hfl Hrange]]].
    exists offset. split; [exact Hfl |]. split; [exact Hrange |]. now apply Hgen.
  - intros p1 p2 o1 o2. now apply floor_cut_mono.
Qed.

(** ** Transitions that cannot fail *)

Lemma apply_transition_fallback E A B kind progress :
  kind <= 0 \/ 8 < kind ->
  apply_transition E A B kind progress = fade A B progress.
Proof.
  intros Hkind. unfold apply_transition. destruct (shape A) as [h w].
  destruct (Z.eqb_spec kind 0); [reflexivity |].
  repeat match goal with
         | |- context [?k =? ?c] => destruct (Z.eqb_spec k c); [lia |]
         end.
  reflexivity.
Qed.

Lemma apply_transition_plain E E' A B kind progress :
  kind <> 5 -> kind <> 6 ->
  apply_transition E A B kind progress = apply_transition E' A B kind progress.
Proof.
  intros H5 H6. unfold apply_transition. destruct (shape A) as [h w].
  repeat match goal with
         | |- context [?k =? ?c] => destruct (Z.eqb_spec k c); [try reflexivity; lia |]
         end.
  reflexivity.
Qed.

Lemma plain_transition_frame E A B kind p :
  wf_image A -> wf_image B -> shape A = shape B ->
  Z.of_nat (img_height A) < 2 ^ 53 -> Z.of_nat (img_width A) < 2 ^ 53 ->
  valid p = true -> fle (of_int 0) p = true -> fle p (of_int 1) = true ->
  kind <> 5 -> kind <> 6 ->
  exists r, apply_transition E A B kind p = inr r.
Proof.
  intros HA HB Hs Hh53 Hw53 Hv H0 H1 H5 H6.
  assert (Hfade : exists r, fade A B p = inr r).
  { unfold fade, addWeighted. rewrite (same_shape_true _ _ Hs). eauto. }
  destruct (Z_le_gt_dec kind 0) as [Hle | Hgt];
    [rewrite apply_transition_fallback by lia; exact Hfade |].
  destruct (Z_le_gt_dec kind 8) as [Hle8 | Hgt8];
    [| rewrite apply_transition_fallback by lia; exact Hfade].
  assert (Hk : kind = 1 \/ kind = 2 \/ kind = 3 \/ kind = 4 \/ kind = 7 \/ kind = 8)
    by lia.
  assert (Hw : 0 <= Z.of_nat (img_width A) < 2 ^ 53) by lia.
  assert (Hh : 0 <= Z.of_nat (img_height A) < 2 ^ 53) by lia.
  destruct (complement_unit p Hv H0 H1) as [Hvq [Hq0 Hq1]].
  destruct Hk as [-> | [-> | [-> | [-> | [-> | ->]]]]].
  - destruct (wipe_cut _ p Hw Hv H0 H1) as [cut [Hpy [_ Hrange]]].
    rewrite apply_transition_wipe_left, Hpy. cbn [ebind].
    rewrite wipe_left_assignment by assumption. eauto.
  - destruct (wipe_cut _ _ Hw Hvq Hq0 Hq1) as [cut [Hpy [_ Hrange]]].
    rewrite apply_transition_wipe_right, Hpy. cbn [ebind].
    rewrite wipe_right_assignment by assumption. eauto.
  - destruct (wipe_cut _ p Hh Hv H0 H1) as [cut [Hpy [_ Hrange]]].
    rewrite apply_transition_wipe_up, Hpy. cbn [ebind].
    rewrite wipe_up_assignment by assumption. eauto.
  - destruct (wipe_cut _ _ Hh Hvq Hq0 Hq1) as [cut [Hpy [_ Hrange]]].
    rewrite apply_transition_wipe_down, Hpy. cbn [ebind].
    rewrite wipe_down_assignment by assumption. eauto.
  - destruct (wipe_cut _ p Hw Hv H0 H1) as [cut [Hpy [_ Hrange]]].
    rewrite apply_transition_slide_left. cbv zeta. rewrite Hpy. cbn [ebind].
    rewrite slide_left_assignment by assumption. eauto.
  - destruct (wipe_cut _ p Hw Hv H0 H1) as [cut [Hpy [_ Hrange]]].
    rewrite apply_transition_slide_right. cbv zeta. rewrite Hpy. cbn [ebind].
    rewrite slide_right_assignment by assumption. eauto.
Qed.

(** Every transition but the two zooms, which depend on [cv2.resize],
    returns a frame for two rectangular frames of one resolution and a
    progress from 0.0 to 1.0: no exception is raised, whatever the kind
    (the unrecognised ones included), and the frame returned has the
    resolution of the two frames. *)
Theorem plain_transitions_return E A B kind p :
  wf_image A -> wf_image B -> shape A = shape B ->
  Z.of_nat (img_height A) < 2 ^ 53 -> Z.of_nat (img_width A) < 2 ^ 53 ->
  valid p = true -> fle (of_int 0) p = true -> fle p (of_int 1) = true ->
  kind <> 5 -> kind <> 6 ->
  exists r, apply_transition E A B kind p = inr r /\
            shape r = shape A /\ wf_image r.
Proof.
  intros HA HB Hs Hh53 Hw53 Hv H0 H1 H5 H6.
  destruct (plain_transition_frame E A B kind p HA HB Hs Hh53 Hw53 Hv H0 H1 H5 H6)
    as [r Hr]. exists r. split; [exact Hr |].
  rewrite (apply_transition_plain E sample_externals) in Hr by assumption.
  exact (apply_transition_shape sample_externals A B kind p r
           sample_resize_ok Hs HA HB Hr).
Qed.

(** ** The zooms at full size *)

Lemma py_slice_window_all {A : Type} (l : list A) n :
  Z.of_nat (length l) = n -> py_slice (Some 0) (Some n) l = l.
Proof.
  intros Hn. unfold py_slice, slice_len, slice_hi, slice_lo.
  rewrite !norm_index_id by lia. cbn [Z.to_nat skipn]. apply firstn_all2. lia.
Qed.

Lemma getitem_full S h w :
  wf_image S -> shape S = (h, w) ->
  getitem S (Some 0) (Some h) (Some 0) (Some w) = S.
Proof.
  intros HS Hs. unfold shape in Hs. injection Hs as Hh Hw.
  unfold getitem. rewrite py_slice_window_all by exact Hh.
  replace (slice_len (img_width S) (Some 0) (Some w)) with (img_width S).
  2: { unfold slice_len, slice_hi, slice_lo. rewrite !norm_index_id by lia. lia. }
  replace (map (py_slice (Some 0) (Some w)) (img_rows S)) with (img_rows S);
    [destruct S; reflexivity |].
  rewrite <- (map_id (img_rows S)) at 1. apply map_ext_Forall.
  eapply Forall_impl; [| exact HS]. intros r Hr. cbv beta in Hr |- *.
  symmetry. apply py_slice_window_all. lia.
Qed.

Lemma setitem_full dst src h w :
  wf_image dst -> wf_image src -> shape dst = (h, w) -> shape src = (h, w) ->
  setitem dst (Some 0) (Some h) (Some 0) (Some w) src = inr src.
Proof.
  intros Hd Hsrc Hsd Hss. unfold shape in Hsd, Hss.
  injection Hsd as Hhd Hwd. injection Hss as Hhs Hws.
  assert (Heq : setitem dst (Some 0) (Some h) (Some 0) (Some w) src
                = setitem dst None None None None src).
  { unfold setitem, slice_len, slice_hi, slice_lo.
    rewrite !norm_index_id by lia. replace (Z.to_nat h) with (img_height dst) by lia.
    replace (Z.to_nat w) with (img_width dst) by lia. reflexivity. }
  rewrite Heq, setitem_rows; try assumption; try (rewrite slice_len_all); try lia.
  cbn [slice_lo firstn app Nat.add].
  rewrite skipn_all2 by (unfold img_height; lia). rewrite app_nil_r.
  replace (img_width dst) with (img_width src) by lia. destruct src; reflexivity.
Qed.

Lemma zoom_full_size E A B fg bg progress :
  resize_ok E -> wf_image A -> wf_image bg -> shape bg = shape A ->
  10 <= Z.of_nat (img_height A) < 2 ^ 53 -> 10 <= Z.of_nat (img_width A) < 2 ^ 53 ->
  zoom E A B fg bg (of_int 1) progress
  = cv2_resize E fg (Z.of_nat (img_width A)) (Z.of_nat (img_height A)).
Proof.
  intros HE HA Hbg Hsbg Hh Hw. unfold zoom, shape.
  set (h := Z.of_nat (img_height A)) in *. set (w := Z.of_nat (img_width A)) in *.
  change (flt (of_int 1) (ratio 1 10)) with false. cbv iota.
  destruct (scaled_ends w ltac:(lia)) as [_ ->].
  destruct (scaled_ends h ltac:(lia)) as [_ ->]. cbn [ebind].
  rewrite !Z.max_l by lia.
  destruct (cv2_resize E fg w h) as [e | scaled] eqn:Hres; [reflexivity |].
  cbn [ebind]. destruct (HE _ _ _ _ Hres) as [Hss Hswf].
  rewrite !Z.add_0_l, !Z.min_id.
  change (0 =? 0) with true. cbv iota.
  rewrite !Z.sub_0_r, !Z.sub_diag. change (0 / 2) with 0. rewrite !Z.add_0_l.
  rewrite getitem_full by assumption.
  rewrite (setitem_full bg scaled h w); try assumption; reflexivity.
Qed.

(** The zooms at full size.  For two rectangular frames of one resolution,
    at least 10 pixels high and wide, the last step of a zoom-in (progress
    1.0) is the whole next frame and the first step of a zoom-out (progress
    0.0) is the whole previous frame, each as [cv2.resize] returns it at the
    size of the frames; an error of [cv2.resize] is the only one raised. *)
Theorem zoom_ends E A B :
  resize_ok E -> wf_image A -> wf_image B -> shape A = shape B ->
  10 <= Z.of_nat (img_height A) < 2 ^ 53 -> 10 <= Z.of_nat (img_width A) < 2 ^ 53 ->
  apply_transition E A B 5 (of_int 1)
  = cv2_resize E B (Z.of_nat (img_width A)) (Z.of_nat (img_height A)) /\
  apply_transition E A B 6 (of_int 0)
  = cv2_resize E A (Z.of_nat (img_width A)) (Z.of_nat (img_height A)).
Proof.
  intros HE HA HB Hs Hh Hw. split.
  - change (apply_transition E A B 5 (of_int 1))
      with (zoom E A B B A (of_int 1) (of_int 1)).
    now apply zoom_full_size.
  - change (apply_transition E A B 6 (of_int 0))
      with (zoom E A B A B (fsub (of_int 1) (of_int 0)) (of_int 0)).
    destruct complement_ends as [-> _].
    apply zoom_full_size; auto.
Qed.

Lemma zoom_factor_unit zf :
  valid zf = true -> fle (of_int 0) zf = true -> fle zf (of_int 1) = true ->
  let zoom_factor := if flt zf (ratio 1 10) then ratio 1 10 else zf in
  valid zoom_factor = true /\ fle (of_int 0) zoom_factor = true /\
  fle zoom_factor (of_int 1) = true.
Proof.
  intros Hv H0 H1. cbv zeta. destruct (flt zf (ratio 1 10)).
  - repeat split; vm_compute; reflexivity.
  - auto.
Qed.

Lemma zoom_returns_or_resize_fails E A B fg bg zf progress :
  wf_image A -> wf_image B -> shape A = shape B ->
  Z.of_nat (img_height A) < 2 ^ 53 -> Z.of_nat (img_width A) < 2 ^ 53 ->
  valid zf = true -> fle (of_int 0) zf = true -> fle zf (of_int 1) = true ->
  (exists r, zoom E A B fg bg zf progress = inr r) \/
  (exists scaled_w scaled_h e,
      10 <= scaled_w /\ 10 <= scaled_h /\
      cv2_resize E fg scaled_w scaled_h = inl e /\
      zoom E A B fg bg zf progress = inl e).
Proof.
  intros HA HB Hs Hh Hw Hv H0 H1. unfold zoom, shape.
  destruct (zoom_factor_unit zf Hv H0 H1) as [Hvz [Hz0 Hz1]]. cbv zeta in Hvz, Hz0, Hz1.
  set (zoom_factor := if flt zf (ratio 1 10) then ratio 1 10 else zf) in *.
  destruct (wipe_cut (Z.of_nat (img_width A)) zoom_factor ltac:(lia) Hvz Hz0 Hz1)
    as [sw [-> _]].
  destruct (wipe_cut (Z.of_nat (img_height A)) zoom_factor ltac:(lia) Hvz Hz0 Hz1)
    as [sh [-> _]].
  cbn [ebind].
  destruct (cv2_resize E fg (Z.max sw 10) (Z.max sh 10)) as [e | scaled] eqn:Hres.
  - right. exists (Z.max sw 10), (Z.max sh 10), e.
    repeat split; try lia; try assumption.
  - left. cbn [ebind].
    match goal with
    | |- exists r, match ?s with _ => _ end = inr r => destruct s as [e | r] eqn:Hset
    end; [| eauto].
    unfold setitem in Hset.
    match type of Hset with
    | (if ?c then _ else _) = _ => destruct c; [discriminate |]
    end.
    injection Hset as <-.
    unfold fade, addWeighted. rewrite (same_shape_true _ _ Hs). eauto.
Qed.

(** The zooms.  For two rectangular frames of one resolution and a progress
    from 0.0 to 1.0, a zoom-in or a zoom-out returns a frame of the
    resolution of the two frames, unless [cv2.resize] itself raises (it is
    called for a size of at least 10 by 10), in which case that error is
    raised: the assignment of the scaled image never makes the transition
    fail. *)
Theorem zoom_returns E A B kind p :
  resize_ok E -> wf_image A -> wf_image B -> shape A = shape B ->
  Z.of_nat (img_height A) < 2 ^ 53 -> Z.of_nat (img_width A) < 2 ^ 53 ->
  valid p = true -> fle (of_int 0) p = true -> fle p (of_int 1) = true ->
  kind = 5 \/ kind = 6 ->
  (exists r, apply_transition E A B kind p = inr r /\
             shape r = shape A /\ wf_image r) \/
  (exists fg scaled_w scaled_h e,
      10 <= scaled_w /\ 10 <= scaled_h /\
      cv2_resize E fg scaled_w scaled_h = inl e /\
      apply_transition E A B kind p = inl e).
Proof.
  intros HE HA HB Hs Hh Hw Hv H0 H1 Hkind.
  assert (H : (exists r, apply_transition E A B kind p = inr r) \/
              (exists fg scaled_w scaled_h e,
                  10 <= scaled_w /\ 10 <= scaled_h /\
                  cv2_resize E fg scaled_w scaled_h = inl e /\
                  apply_transition E A B kind p = inl e)).
  { destruct Hkind as [-> | ->].
    - change (apply_transition E A B 5 p) with (zoom E A B B A p p).
      destruct (zoom_returns_or_resize_fails E A B B A p p HA HB Hs Hh Hw Hv H0 H1)
        as [Hr | [sw [sh [e He]]]]; [left; exact Hr | right; exists B, sw, sh, e; exact He].
    - change (apply_transition E A B 6 p) with (zoom E A B A B (fsub (of_int 1) p) p).
      destruct (complement_unit p Hv H0 H1) as [Hvq [Hq0 Hq1]].
      destruct (zoom_returns_or_resize_fails E A B A B (fsub (of_int 1) p) p
                  HA HB Hs Hh Hw Hvq Hq0 Hq1)
        as [Hr | [sw [sh [e He]]]]; [left; exact Hr | right; exists A, sw, sh, e; exact He]. }
  destruct H as [[r Hr] | H]; [left | right; exact H].
  exists r. split; [exact Hr |].
  exact (apply_transition_shape E A B kind p r HE Hs HA HB Hr).
Qed.

(** ** Runs that end before the first frame *)

(** An empty list of images.  [create_slideshow] called with no image
    raises before anything is read or written: the feasibility
    [ValueError] when [video_duration + transition_duration <= 0] (there
    are -1 transitions), and otherwise [ZeroDivisionError], from the
    division of the remaining time by zero images. *)
Theorem empty_image_list_raises E cfg st :
  let r := create_slideshow E [] cfg st in
  fst r = (if fle (remaining_time cfg 0) (of_int 0)
           then inl (ValueError "Transition time exceeds video duration")
           else inl ZeroDivisionError) /\
  written (snd r) = written st /\ frame_count (snd r) = frame_count st /\
  prev_image (snd r) = prev_image st.
Proof.
  unfold create_slideshow. destruct (select_transition cfg) as [fixed unknown].
  unfold bind, lift, compute_image_duration, div_int. cbn [length Z.of_nat].
  destruct (fle (remaining_time cfg 0) (of_int 0)); destruct unknown; simpl;
    repeat split; reflexivity.
Qed.

(** The video writer cannot be opened.  When the schedule is feasible and
    the first image is read, but [out.isOpened()] is false, the run raises
    the [ValueError] of the output file; no image has been resized and no
    frame written. *)
Theorem writer_not_opened_aborts E cfg first_path rest image_duration first_image target_h :
  compute_image_duration cfg (Z.of_nat (length (first_path :: rest))) = inr image_duration ->
  imread E first_path = Some first_image ->
  canvas_height (Z.of_nat (img_width first_image)) = inr target_h ->
  writer_opened E (output_file cfg) (frame_rate cfg)
                (Z.of_nat (img_width first_image)) target_h = false ->
  let r := create_slideshow E (first_path :: rest) cfg initial in
  fst r = inl (ValueError "Could not open output video file") /\
  written (snd r) = [] /\ prev_image (snd r) = None /\ rand_calls (snd r) = 0%nat.
Proof.
  intros Hdur Hread Hth Hopen. unfold create_slideshow.
  destruct (select_transition cfg) as [fixed unknown].
  unfold canvas_height in Hth.
  destruct (truediv (Z.of_nat (img_width first_image) * 9) 16) as [e | scaled] eqn:Hsc;
    [discriminate |]. cbn [ebind] in Hth.
  unfold bind, lift. rewrite Hdur, Hread. unfold shape. rewrite Hsc, Hth, Hopen.
  destruct unknown; destruct (5 <? Z.abs (target_h - Z.of_nat (img_height first_image)));
    simpl; repeat split; reflexivity.
Qed.

Lemma create_slideshow_opened E cfg first_path rest image_duration first_image
      target_h total_frames :
  compute_image_duration cfg (Z.of_nat (length (first_path :: rest))) = inr image_duration ->
  imread E first_path = Some first_image ->
  canvas_height (Z.of_nat (img_width first_image)) = inr target_h ->
  writer_opened E (output_file cfg) (frame_rate cfg)
                (Z.of_nat (img_width first_image)) target_h = true ->
  frame_budget cfg = inr total_frames ->
  exists st1,
    fresh st1 /\
    create_slideshow E (first_path :: rest) cfg initial
    = stream_images E cfg (fst (select_transition cfg)) image_duration
                    (Z.of_nat (img_width first_image)) target_h total_frames
                    (first_path :: rest) st1.
Proof.
  intros Hdur Hread Hth Hopen Htotal. unfold create_slideshow, stream_images.
  destruct (select_transition cfg) as [fixed unknown]. cbn [fst].
  unfold canvas_height in Hth.
  destruct (truediv (Z.of_nat (img_width first_image) * 9) 16) as [e | scaled] eqn:Hsc;
    [discriminate |]. cbn [ebind] in Hth.
  unfold frame_budget in Htotal.
  unfold bind at 1. unfold bind at 1. unfold lift at 1.
  destruct unknown; simpl print; rewrite Hdur; cbv iota; cbv beta;
    unfold bind at 1; simpl print; cbv iota; cbv beta;
    rewrite Hread; unfold shape; cbv iota; cbv beta;
    unfold bind at 1; unfold lift at 1; rewrite Hsc; cbv iota; cbv beta;
    unfold bind at 1; unfold lift at 1; rewrite Hth; cbv iota; cbv beta;
    unfold bind at 1;
    destruct (5 <? Z.abs (target_h - Z.of_nat (img_height first_image)));
    simpl print; simpl ret; cbv iota; cbv beta;
    unfold bind at 1; rewrite Hopen; simpl ret; cbv iota; cbv beta;
    unfold bind at 1; unfold lift at 1; rewrite Htotal; cbv iota; cbv beta;
    unfold bind at 1; simpl print; cbv iota; cbv beta;
    (eexists; split; [| reflexivity]); repeat split.
Qed.

Lemma bind_lift_inr {A B : Type} (x : exn + A) (a : A) (f : A -> M B) st :
  x = inr a -> bind (lift x) f st = f a st.
Proof. intros ->. reflexivity. Qed.

Lemma bind_lift_inl {A B : Type} (x : exn + A) (e : exn) (f : A -> M B) st :
  x = inl e -> bind (lift x) f st = (inl e, st).
Proof. intros ->. reflexivity. Qed.

Lemma bind_assoc {A B C : Type} (c : M A) (f : A -> M B) (g : B -> M C) st :
  bind (bind c f) g st = bind c (fun a => bind (f a) g) st.
Proof. unfold bind. destruct (c st) as [[e | a] st']; reflexivity. Qed.

Lemma bind_value {A B : Type} (c : M A) (f : A -> M B) st a st' :
  c st = (inr a, st') -> bind c f st = f a st'.
Proof. intros H. unfold bind. now rewrite H. Qed.

Lemma bind_error {A B : Type} (c : M A) (f : A -> M B) st e st' :
  c st = (inl e, st') -> bind c f st = (inl e, st').
Proof. intros H. unfold bind. now rewrite H. Qed.

Lemma process_first_image_zero_budget E cfg fixed idur tw th path img curr fpi st :
  imread E path = Some img ->
  resize_image E img tw th = inr curr ->
  py_int (fmul idur (of_int (frame_rate cfg))) = inr fpi ->
  0 <= frame_count st ->
  process_image E cfg fixed idur tw th 0 0 path st
  = (inl ZeroDivisionError,
     mk_builder (Some curr) (frame_count st) (written st) (stdout st) (rand_calls st)).
Proof.
  intros Hread Hres Hfpi Hfc. unfold process_image. rewrite Hread.
  rewrite (bind_lift_inr _ curr) by exact Hres.
  change (0 =? 0) with true. cbv iota.
  rewrite bind_assoc, (bind_lift_inr _ fpi) by exact Hfpi.
  rewrite (bind_value _ _ st tt st) by (now apply display_loop_exhausted).
  reflexivity.
Qed.

(** A frame budget of zero.  When [int(video_duration * frame_rate)] is 0
    (a frame rate of 0, or a video shorter than one frame) and everything
    before the loop succeeds, the run raises [ZeroDivisionError] at the
    progress report of the first image, [frame_count / total_frames]; no
    frame is written. *)
Theorem zero_frame_budget_raises E cfg first_path rest image_duration first_image
        target_h curr_img frames_per_image :
  compute_image_duration cfg (Z.of_nat (length (first_path :: rest))) = inr image_duration ->
  imread E first_path = Some first_image ->
  canvas_height (Z.of_nat (img_width first_image)) = inr target_h ->
  writer_opened E (output_file cfg) (frame_rate cfg)
                (Z.of_nat (img_width first_image)) target_h = true ->
  frame_budget cfg = inr 0 ->
  resize_image E first_image (Z.of_nat (img_width first_image)) target_h = inr curr_img ->
  py_int (fmul image_duration (of_int (frame_rate cfg))) = inr frames_per_image ->
  let r := create_slideshow E (first_path :: rest) cfg initial in
  fst r = inl ZeroDivisionError /\ written (snd r) = [] /\
  prev_image (snd r) = Some curr_img.
Proof.
  intros Hdur Hread Hth Hopen Htotal Hres Hfpi.
  destruct (create_slideshow_opened E cfg first_path rest image_duration first_image
              target_h 0 Hdur Hread Hth Hopen Htotal) as [st1 [[Hp [Hfc [Hw Hr]]] Heq]].
  cbv zeta. rewrite Heq. unfold stream_images. cbn [process_images].
  rewrite bind_assoc.
  rewrite (bind_error _ _ st1 ZeroDivisionError _
             (process_first_image_zero_budget E cfg _ image_duration _ target_h
                first_path first_image curr_img frames_per_image st1
                Hread Hres Hfpi ltac:(lia))).
  cbn [fst snd written prev_image]. auto.
Qed.

Lemma resize_image_zero_division E image width height :
  img_height image = 0%nat \/ height = 0 ->
  resize_image E image width height = inl ZeroDivisionError.
Proof.
  intros H. unfold resize_image, shape, truediv.
  destruct (Z.eqb_spec (Z.of_nat (img_height image)) 0) as [Hz | Hnz]; [reflexivity |].
  destruct H as [H | ->]; [lia | reflexivity].
Qed.


(** ** Random and configured transitions *)

Lemma select_transition_fixed cfg :
  String.eqb (transition_type cfg) "random" = false ->
  exists t unknown, select_transition cfg = (Some t, unknown).
Proof.
  intros H. unfold select_transition. rewrite H.
  destruct (lookup (transition_type cfg) TRANSITIONS); eauto.
Qed.

Lemma draws_print k ev : preserves (draws k) (print ev).
Proof. intros st H. exact H. Qed.

Lemma draws_display_loop k iters total curr_img :
  preserves (draws k) (display_loop iters total curr_img).
Proof.
  induction iters as [| j rest IH]; simpl.
  - apply preserves_ret.
  - apply preserves_bind; [| intros _; exact IH].
    apply preserves_bind; [intros st H; exact H | intros fc].
    apply preserves_if; [intros st H; exact H | apply preserves_ret].
Qed.

Lemma draws_transition_loop E k iters tf total kind curr_img :
  preserves (draws k) (transition_loop E iters tf total kind curr_img).
Proof.
  induction iters as [| j rest IH]; simpl.
  - apply preserves_ret.
  - apply preserves_bind; [| intros _; exact IH].
    apply preserves_bind; [intros st H; exact H | intros fc].
    apply preserves_if; [| apply preserves_ret].
    apply preserves_bind; [apply preserves_lift | intros progress].
    apply preserves_bind.
    { intros st H. unfold get_prev_image. destruct (prev_image st); exact H. }
    intros prev. apply preserves_bind; [apply preserves_lift | intros frame].
    intros st H. exact H.
Qed.

Lemma draws_process_image E k cfg t idur tw th total i img_path :
  preserves (draws k) (process_image E cfg (Some t) idur tw th total i img_path).
Proof.
  unfold process_image. destruct (imread E img_path) as [raw |];
    [| apply draws_print].
  apply preserves_bind; [apply preserves_lift | intros curr].
  apply preserves_bind.
  - apply preserves_if.
    + apply preserves_bind; [apply preserves_lift | intros fpi].
      apply draws_display_loop.
    + apply preserves_bind; [apply preserves_ret | intros kind].
      apply preserves_bind; [apply preserves_lift | intros tf].
      apply preserves_bind; [apply draws_transition_loop | intros _].
      apply preserves_bind; [apply preserves_lift | intros fpi].
      apply draws_display_loop.
  - intros _. apply preserves_bind; [intros st H; exact H | intros _].
    apply preserves_bind; [intros st H; exact H | intros fc].
    apply preserves_bind; [apply preserves_lift | intros ratio].
    apply preserves_bind; [apply preserves_lift | intros pct].
    apply draws_print.
Qed.

Lemma draws_process_images E k cfg t idur tw th total files :
  forall i, preserves (draws k) (process_images E cfg (Some t) idur tw th total i files).
Proof.
  induction files as [| f rest IH]; intros i; simpl.
  - apply preserves_ret.
  - apply preserves_bind; [apply draws_process_image | intros _; apply IH].
Qed.

Lemma process_image_with_randint E g cfg t idur tw th total i img_path :
  process_image (with_randint E g) cfg (Some t) idur tw th total i img_path
  = process_image E cfg (Some t) idur tw th total i img_path.
Proof. reflexivity. Qed.

Lemma process_images_with_randint E g cfg t idur tw th total files :
  forall i st,
    process_images (with_randint E g) cfg (Some t) idur tw th total i files st
    = process_images E cfg (Some t) idur tw th total i files st.
Proof.
  induction files as [| f rest IH]; intros i st; [reflexivity |].
  cbn [process_images]. rewrite process_image_with_randint.
  unfold bind. destruct (process_image E cfg (Some t) idur tw th total i f st) as [[e | []] st'];
    [reflexivity | apply IH].
Qed.

(** A configured transition.  When [transition_type] is not ["random"],
    the run does not depend on the random source: it is the same with any
    other one, and [random.randint] is never called. *)
Theorem fixed_transition_ignores_random E g image_files cfg st :
  String.eqb (transition_type cfg) "random" = false ->
  create_slideshow (with_randint E g) image_files cfg st
  = create_slideshow E image_files cfg st /\
  rand_calls (snd (create_slideshow E image_files cfg st)) = rand_calls st.
Proof.
  intros Hfixed.
  destruct (select_transition_fixed cfg Hfixed) as [t [unknown Hsel]]. split.
  - unfold create_slideshow. rewrite Hsel.
    cbn [imread cv2_resize writer_opened with_randint].
    destruct image_files as [| first_path rest]; [reflexivity |].
    destruct (imread E first_path) as [first_image |]; [| reflexivity].
    destruct (shape first_image) as [h w].
    unfold bind.
    repeat match goal with
           | |- context [match ?c ?s with _ => _ end] =>
               lazymatch c with
               | process_images _ _ _ _ _ _ _ _ _ => fail
               | _ => destruct (c s) as [[? | ?] ?]; try reflexivity
               end
           end.
    rewrite process_images_with_randint. reflexivity.
  - assert (H : preserves (draws (rand_calls st)) (create_slideshow E image_files cfg)).
    { unfold create_slideshow. rewrite Hsel.
      apply preserves_bind.
      { destruct unknown; [apply draws_print | apply preserves_ret]. }
      intros _. apply preserves_bind; [apply preserves_lift | intros idur].
      apply preserves_bind; [apply draws_print | intros _].
      destruct image_files as [| first_path rest]; [apply preserves_raise |].
      destruct (imread E first_path) as [first_image |]; [| apply preserves_raise].
      destruct (shape first_image) as [h w].
      apply preserves_bind; [apply preserves_lift | intros scaled].
      apply preserves_bind; [apply preserves_lift | intros target_h].
      apply preserves_bind.
      { apply preserves_if; [apply draws_print | apply preserves_ret]. }
      intros _. apply preserves_bind.
      { apply preserves_if; [apply preserves_ret | apply preserves_raise]. }
      intros _. apply preserves_bind; [apply preserves_lift | intros total].
      apply preserves_bind; [apply draws_print | intros _].
      apply preserves_bind; [apply draws_process_images | intros _].
      apply preserves_bind; [apply draws_print | intros _].
      apply preserves_bind; [intros s H; exact H | intros fc].
      apply preserves_bind; [apply preserves_lift | intros seconds].
      apply draws_print. }
    exact (H st eq_refl).
Qed.

(** ** Runs that return normally *)

Lemma print_state ev st a st' :
  print ev st = (inr a, st') ->
  prev_image st' = prev_image st /\ frame_count st' = frame_count st /\
  written st' = written st /\ rand_calls st' = rand_calls st.
Proof. unfold print. intros H. injection H as _ <-. repeat split. Qed.

Lemma create_slideshow_success E image_files cfg st' :
  create_slideshow E image_files cfg initial = (inr tt, st') ->
  exists first_path rest image_duration first_image target_h total_frames st1 st2,
    image_files = first_path :: rest /\
    compute_image_duration cfg (Z.of_nat (length image_files)) = inr image_duration /\
    imread E first_path = Some first_image /\
    canvas_height (Z.of_nat (img_width first_image)) = inr target_h /\
    writer_opened E (output_file cfg) (frame_rate cfg)
                  (Z.of_nat (img_width first_image)) target_h = true /\
    frame_budget cfg = inr total_frames /\
    fresh st1 /\
    process_images E cfg (fst (select_transition cfg)) image_duration
                   (Z.of_nat (img_width first_image)) target_h total_frames 0
                   image_files st1 = (inr tt, st2) /\
    prev_image st' = prev_image st2 /\ frame_count st' = frame_count st2 /\
    written st' = written st2 /\ rand_calls st' = rand_calls st2.
Proof.
  intros Hrun.
  assert (Hhyps : exists first_path rest image_duration first_image target_h total_frames,
             image_files = first_path :: rest /\
             compute_image_duration cfg (Z.of_nat (length image_files)) = inr image_duration /\
             imread E first_path = Some first_image /\
             canvas_height (Z.of_nat (img_width first_image)) = inr target_h /\
             writer_opened E (output_file cfg) (frame_rate cfg)
                           (Z.of_nat (img_width first_image)) target_h = true /\
             frame_budget cfg = inr total_frames).
  { revert Hrun. unfold create_slideshow.
    destruct (select_transition cfg) as [fixed unknown]. intros H.
    apply bind_inr in H as [[] [s1 [_ H]]].
    apply bind_inr in H as [idur [s2 [H2 H]]]. apply lift_inr in H2 as [Hidur ->].
    apply bind_inr in H as [[] [s3 [_ H]]].
    destruct image_files as [| first_path rest]; [discriminate |].
    destruct (imread E first_path) as [first_image |] eqn:Hread; [| discriminate].
    unfold shape in H.
    apply bind_inr in H as [scaled [s4 [H4 H]]]. apply lift_inr in H4 as [Hsc ->].
    apply bind_inr in H as [th [s5 [H5 H]]]. apply lift_inr in H5 as [Hth ->].
    apply bind_inr in H as [[] [s6 [_ H]]].
    apply bind_inr in H as [[] [s7 [H7 H]]].
    destruct (writer_opened E _ _ _ _) eqn:Hopen; [| discriminate].
    apply bind_inr in H as [total [s8 [H8 H]]]. apply lift_inr in H8 as [Htotal ->].
    exists first_path, rest, idur, first_image, th, total.
    repeat split; try assumption.
    unfold canvas_height. rewrite Hsc. exact Hth. }
  destruct Hhyps as [first_path [rest [idur [first_image [th [total
                       [-> [Hdur [Hread [Hth [Hopen Htotal]]]]]]]]]]].
  destruct (create_slideshow_opened E cfg first_path rest idur first_image th total
              Hdur Hread Hth Hopen Htotal) as [st1 [Hfresh Heq]].
  rewrite Heq in Hrun. unfold stream_images in Hrun.
  apply bind_inr in Hrun as [[] [st2 [Hloop H]]].
  apply bind_inr in H as [[] [s3 [H3 H]]]. apply print_state in H3 as [Hp3 [Hf3 [Hw3 Hr3]]].
  apply bind_inr in H as [fc [s4 [H4 H]]]. injection H4 as _ <-.
  apply bind_inr in H as [seconds [s5 [H5 H]]]. apply lift_inr in H5 as [_ ->].
  apply print_state in H as [Hp [Hf [Hw Hr]]].
  exists first_path, rest, idur, first_image, th, total, st1, st2.
  repeat split; try assumption; try congruence; apply Hfresh.
Qed.

Lemma process_image_draws E cfg idur tw th total i img_path st st' :
  process_image E cfg None idur tw th total i img_path st = (inr tt, st') ->
  rand_calls st' = (rand_calls st + draws_for E i img_path)%nat.
Proof.
  unfold process_image, draws_for. destruct (imread E img_path) as [raw |].
  2: { intros H. apply print_state in H as [_ [_ [_ ->]]]. lia. }
  intros H.
  apply bind_inr in H as [curr [s1 [H1 H]]]. apply lift_inr in H1 as [_ ->].
  apply bind_inr in H as [[] [s2 [Hbranch H]]].
  assert (Htail : rand_calls st' = rand_calls s2).
  { apply bind_inr in H as [[] [s3 [H3 H]]]. injection H3 as <-.
    apply bind_inr in H as [fc [s4 [H4 H]]]. injection H4 as _ <-.
    apply bind_inr in H as [r [s5 [H5 H]]]. apply lift_inr in H5 as [_ ->].
    apply bind_inr in H as [pct [s6 [H6 H]]]. apply lift_inr in H6 as [_ ->].
    apply print_state in H as [_ [_ [_ ->]]]. reflexivity. }
  rewrite Htail. destruct (i =? 0).
  - apply bind_inr in Hbranch as [fpi [s3 [H3 Hd]]]. apply lift_inr in H3 as [_ ->].
    pose proof (draws_display_loop (rand_calls st) (range fpi) total curr st eq_refl) as Hk.
    rewrite Hd in Hk. unfold draws in Hk. cbn [snd] in Hk. lia.
  - apply bind_inr in Hbranch as [kind [s3 [H3 Hb]]].
    unfold random_randint in H3. injection H3 as _ <-.
    apply bind_inr in Hb as [tf [s4 [H4 Hb]]]. apply lift_inr in H4 as [_ ->].
    apply bind_inr in Hb as [[] [s5 [H5 Hb]]].
    apply bind_inr in Hb as [fpi [s6 [H6 Hb]]]. apply lift_inr in H6 as [_ ->].
    match type of H5 with
    | transition_loop _ _ _ _ ?k _ ?s = _ =>
        pose proof (draws_transition_loop E (S (rand_calls st)) (range tf) tf total k curr
                      s eq_refl) as Hk1
    end.
    rewrite H5 in Hk1. unfold draws in Hk1. cbn [snd] in Hk1.
    pose proof (draws_display_loop (rand_calls s5) (range fpi) total curr s5 eq_refl) as Hk2.
    rewrite Hb in Hk2. unfold draws in Hk2. cbn [snd] in Hk2. lia.
Qed.

Lemma process_images_draws E cfg idur tw th total files :
  forall i st st',
    process_images E cfg None idur tw th total i files st = (inr tt, st') ->
    rand_calls st' = (rand_calls st + draws_from E i files)%nat.
Proof.
  induction files as [| f rest IH]; intros i st st' H.
  - injection H as <-. simpl. lia.
  - cbn [process_images] in H. apply bind_inr in H as [[] [s1 [H1 H]]].
    apply process_image_draws in H1. apply IH in H. cbn [draws_from]. lia.
Qed.

Lemma draws_from_tail E files :
  forall i, 1 <= i ->
    draws_from E i files
    = length (filter (fun p => match imread E p with Some _ => true | None => false end)
                     files).
Proof.
  induction files as [| f rest IH]; intros i Hi; [reflexivity |].
  cbn [draws_from filter]. rewrite (IH (i + 1)) by lia. unfold draws_for.
  destruct (imread E f); [| reflexivity].
  destruct (Z.eqb_spec i 0); [lia | reflexivity].
Qed.

(** Random transitions.  With [transition_type = "random"], a run that
    returns normally has called [random.randint] once for every image
    after the first that could be decoded, and for no other. *)
Theorem random_transition_draws E image_files cfg :
  String.eqb (transition_type cfg) "random" = true ->
  fst (create_slideshow E image_files cfg initial) = inr tt ->
  rand_calls (snd (create_slideshow E image_files cfg initial))
  = length (filter (fun p => match imread E p with Some _ => true | None => false end)
                   (tl image_files)).
Proof.
  intros Hrandom Hrun.
  destruct (create_slideshow E image_files cfg initial) as [r st'] eqn:Hcs.
  cbn [fst snd] in *. subst r.
  destruct (create_slideshow_success E image_files cfg st' Hcs)
    as [fp [rest [idur [img [th [total [st1 [st2
         [-> [_ [Hread [_ [_ [_ [Hfresh [Hloop [_ [_ [_ Hr]]]]]]]]]]]]]]]]]]].
  assert (Hsel : fst (select_transition cfg) = None).
  { unfold select_transition. now rewrite Hrandom. }
  rewrite Hsel in Hloop. apply process_images_draws in Hloop.
  destruct Hfresh as [_ [_ [_ H0]]]. rewrite Hr, Hloop, H0.
  cbn [draws_from tl]. unfold draws_for. rewrite Hread. change (0 =? 0) with true.
  cbn [Nat.add]. apply draws_from_tail. lia.
Qed.

(** ** An unknown transition name *)

Lemma blind_ret {A : Type} (a : A) : stdout_blind (ret a).
Proof. intros l st. reflexivity. Qed.

Lemma blind_raise {A : Type} (e : exn) : stdout_blind (@raise A e).
Proof. intros l st. reflexivity. Qed.

Lemma blind_lift {A : Type} (x : exn + A) : stdout_blind (lift x).
Proof. intros l st. reflexivity. Qed.

Lemma blind_print ev : stdout_blind (print ev).
Proof.
  intros l st. unfold print, with_prefix. cbn. now rewrite app_assoc.
Qed.

Lemma blind_out_write frame : stdout_blind (out_write frame).
Proof. intros l st. reflexivity. Qed.

Lemma blind_set_prev_image im : stdout_blind (set_prev_image im).
Proof. intros l st. reflexivity. Qed.

Lemma blind_random_randint E : stdout_blind (random_randint E).
Proof. intros l st. reflexivity. Qed.

Lemma blind_get_frame_count : stdout_blind get_frame_count.
Proof. intros l st. reflexivity. Qed.

Lemma blind_get_prev_image : stdout_blind get_prev_image.
Proof.
  intros l [[p |] fc wr out rc]; reflexivity.
Qed.

Lemma blind_bind {A B : Type} (c : M A) (f : A -> M B) :
  stdout_blind c -> (forall a, stdout_blind (f a)) -> stdout_blind (bind c f).
Proof.
  intros Hc Hf l st. unfold bind. rewrite Hc.
  destruct (c st) as [[e | a] st']; cbn [fst snd]; [reflexivity | apply Hf].
Qed.

Lemma blind_if {A : Type} (b : bool) (c1 c2 : M A) :
  stdout_blind c1 -> stdout_blind c2 -> stdout_blind (if b then c1 else c2).
Proof. destruct b; auto. Qed.

Create HintDb blind.

#[local] Hint Resolve blind_ret blind_raise blind_lift blind_print blind_out_write
  blind_set_prev_image blind_random_randint blind_get_frame_count
  blind_get_prev_image : blind.

Lemma blind_display_loop iters total curr_img :
  stdout_blind (display_loop iters total curr_img).
Proof.
  induction iters as [| j rest IH]; simpl; auto with blind.
  apply blind_bind; [| intros _; exact IH].
  apply blind_bind; auto with blind. intros fc. apply blind_if; auto with blind.
Qed.

Lemma blind_transition_loop E iters tf total kind curr_img :
  stdout_blind (transition_loop E iters tf total kind curr_img).
Proof.
  induction iters as [| j rest IH]; simpl; auto with blind.
  apply blind_bind; [| intros _; exact IH].
  apply blind_bind; auto with blind. intros fc. apply blind_if; auto with blind.
  repeat (apply blind_bind; auto with blind; intros ?).
Qed.

Lemma blind_process_image E cfg fixed idur tw th total i img_path :
  stdout_blind (process_image E cfg fixed idur tw th total i img_path).
Proof.
  unfold process_image. destruct (imread E img_path) as [raw |]; auto with blind.
  apply blind_bind; auto with blind. intros curr.
  apply blind_bind.
  - apply blind_if.
    + apply blind_bind; auto with blind. intros fpi. apply blind_display_loop.
    + apply blind_bind; [destruct fixed; auto with blind | intros kind].
      apply blind_bind; auto with blind. intros tf.
      apply blind_bind; [apply blind_transition_loop | intros _].
      apply blind_bind; auto with blind. intros fpi. apply blind_display_loop.
  - intros _. repeat (apply blind_bind; auto with blind; intros ?).
Qed.

Lemma blind_process_images E cfg fixed idur tw th total files :
  forall i, stdout_blind (process_images E cfg fixed idur tw th total i files).
Proof.
  induction files as [| f rest IH]; intros i; simpl; auto with blind.
  apply blind_bind; [apply blind_process_image | intros _; apply IH].
Qed.

Lemma create_slideshow_body E image_files cfg :
  create_slideshow E image_files cfg
  = (let '(fixed_transition, unknown) := select_transition cfg in
     (if unknown then print (WarnUnknownTransition (transition_type cfg)) else ret tt) ;;
     slideshow_body E cfg fixed_transition image_files)%build.
Proof. reflexivity. Qed.

Lemma blind_slideshow_body E cfg fixed files : stdout_blind (slideshow_body E cfg fixed files).
Proof.
  unfold slideshow_body. cbv zeta.
  apply blind_bind; auto with blind. intros idur.
  apply blind_bind; auto with blind. intros _.
  destruct files as [| first_path rest]; auto with blind.
  destruct (imread E first_path) as [first_image |]; auto with blind.
  destruct (shape first_image) as [h w].
  apply blind_bind; auto with blind. intros scaled.
  apply blind_bind; auto with blind. intros th.
  apply blind_bind; [apply blind_if; auto with blind | intros _].
  apply blind_bind; [apply blind_if; auto with blind | intros _].
  apply blind_bind; auto with blind. intros total.
  apply blind_bind; auto with blind. intros _.
  apply blind_bind; [apply blind_process_images | intros _].
  repeat (apply blind_bind; auto with blind; intros ?).
Qed.

Lemma process_images_as_fade E cfg fixed idur tw th total files :
  forall i st,
    process_images E (as_fade cfg) fixed idur tw th total i files st
    = process_images E cfg fixed idur tw th total i files st.
Proof.
  induction files as [| f rest IH]; intros i st; [reflexivity |].
  cbn [process_images].
  change (process_image E (as_fade cfg) fixed idur tw th total i f)
    with (process_image E cfg fixed idur tw th total i f).
  unfold bind. destruct (process_image E cfg fixed idur tw th total i f st) as [[e | []] st'];
    [reflexivity | apply IH].
Qed.

Lemma slideshow_body_as_fade E cfg fixed files st :
  slideshow_body E (as_fade cfg) fixed files st = slideshow_body E cfg fixed files st.
Proof.
  unfold slideshow_body. cbv zeta.
  change (compute_image_duration (as_fade cfg)) with (compute_image_duration cfg).
  cbn [transition_duration video_duration frame_rate output_file as_fade].
  destruct files as [| first_path rest]; [reflexivity |].
  destruct (imread E first_path) as [first_image |]; [| reflexivity].
  destruct (shape first_image) as [h w].
  unfold bind.
  repeat match goal with
         | |- context [match ?c ?s with _ => _ end] =>
             lazymatch c with
             | process_images _ _ _ _ _ _ _ _ _ => fail
             | _ => destruct (c s) as [[? | ?] ?]; try reflexivity
             end
         end.
  rewrite process_images_as_fade. reflexivity.
Qed.

(** An unknown transition name.  When [transition_type] is neither
    ["random"] nor a key of [TRANSITIONS], the run is the run of the same
    configuration with ["fade"], after one warning: the same outcome, the
    same frames, and the same printed lines after the warning. *)
Theorem unknown_transition_is_fade E image_files cfg :
  String.eqb (transition_type cfg) "random" = false ->
  lookup (transition_type cfg) TRANSITIONS = None ->
  let r := create_slideshow E image_files cfg initial in
  let r' := create_slideshow E image_files (as_fade cfg) initial in
  fst r = fst r' /\ written (snd r) = written (snd r') /\
  stdout (snd r) = WarnUnknownTransition (transition_type cfg) :: stdout (snd r').
Proof.
  intros Hrandom Hlookup. cbv zeta. rewrite !create_slideshow_body.
  assert (Hsel : select_transition cfg = (Some 0, true)).
  { unfold select_transition. now rewrite Hrandom, Hlookup. }
  change (select_transition (as_fade cfg)) with (Some 0, false).
  rewrite Hsel. cbv iota. cbv beta.
  change (bind (ret tt) (fun _ => slideshow_body E (as_fade cfg) (Some 0) image_files) initial)
    with (slideshow_body E (as_fade cfg) (Some 0) image_files initial).
  rewrite slideshow_body_as_fade.
  change (bind (print (WarnUnknownTransition (transition_type cfg)))
               (fun _ => slideshow_body E cfg (Some 0) image_files) initial)
    with (slideshow_body E cfg (Some 0) image_files
            (with_prefix [WarnUnknownTransition (transition_type cfg)] initial)).
  rewrite blind_slideshow_body. cbn [fst snd with_prefix written stdout app].
  repeat split.
Qed.

(** ** A single image *)

Lemma display_loop_writes iters total curr_img :
  forall st,
    let n := Z.to_nat (Z.min (Z.of_nat (length iters)) (total - frame_count st)) in
    display_loop iters total curr_img st
    = (inr tt, mk_builder (prev_image st) (frame_count st + Z.of_nat n)
                          (written st ++ repeat curr_img n) (stdout st) (rand_calls st)).
Proof.
  induction iters as [| j rest IH]; intros st n.
  - unfold n. cbn [length Z.of_nat]. replace (Z.to_nat _) with 0%nat by lia.
    cbn [repeat Z.of_nat]. rewrite app_nil_r, Z.add_0_r. destruct st; reflexivity.
  - destruct (Z.ltb_spec (frame_count st) total) as [Hlt | Hge].
    + cbn [display_loop]. unfold bind at 1. unfold bind at 1.
      unfold get_frame_count at 1. cbv iota. cbv beta.
      destruct (Z.ltb_spec (frame_count st) total) as [_ | Hbad]; [| lia].
      unfold out_write at 1. cbv iota. cbv beta. rewrite IH.
      cbn [prev_image frame_count written stdout rand_calls].
      set (n' := Z.to_nat (Z.min (Z.of_nat (length rest)) (total - (frame_count st + 1)))).
      assert (Hn : n = S n').
      { unfold n, n'. cbn [length]. lia. }
      rewrite Hn. f_equal. f_equal; [lia |].
      rewrite <- app_assoc. reflexivity.
    + rewrite display_loop_exhausted by lia.
      unfold n. replace (Z.to_nat _) with 0%nat by lia.
      cbn [repeat Z.of_nat]. rewrite app_nil_r, Z.add_0_r. destruct st; reflexivity.
Qed.

Lemma fdiv_one x :
  valid x = true -> positive_float x -> fdiv x (of_int 1) = x.
Proof.
  intros Hv Hp. pose proof (positive_nonneg _ Hp) as Hn.
  destruct (of_int_exact 1 ltac:(lia)) as [Hv1 [Hp1 HB1]].
  assert (Hle : (B2R x * B2R (of_int 1) <= B2R x)%R) by (rewrite HB1; lra).
  assert (Hge : (B2R x <= B2R x * B2R (of_int 1))%R) by (rewrite HB1; lra).
  destruct (fdiv_RU x (of_int 1) x Hv Hv1 Hv Hn Hp1 Hn Hge) as [Hvq [Hnq Hup]].
  destruct (fdiv_RD x (of_int 1) x Hv Hv1 Hv Hn Hp1 Hn Hle) as [Hinf | [_ [_ Hlo]]].
  - rewrite Hinf in Hnq. contradiction.
  - destruct (nonneg_B2R_inj (fdiv x (of_int 1)) x Hvq Hv Hnq Hn ltac:(lra))
      as [[_ Hz] | Heq]; [| exact Heq].
    destruct x; simpl in Hp; try contradiction; discriminate.
Qed.

Lemma py_int_fmul_nan y e : py_int (fmul S754_nan y) <> inr e.
Proof. destruct y; discriminate. Qed.

Lemma py_int_fmul_inf s y e : py_int (fmul (S754_infinity s) y) <> inr e.
Proof. destruct y; discriminate. Qed.

Lemma single_image_duration cfg idur fpi :
  valid (video_duration cfg) = true ->
  compute_image_duration cfg 1 = inr idur ->
  py_int (fmul idur (of_int (frame_rate cfg))) = inr fpi ->
  idur = video_duration cfg.
Proof.
  intros Hv Hdur Hfpi. unfold compute_image_duration, remaining_time,
    total_transition_time, div_int in Hdur.
  change (1 - 1) with 0 in Hdur. change (1 =? 0) with false in Hdur.
  change (of_int 0) with (S754_zero false) in Hdur.
  destruct (transition_duration cfg) as [st | st | | st mt et].
  - destruct (video_duration cfg) as [sv | sv | | sv mv ev].
    + destruct sv, st; discriminate.
    + destruct sv; [destruct st; discriminate |].
      exfalso. destruct st; injection Hdur as <-;
        exact (py_int_fmul_inf false (of_int (frame_rate cfg)) fpi Hfpi).
    + exfalso. destruct st; injection Hdur as <-;
        exact (py_int_fmul_nan (of_int (frame_rate cfg)) fpi Hfpi).
    + destruct sv; [destruct st; discriminate |].
      assert (Heq : fsub (S754_finite false mv ev) (fmul (S754_zero false) (S754_zero st))
                    = S754_finite false mv ev) by (destruct st; reflexivity).
      rewrite Heq in Hdur.
      assert (Hd : @inr exn float (fdiv (S754_finite false mv ev) (of_int 1)) = inr idur)
        by exact Hdur.
      assert (Hid : idur = fdiv (S754_finite false mv ev) (of_int 1)) by congruence.
      rewrite Hid. now apply fdiv_one.
  - exfalso. change (fmul (S754_zero false) (S754_infinity st)) with S754_nan in Hdur.
    destruct (video_duration cfg); injection Hdur as <-;
      exact (py_int_fmul_nan (of_int (frame_rate cfg)) fpi Hfpi).
  - exfalso. change (fmul (S754_zero false) S754_nan) with S754_nan in Hdur.
    destruct (video_duration cfg); injection Hdur as <-;
      exact (py_int_fmul_nan (of_int (frame_rate cfg)) fpi Hfpi).
  - change (fmul (S754_zero false) (S754_finite st mt et)) with (S754_zero (xorb false st))
      in Hdur.
    destruct (video_duration cfg) as [sv | sv | | sv mv ev].
    + destruct sv, st; discriminate.
    + destruct sv; [destruct st; discriminate |].
      exfalso. destruct st; injection Hdur as <-;
        exact (py_int_fmul_inf false (of_int (frame_rate cfg)) fpi Hfpi).
    + exfalso. destruct st; injection Hdur as <-;
        exact (py_int_fmul_nan (of_int (frame_rate cfg)) fpi Hfpi).
    + destruct sv; [destruct st; discriminate |].
      assert (Heq : fsub (S754_finite false mv ev) (S754_zero (xorb false st))
                    = S754_finite false mv ev) by (destruct st; reflexivity).
      rewrite Heq in Hdur.
      assert (Hd : @inr exn float (fdiv (S754_finite false mv ev) (of_int 1)) = inr idur)
        by exact Hdur.
      assert (Hid : idur = fdiv (S754_finite false mv ev) (of_int 1)) by congruence.
      rewrite Hid. now apply fdiv_one.
Qed.

(** A single image.  A run over one image that returns normally writes
    the resized image exactly [total_frames = int(video_duration *
    frame_rate)] times and nothing else: with no transition the image
    duration is the video duration itself, so that the display segment
    fills the budget. *)
Theorem single_image_fills_budget E cfg img_path :
  valid (video_duration cfg) = true ->
  fst (create_slideshow E [img_path] cfg initial) = inr tt ->
  exists image target_h curr_img total_frames,
    imread E img_path = Some image /\
    canvas_height (Z.of_nat (img_width image)) = inr target_h /\
    resize_image E image (Z.of_nat (img_width image)) target_h = inr curr_img /\
    frame_budget cfg = inr total_frames /\
    written (snd (create_slideshow E [img_path] cfg initial))
    = repeat curr_img (Z.to_nat total_frames).
Proof.
  intros Hv Hrun.
  destruct (create_slideshow E [img_path] cfg initial) as [r st'] eqn:Hcs.
  cbn [fst snd] in *. subst r.
  destruct (create_slideshow_success E [img_path] cfg st' Hcs)
    as [fp [rest [idur [img [th [total [st1 [st2
         [Hfiles [Hdur [Hread [Hth [_ [Htotal [Hfresh [Hloop [_ [_ [Hw _]]]]]]]]]]]]]]]]]]].
  injection Hfiles as <- <-. cbn [length Z.of_nat Pos.of_succ_nat] in Hdur.
  destruct Hfresh as [_ [Hfc0 [Hw0 _]]].
  cbn [process_images] in Hloop.
  apply bind_inr in Hloop as [[] [s1 [Himg Hret]]]. injection Hret as <-.
  unfold process_image in Himg. rewrite Hread in Himg.
  apply bind_inr in Himg as [curr [s2 [H2 Himg]]]. apply lift_inr in H2 as [Hres ->].
  change (0 =? 0) with true in Himg. cbv iota in Himg.
  apply bind_inr in Himg as [[] [s3 [Hdisp Htail]]].
  apply bind_inr in Hdisp as [fpi [s4 [H4 Hdisp]]]. apply lift_inr in H4 as [Hfpi ->].
  assert (Hs1 : written s1 = written s3).
  { apply bind_inr in Htail as [[] [s5 [H5 Htail]]]. injection H5 as <-.
    apply bind_inr in Htail as [fc [s6 [H6 Htail]]]. injection H6 as _ <-.
    apply bind_inr in Htail as [q [s7 [H7 Htail]]]. apply lift_inr in H7 as [_ ->].
    apply bind_inr in Htail as [pct [s8 [H8 Htail]]]. apply lift_inr in H8 as [_ ->].
    apply print_state in Htail as [_ [_ [-> _]]]. reflexivity. }
  rewrite display_loop_writes in Hdisp. injection Hdisp as <-.
  cbn [written] in Hs1.
  pose proof (single_image_duration cfg idur fpi Hv Hdur Hfpi) as ->.
  unfold frame_budget in Htotal. rewrite Htotal in Hfpi. injection Hfpi as <-.
  exists img, th, curr, total. repeat split; try assumption.
  rewrite Hw, Hs1, Hw0, Hfc0. cbn [app]. f_equal.
  rewrite length_range. lia.
Qed.

Lemma truediv_inr a b q : truediv a b = inr q -> b <> 0.
Proof. unfold truediv. destruct (Z.eqb_spec b 0); [discriminate | auto]. Qed.

(** What a normal return requires.  When [create_slideshow] returns
    normally, the list of images is not empty and its first image was
    decoded, the schedule is feasible, the writer was opened, and neither
    the frame budget [int(video_duration * frame_rate)] nor the frame rate
    is zero (both are divisors in the progress and duration reports). *)
Theorem successful_run_conditions E image_files cfg :
  fst (create_slideshow E image_files cfg initial) = inr tt ->
  exists first_path rest first_image image_duration target_h total_frames,
    image_files = first_path :: rest /\
    imread E first_path = Some first_image /\
    compute_image_duration cfg (Z.of_nat (length image_files)) = inr image_duration /\
    canvas_height (Z.of_nat (img_width first_image)) = inr target_h /\
    writer_opened E (output_file cfg) (frame_rate cfg)
                  (Z.of_nat (img_width first_image)) target_h = true /\
    frame_budget cfg = inr total_frames /\
    total_frames <> 0 /\ frame_rate cfg <> 0.
Proof.
  intros Hrun.
  destruct (create_slideshow E image_files cfg initial) as [r st'] eqn:Hcs.
  cbn [fst] in Hrun. subst r.
  destruct (create_slideshow_success E image_files cfg st' Hcs)
    as [fp [rest [idur [img [th [total [st1 [st2
         [-> [Hdur [Hread [Hth [Hopen [Htotal [Hfresh [Hloop _]]]]]]]]]]]]]]]].
  exists fp, rest, img, idur, th, total. repeat split; try assumption.
  - cbn [process_images] in Hloop.
    apply bind_inr in Hloop as [[] [s1 [Himg _]]].
    unfold process_image in Himg. rewrite Hread in Himg.
    apply bind_inr in Himg as [curr [s2 [_ Himg]]].
    apply bind_inr in Himg as [[] [s3 [_ Htail]]].
    apply bind_inr in Htail as [[] [s4 [_ Htail]]].
    apply bind_inr in Htail as [fc [s5 [_ Htail]]].
    apply bind_inr in Htail as [q [s6 [H6 _]]]. apply lift_inr in H6 as [H6 _].
    exact (truediv_inr _ _ _ H6).
  - destruct (create_slideshow_opened E cfg fp rest idur img th total
                Hdur Hread Hth Hopen Htotal) as [st1' [_ Heq]].
    rewrite Heq in Hcs. unfold stream_images in Hcs.
    apply bind_inr in Hcs as [[] [s1 [_ H]]].
    apply bind_inr in H as [[] [s2 [_ H]]].
    apply bind_inr in H as [fc [s3 [_ H]]].
    apply bind_inr in H as [seconds [s4 [H4 _]]]. apply lift_inr in H4 as [H4 _].
    exact (truediv_inr _ _ _ H4).
Qed.

(** ** Images of the aspect ratio of the canvas *)

(** An image whose ratio [w / h] is, as a float, the ratio [width /
    height] of the target (an image that has the target size already, for
    instance) is handed to [cv2.resize] as it is: nothing is cropped. *)
Theorem resize_image_same_ratio_direct E image width height :
  0 < Z.of_nat (img_height image) < 2 ^ 53 ->
  0 < Z.of_nat (img_width image) < 2 ^ 53 ->
  truediv (Z.of_nat (img_width image)) (Z.of_nat (img_height image))
  = truediv width height ->
  resize_image E image width height = cv2_resize E image width height.
Proof.
  intros Hh Hw Hratio. unfold resize_image, shape.
  destruct (truediv_dims (Z.of_nat (img_width image)) (Z.of_nat (img_height image)) Hw Hh)
    as [q [Hq [Hvq [Hnq _]]]].
  rewrite <- Hratio, Hq. cbn [ebind].
  rewrite close_ratio_zero; [reflexivity |].
  now apply fsub_same_number.
Qed.

(** ** Finding the images *)

Lemma upper_extensions :
  map upper extensions
  = [".JPG"; ".JPEG"; ".PNG"; ".BMP"; ".TIFF"; ".TIF"; ".WEBP"]%string.
Proof. reflexivity. Qed.

(** *** The order of strings *)

Lemma ascii_compare_trans a b c :
  Ascii.compare a b <> Gt -> Ascii.compare b c <> Gt -> Ascii.compare a c <> Gt.
Proof.
  unfold Ascii.compare. rewrite !N.compare_le_iff. lia.
Qed.

Lemma ascii_compare_refl a : Ascii.compare a a = Eq.
Proof. unfold Ascii.compare. apply N.compare_refl. Qed.

Lemma string_leb_trans a :
  forall b c, String.leb a b = true -> String.leb b c = true -> String.leb a c = true.
Proof.
  unfold String.leb.
  induction a as [| x a IH]; intros [| y b] [| z c]; simpl; try reflexivity; try discriminate.
  destruct (Ascii.compare x y) eqn:Hxy; try discriminate;
    destruct (Ascii.compare y z) eqn:Hyz; try discriminate; intros H1 H2.
  - apply Ascii.compare_eq_iff in Hxy. apply Ascii.compare_eq_iff in Hyz. subst.
    rewrite ascii_compare_refl. now apply (IH b c).
  - apply Ascii.compare_eq_iff in Hxy. subst. now rewrite Hyz.
  - apply Ascii.compare_eq_iff in Hyz. subst. now rewrite Hxy.
  - assert (Hxz : Ascii.compare x z = Lt).
    { unfold Ascii.compare in *. rewrite N.compare_lt_iff in *. lia. }
    now rewrite Hxz.
Qed.

Lemma string_leb_false a b : String.leb a b = false -> String.leb b a = true.
Proof.
  intros H. destruct (String.leb_total a b) as [H' | H']; [congruence | exact H'].
Qed.

Lemma insert_sorted_perm x l : Permutation (x :: l) (insert_sorted x l).
Proof.
  induction l as [| y t IH]; simpl; [reflexivity |].
  destruct (String.leb x y); [reflexivity |].
  rewrite perm_swap. now apply perm_skip.
Qed.

Lemma insert_sorted_sorted x l :
  StronglySorted string_le l -> StronglySorted string_le (insert_sorted x l).
Proof.
  induction l as [| y t IH]; intros Hs; simpl.
  - constructor; constructor.
  - inversion Hs as [| ? ? Ht Hy]; subst.
    destruct (String.leb x y) eqn:Hxy.
    + constructor; [exact Hs |]. constructor; [exact Hxy |].
      eapply Forall_impl; [| exact Hy]. intros z Hz.
      now apply (string_leb_trans x y z).
    + constructor; [now apply IH |].
      assert (Hperm := insert_sorted_perm x t).
      apply (Permutation_Forall Hperm). constructor; [| exact Hy].
      now apply string_leb_false.
Qed.

Lemma list_sort_perm l : Permutation l (list_sort l).
Proof.
  induction l as [| x t IH]; simpl; [reflexivity |].
  rewrite <- insert_sorted_perm. now apply perm_skip.
Qed.

Lemma list_sort_sorted l : StronglySorted string_le (list_sort l).
Proof.
  induction l as [| x t IH]; simpl; [constructor | now apply insert_sorted_sorted].
Qed.

Lemma sorted_permutation_unique l :
  forall l', StronglySorted string_le l -> StronglySorted string_le l' ->
             Permutation l l' -> l = l'.
Proof.
  induction l as [| x t IH]; intros l' Hs Hs' Hp.
  - apply Permutation_nil in Hp. now subst.
  - destruct l' as [| y t']; [apply Permutation_sym, Permutation_nil in Hp; discriminate |].
    inversion Hs as [| ? ? Hst Hx]; subst. inversion Hs' as [| ? ? Hst' Hy]; subst.
    assert (Hxy : x = y).
    { assert (Hin1 : In x (y :: t')) by (apply (Permutation_in _ Hp); now left).
      assert (Hin2 : In y (x :: t))
        by (apply (Permutation_in _ (Permutation_sym Hp)); now left).
      destruct Hin1 as [-> | Hin1]; [reflexivity |].
      destruct Hin2 as [-> | Hin2]; [reflexivity |].
      rewrite Forall_forall in Hx, Hy.
      apply String.leb_antisym; [now apply Hx | now apply Hy]. }
    subst y. f_equal. apply IH; try assumption.
    now apply Permutation_cons_inv in Hp.
Qed.

Lemma in_matching_files O folder_path f :
  In f (matching_files O folder_path) <->
  exists ext, In ext extensions /\
              (In f (glob O (path_join O folder_path ("*" ++ ext)%string)) \/
               In f (glob O (path_join O folder_path ("*" ++ upper ext)%string))).
Proof.
  unfold matching_files. rewrite in_flat_map. split; intros [ext [Hext H]];
    exists ext; (split; [exact Hext |]).
  - now apply in_app_or in H.
  - now apply in_or_app.
Qed.

(** The images found.  When [get_image_files] returns, the list returned
    is not empty, is in the order of Python strings, and holds exactly the
    paths that [glob] gave for the seven extensions in lower case and in
    upper case, each as many times as it was given (a file that matches two
    patterns is listed twice); it is the only list in order with these
    elements. *)
Theorem get_image_files_sorted O folder_path image_files :
  get_image_files O folder_path = inr image_files ->
  image_files <> [] /\
  StronglySorted string_le image_files /\
  Permutation (matching_files O folder_path) image_files /\
  (forall f, In f image_files <->
             exists ext, In ext extensions /\
                         (In f (glob O (path_join O folder_path ("*" ++ ext)%string)) \/
                          In f (glob O (path_join O folder_path ("*" ++ upper ext)%string)))) /\
  (forall l, StronglySorted string_le l ->
             Permutation (matching_files O folder_path) l -> l = image_files).
Proof.
  unfold get_image_files. cbv zeta.
  pose proof (list_sort_perm (matching_files O folder_path)) as Hperm.
  pose proof (list_sort_sorted (matching_files O folder_path)) as Hsorted.
  destruct (list_sort (matching_files O folder_path)) as [| f0 rest] eqn:Hsort;
    [discriminate |].
  intros H. injection H as <-.
  split; [discriminate |]. split; [exact Hsorted |]. split; [exact Hperm |]. split.
  - intros f. rewrite <- in_matching_files. split; intros Hin.
    + exact (Permutation_in _ (Permutation_sym Hperm) Hin).
    + exact (Permutation_in _ Hperm Hin).
  - intros l Hl Hpl. apply sorted_permutation_unique; try assumption.
    now rewrite <- Hpl.
Qed.

(** No image.  [get_image_files] raises the [ValueError] "No image files
    found" exactly when [glob] returns nothing for each of the fourteen
    patterns, and it raises nothing else. *)
Theorem get_image_files_none O folder_path :
  (get_image_files O folder_path = inl (ValueError "No image files found") <->
   forall ext, In ext extensions ->
               glob O (path_join O folder_path ("*" ++ ext)%string) = [] /\
               glob O (path_join O folder_path ("*" ++ upper ext)%string) = []) /\
  (forall e, get_image_files O folder_path = inl e ->
             e = ValueError "No image files found").
Proof.
  assert (Hnil : matching_files O folder_path = [] <->
                 forall ext, In ext extensions ->
                   glob O (path_join O folder_path ("*" ++ ext)%string) = [] /\
                   glob O (path_join O folder_path ("*" ++ upper ext)%string) = []).
  { split.
    - intros H ext Hext.
      assert (Hno : forall f, ~ In f (matching_files O folder_path))
        by (rewrite H; intros f []).
      split.
      + destruct (glob O (path_join O folder_path ("*" ++ ext)%string)) as [| f t] eqn:Hg;
          [reflexivity | exfalso].
        apply (Hno f). apply in_matching_files. exists ext. rewrite Hg. simpl. auto.
      + destruct (glob O (path_join O folder_path ("*" ++ upper ext)%string)) as [| f t] eqn:Hg;
          [reflexivity | exfalso].
        apply (Hno f). apply in_matching_files. exists ext. rewrite Hg. simpl. auto.
    - intros H. destruct (matching_files O folder_path) as [| f t] eqn:Hm; [reflexivity |].
      exfalso. assert (Hin : In f (matching_files O folder_path)) by (rewrite Hm; now left).
      apply in_matching_files in Hin as [ext [Hext [Hin | Hin]]];
        destruct (H ext Hext) as [H1 H2]; [rewrite H1 in Hin | rewrite H2 in Hin];
        exact Hin. }
  pose proof (list_sort_perm (matching_files O folder_path)) as Hperm.
  unfold get_image_files. cbv zeta. split.
  - rewrite <- Hnil.
    destruct (list_sort (matching_files O folder_path)) as [| f0 rest] eqn:Hsort.
    + split; [intros _ | reflexivity]. now apply Permutation_sym, Permutation_nil in Hperm.
    + split; [discriminate |]. intros Hm. rewrite Hm in Hperm.
      apply Permutation_nil in Hperm. discriminate.
  - intros e. destruct (list_sort (matching_files O folder_path)); [| discriminate].
    intros H. now injection H as <-.
Qed.

(** ** The command line *)



(** ** More sample collaborators *)

(** ** The theorems at concrete inputs, continued *)

Lemma wipe_right_columns_witness :
  let A := solid 4 2 (1, 2, 3) in
  let B := solid 4 2 (250, 0, 255) in
  shape A = shape B /\
  apply_transition sample_externals A B 2 (of_int 0) = inr A /\
  apply_transition sample_externals A B 2 (of_int 1) = inr B.
Proof.
  split; [reflexivity |].
  pose proof (wipe_right_columns sample_externals
                (solid 4 2 (1, 2, 3)) (solid 4 2 (250, 0, 255))
                (wf_solid _ _ _) (wf_solid _ _ _) eq_refl eq_refl) as H.
  split; [exact (proj1 H) | exact (proj1 (proj2 H))].
Defined.

Lemma wipe_up_rows_witness :
  let A := solid 4 2 (1, 2, 3) in
  let B := solid 4 2 (250, 0, 255) in
  shape A = shape B /\
  apply_transition sample_externals A B 3 (of_int 0) = inr A /\
  apply_transition sample_externals A B 3 (of_int 1) = inr B.
Proof.
  split; [reflexivity |].
  pose proof (wipe_up_rows sample_externals
                (solid 4 2 (1, 2, 3)) (solid 4 2 (250, 0, 255))
                (wf_solid _ _ _) (wf_solid _ _ _) eq_refl eq_refl) as H.
  split; [exact (proj1 H) | exact (proj1 (proj2 H))].
Defined.

Lemma wipe_down_rows_witness :
  let A := solid 4 2 (1, 2, 3) in
  let B := solid 4 2 (250, 0, 255) in
  shape A = shape B /\
  apply_transition sample_externals A B 4 (of_int 0) = inr A /\
  apply_transition sample_externals A B 4 (of_int 1) = inr B.
Proof.
  split; [reflexivity |].
  pose proof (wipe_down_rows sample_externals
                (solid 4 2 (1, 2, 3)) (solid 4 2 (250, 0, 255))
                (wf_solid _ _ _) (wf_solid _ _ _) eq_refl eq_refl) as H.
  split; [exact (proj1 H) | exact (proj1 (proj2 H))].
Defined.

Lemma slide_left_columns_witness :
  let A := solid 4 2 (1, 2, 3) in
  let B := solid 4 2 (250, 0, 255) in
  shape A = shape B /\
  apply_transition sample_externals A B 7 (of_int 0) = inr A /\
  apply_transition sample_externals A B 7 (of_int 1) = inr B.
Proof.
  split; [reflexivity |].
  pose proof (slide_left_columns sample_externals
                (solid 4 2 (1, 2, 3)) (solid 4 2 (250, 0, 255))
                (wf_solid _ _ _) (wf_solid _ _ _) eq_refl eq_refl) as H.
  split; [exact (proj1 H) | exact (proj1 (proj2 H))].
Defined.

Lemma slide_right_columns_witness :
  let A := solid 4 2 (1, 2, 3) in
  let B := solid 4 2 (250, 0, 255) in
  shape A = shape B /\
  apply_transition sample_externals A B 8 (of_int 0) = inr A /\
  apply_transition sample_externals A B 8 (of_int 1) = inr B.
Proof.
  split; [reflexivity |].
  pose proof (slide_right_columns sample_externals
                (solid 4 2 (1, 2, 3)) (solid 4 2 (250, 0, 255))
                (wf_solid _ _ _) (wf_solid _ _ _) eq_refl eq_refl) as H.
  split; [exact (proj1 H) | exact (proj1 (proj2 H))].
Defined.

Lemma plain_transitions_return_witness :
  let A := solid 4 2 (1, 2, 3) in
  let B := solid 4 2 (250, 0, 255) in
  valid (ratio 1 2) = true /\
  exists r, apply_transition sample_externals A B 7 (ratio 1 2) = inr r /\
            shape r = shape A /\ wf_image r.
Proof.
  split; [vm_compute; reflexivity |].
  apply (plain_transitions_return sample_externals
           (solid 4 2 (1, 2, 3)) (solid 4 2 (250, 0, 255)) 7 (ratio 1 2));
    try apply wf_solid; try (vm_compute; reflexivity); lia.
Defined.

Lemma zoom_ends_witness :
  let A := solid 10 10 (1, 2, 3) in
  let B := solid 10 10 (250, 0, 255) in
  resize_ok sample_externals /\
  apply_transition sample_externals A B 5 (of_int 1) = cv2_resize sample_externals B 10 10 /\
  apply_transition sample_externals A B 6 (of_int 0) = cv2_resize sample_externals A 10 10.
Proof.
  split; [exact sample_resize_ok |].
  apply (zoom_ends sample_externals (solid 10 10 (1, 2, 3)) (solid 10 10 (250, 0, 255)));
    try apply wf_solid; try exact sample_resize_ok; try reflexivity;
    (split; [vm_compute; discriminate | reflexivity]).
Defined.

Lemma zoom_returns_witness :
  let A := solid 12 10 (1, 2, 3) in
  let B := solid 12 10 (250, 0, 255) in
  resize_ok sample_externals /\
  ((exists r, apply_transition sample_externals A B 5 (ratio 1 2) = inr r /\
              shape r = shape A /\ wf_image r) \/
   (exists fg scaled_w scaled_h e,
       10 <= scaled_w /\ 10 <= scaled_h /\
       cv2_resize sample_externals fg scaled_w scaled_h = inl e /\
       apply_transition sample_externals A B 5 (ratio 1 2) = inl e)).
Proof.
  split; [exact sample_resize_ok |].
  apply (zoom_returns sample_externals (solid 12 10 (1, 2, 3)) (solid 12 10 (250, 0, 255))
                      5 (ratio 1 2));
    try apply wf_solid; try exact sample_resize_ok; try (vm_compute; reflexivity).
  left; reflexivity.
Defined.

Lemma writer_not_opened_aborts_witness :
  let cfg := sample_config (of_int 10) (of_int 1) 10 "fade" in
  let r := create_slideshow closed_writer ["a.png"; "b.png"]%string cfg initial in
  compute_image_duration cfg 2 = inr (ratio 9 2) /\
  fst r = inl (ValueError "Could not open output video file") /\
  written (snd r) = [] /\ prev_image (snd r) = None /\ rand_calls (snd r) = 0%nat.
Proof.
  split; [vm_compute; reflexivity |].
  apply (writer_not_opened_aborts closed_writer
           (sample_config (of_int 10) (of_int 1) 10 "fade") "a.png" ["b.png"%string]
           (ratio 9 2) (solid 16 9 (200, 10, 10)) 9);
    vm_compute; reflexivity.
Defined.

Lemma zero_frame_budget_raises_witness :
  let cfg := sample_config (of_int 10) (of_int 1) 0 "fade" in
  let r := create_slideshow sample_externals ["a.png"; "b.png"]%string cfg initial in
  frame_budget cfg = inr 0 /\
  fst r = inl ZeroDivisionError /\ written (snd r) = [] /\
  prev_image (snd r) = Some (solid 16 9 (200, 10, 10)).
Proof.
  split; [vm_compute; reflexivity |].
  apply (zero_frame_budget_raises sample_externals
           (sample_config (of_int 10) (of_int 1) 0 "fade") "a.png" ["b.png"%string]
           (ratio 9 2) (solid 16 9 (200, 10, 10)) 9 (solid 16 9 (200, 10, 10)) 0);
    vm_compute; reflexivity.
Defined.


Lemma fixed_transition_ignores_random_witness :
  let cfg := sample_config (of_int 10) (of_int 1) 10 "wipe_left" in
  let files := ["a.png"; "b.png"]%string in
  create_slideshow (with_randint sample_externals (fun k => Z.of_nat k)) files cfg initial
  = create_slideshow sample_externals files cfg initial /\
  rand_calls (snd (create_slideshow sample_externals files cfg initial)) = 0%nat.
Proof.
  apply (fixed_transition_ignores_random sample_externals (fun k => Z.of_nat k)
           ["a.png"; "b.png"]%string
           (sample_config (of_int 10) (of_int 1) 10 "wipe_left") initial).
  reflexivity.
Defined.

Lemma random_transition_draws_witness :
  let cfg := sample_config (of_int 10) (of_int 1) 10 "random" in
  let files := ["a.png"; "bad.png"; "b.png"; "c.png"]%string in
  fst (create_slideshow sample_externals files cfg initial) = inr tt /\
  rand_calls (snd (create_slideshow sample_externals files cfg initial)) = 2%nat.
Proof.
  split; [vm_compute; reflexivity |].
  apply (random_transition_draws sample_externals
           ["a.png"; "bad.png"; "b.png"; "c.png"]%string
           (sample_config (of_int 10) (of_int 1) 10 "random"));
    vm_compute; reflexivity.
Defined.

Lemma unknown_transition_is_fade_witness :
  let cfg := sample_config (of_int 4) (of_int 1) 10 "spin" in
  let r := create_slideshow sample_externals ["a.png"; "b.png"]%string cfg initial in
  let r' := create_slideshow sample_externals ["a.png"; "b.png"]%string (as_fade cfg) initial in
  lookup "spin" TRANSITIONS = None /\
  fst r = fst r' /\ written (snd r) = written (snd r') /\
  stdout (snd r) = WarnUnknownTransition "spin" :: stdout (snd r').
Proof.
  split; [reflexivity |].
  apply (unknown_transition_is_fade sample_externals ["a.png"; "b.png"]%string
           (sample_config (of_int 4) (of_int 1) 10 "spin")); reflexivity.
Defined.

Lemma single_image_fills_budget_witness :
  let cfg := sample_config (of_int 2) (of_int 1) 10 "fade" in
  fst (create_slideshow sample_externals ["a.png"%string] cfg initial) = inr tt /\
  exists image target_h curr_img total_frames,
    imread sample_externals "a.png" = Some image /\
    canvas_height (Z.of_nat (img_width image)) = inr target_h /\
    resize_image sample_externals image (Z.of_nat (img_width image)) target_h = inr curr_img /\
    frame_budget cfg = inr total_frames /\
    written (snd (create_slideshow sample_externals ["a.png"%string] cfg initial))
    = repeat curr_img (Z.to_nat total_frames).
Proof.
  split; [vm_compute; reflexivity |].
  apply (single_image_fills_budget sample_externals
           (sample_config (of_int 2) (of_int 1) 10 "fade") "a.png");
    vm_compute; reflexivity.
Defined.

Lemma successful_run_conditions_witness :
  let cfg := sample_config (of_int 4) (of_int 1) 10 "fade" in
  let files := ["a.png"; "b.png"]%string in
  fst (create_slideshow sample_externals files cfg initial) = inr tt /\
  exists first_path rest first_image image_duration target_h total_frames,
    files = first_path :: rest /\
    imread sample_externals first_path = Some first_image /\
    compute_image_duration cfg (Z.of_nat (length files)) = inr image_duration /\
    canvas_height (Z.of_nat (img_width first_image)) = inr target_h /\
    writer_opened sample_externals (output_file cfg) (frame_rate cfg)
                  (Z.of_nat (img_width first_image)) target_h = true /\
    frame_budget cfg = inr total_frames /\
    total_frames <> 0 /\ frame_rate cfg <> 0.
Proof.
  split; [vm_compute; reflexivity |].
  apply (successful_run_conditions sample_externals ["a.png"; "b.png"]%string
           (sample_config (of_int 4) (of_int 1) 10 "fade")).
  vm_compute; reflexivity.
Defined.

Lemma resize_image_same_ratio_direct_witness :
  let image := solid 8 8 (10, 200, 10) in
  truediv 8 8 = truediv 16 16 /\
  resize_image sample_externals image 16 16 = cv2_resize sample_externals image 16 16.
Proof.
  split; [vm_compute; reflexivity |].
  apply (resize_image_same_ratio_direct sample_externals (solid 8 8 (10, 200, 10)) 16 16);
    try (split; [reflexivity | reflexivity]); vm_compute; reflexivity.
Defined.

Lemma get_image_files_sorted_witness :
  let image_files := ["pics/C.JPG"; "pics/a.png"; "pics/b.png"]%string in
  get_image_files sample_os "pics" = inr image_files /\
  StronglySorted string_le image_files /\
  Permutation (matching_files sample_os "pics") image_files.
Proof.
  split; [vm_compute; reflexivity |].
  pose proof (get_image_files_sorted sample_os "pics"
                ["pics/C.JPG"; "pics/a.png"; "pics/b.png"]%string
                ltac:(vm_compute; reflexivity)) as H.
  split; [exact (proj1 (proj2 H)) | exact (proj1 (proj2 (proj2 H)))].
Defined.


(** The seven transitions without [cv2.resize], half-way between two frames
    of one row and four columns (grey levels 1 to 4 and 5 to 8). *)
Lemma transitions_half_way :
  let px := fun v : Z => (v, v, v) in
  let A := mk_image 4 [map px [1; 2; 3; 4]] in
  let B := mk_image 4 [map px [5; 6; 7; 8]] in
  let row := fun l => inr (mk_image 4 [map px l]) : exn + ndarray in
  let half := ratio 1 2 in
  apply_transition sample_externals A B 0 half = row [3; 4; 5; 6] /\
  apply_transition sample_externals A B 1 half = row [5; 6; 3; 4] /\
  apply_transition sample_externals A B 2 half = row [1; 2; 7; 8] /\
  apply_transition sample_externals A B 7 half = row [3; 4; 5; 6] /\
  apply_transition sample_externals A B 8 half = row [7; 8; 1; 2].
Proof. vm_compute. repeat split. Qed.

(** ** The three branches of [resize_image] *)

Lemma dims_bound_value : B2R dims_bound = (IZR (2 ^ 53) * IZR (2 ^ 53))%R.
Proof.
  unfold dims_bound. rewrite B2R_finite.
  unfold F2R. rewrite (bpow_IZR 54) by lia. rewrite <- !mult_IZR. f_equal.
Qed.

Lemma dims_unit_value : (B2R dims_unit * IZR (2 ^ 53) = 1)%R.
Proof.
  unfold dims_unit. rewrite B2R_finite. unfold F2R.
  change 4503599627370496 with (2 ^ 52). rewrite <- (bpow_IZR 52), <- (bpow_IZR 53) by lia.
  rewrite <- !bpow_plus. reflexivity.
Qed.

Lemma ratio_of_dims a b :
  0 < a < 2 ^ 53 -> 0 < b < 2 ^ 53 ->
  exists q, truediv a b = inr q /\ valid q = true /\ positive_float q /\
            (B2R dims_unit <= B2R q <= IZR a)%R /\
            (forall c, valid c = true -> nonneg_float c ->
                       (B2R c * IZR b <= IZR a)%R -> (B2R c <= B2R q)%R) /\
            (forall c, valid c = true -> nonneg_float c ->
                       (IZR a <= B2R c * IZR b)%R -> (B2R q <= B2R c)%R).
Proof.
  intros Ha Hb.
  destruct (truediv_dims a b Ha Hb) as [q [Hq [Hvq [Hnq [Hlo Hup]]]]].
  destruct (of_int_exact a Ha) as [Hva [Hpa HBa]].
  assert (Ha1 : (1 <= IZR a)%R) by (apply IZR_le; lia).
  assert (Hb1 : (1 <= IZR b)%R) by (apply IZR_le; lia).
  assert (Hb2 : (IZR b <= IZR (2 ^ 53))%R) by (apply IZR_le; lia).
  pose proof dims_unit_value as Hu.
  assert (Hu0 : (0 < B2R dims_unit)%R).
  { unfold dims_unit. rewrite B2R_finite. apply F2R_pos. }
  assert (Hlow : (B2R dims_unit <= B2R q)%R).
  { apply Hlo; [reflexivity | reflexivity |]. nra. }
  assert (Hhigh : (B2R q <= IZR a)%R).
  { rewrite <- HBa. apply Hup; [exact Hva | now apply positive_nonneg |]. rewrite HBa. nra. }
  exists q. split; [exact Hq |]. split; [exact Hvq |]. split.
  - destruct q as [s | s | | s m e]; simpl in Hnq; try contradiction.
    + simpl in Hlow. lra.
    + subst s. exact I.
  - split; [split; assumption |]. split; assumption.
Qed.

Lemma resize_image_cases E image width height :
  0 < Z.of_nat (img_height image) < 2 ^ 53 ->
  0 < Z.of_nat (img_width image) < 2 ^ 53 ->
  0 < width < 2 ^ 53 -> 0 < height < 2 ^ 53 ->
  resize_image E image width height = cv2_resize E image width height \/
  (exists new_w,
      width <= new_w /\
      resize_image E image width height
      = (img_resized <- cv2_resize E image new_w height ;;
         inr (getitem img_resized None None
                      (Some ((new_w - width) / 2))
                      (Some ((new_w - width) / 2 + width))))%err) \/
  (exists new_h,
      height <= new_h /\
      resize_image E image width height
      = (img_resized <- cv2_resize E image width new_h ;;
         inr (getitem img_resized
                      (Some ((new_h - height) / 2))
                      (Some ((new_h - height) / 2 + height)) None None))%err).
Proof.
  intros Hh Hw Hwidth Hheight. unfold resize_image, shape.
  set (h := Z.of_nat (img_height image)) in *.
  set (w := Z.of_nat (img_width image)) in *.
  destruct (ratio_of_dims w h Hw Hh)
    as [cr [Hcr [Hvcr [Hpcr [[Hcr_min Hcr_max] [Hcr_lo Hcr_up]]]]]].
  destruct (ratio_of_dims width height Hwidth Hheight)
    as [tr [Htr [Hvtr [Hptr [_ [Htr_lo Htr_up]]]]]].
  rewrite Hcr, Htr. cbn [ebind].
  pose proof (positive_nonneg _ Hpcr) as Hncr.
  pose proof (positive_nonneg _ Hptr) as Hntr.
  destruct (of_int_exact width Hwidth) as [Hvw [Hpw HBw]].
  destruct (of_int_exact height Hheight) as [Hvh [Hph HBh]].
  pose proof (positive_float_B2R _ Hpcr) as Hcr0.
  assert (Hw53 : (IZR w <= IZR (2 ^ 53))%R) by (apply IZR_le; lia).
  assert (Hwidth53 : (IZR width <= IZR (2 ^ 53))%R) by (apply IZR_le; lia).
  assert (Hheight53 : (IZR height <= IZR (2 ^ 53))%R) by (apply IZR_le; lia).
  assert (Hheight0 : (0 < IZR height)%R) by (apply IZR_lt; lia).
  assert (Hwidth0 : (0 < IZR width)%R) by (apply IZR_lt; lia).
  assert (H53 : (0 < IZR (2 ^ 53))%R) by (apply IZR_lt; reflexivity).
  destruct (flt (fabs (fsub cr tr)) (ratio 1 100)) eqn:Hclose; [now left | right].
  destruct (flt tr cr) eqn:Hwider.
  - left. apply flt_spec in Hwider; auto using nonneg_is_finite.
    assert (Hexact : (IZR width <= IZR height * B2R cr)%R).
    { destruct (Rle_lt_dec (IZR width) (IZR height * B2R cr)) as [| Hlt]; [assumption |].
      exfalso. assert (B2R cr <= B2R tr)%R by (apply Htr_lo; auto; lra). lra. }
    assert (Hbound : (B2R (of_int height) * B2R cr <= B2R dims_bound)%R).
    { rewrite HBh, dims_bound_value. nra. }
    destruct (fmul_RU (of_int height) cr dims_bound Hvh Hvcr eq_refl
                (positive_nonneg _ Hph) Hncr eq_refl Hbound) as [Hvm [Hnm _]].
    destruct (fmul_RD (of_int height) cr (of_int width)) as [Hinf | [_ [_ Hle]]];
      auto using positive_nonneg.
    { now rewrite HBw, HBh. }
    { rewrite Hinf in Hnm. contradiction. }
    rewrite HBw in Hle.
    destruct (py_int_ge _ width Hnm Hle) as [new_w [Hnw Hge]].
    exists new_w. split; [exact Hge |]. rewrite Hnw. reflexivity.
  - right.
    assert (Hzero : is_zero cr = false).
    { destruct cr; simpl in Hpcr; try contradiction; reflexivity. }
    rewrite Hzero. cbn [ebind].
    assert (Hexact : (IZR height * B2R cr <= IZR width)%R).
    { destruct (Rle_lt_dec (IZR height * B2R cr) (IZR width)) as [| Hlt]; [assumption |].
      exfalso. assert (Htc : (B2R tr <= B2R cr)%R) by (apply Htr_up; auto; lra).
      assert (Hne : B2R cr <> B2R tr).
      { intros Heq.
        rewrite (close_ratio_zero _ (fsub_same_number cr tr Hvcr Hvtr Hncr Hntr Heq))
          in Hclose. discriminate. }
      assert (Hlt' : (B2R tr < B2R cr)%R) by lra.
      apply flt_spec in Hlt'; auto using nonneg_is_finite. congruence. }
    assert (Hbound : (B2R (of_int width) <= B2R dims_bound * B2R cr)%R).
    { rewrite HBw, dims_bound_value. pose proof dims_unit_value as Hu.
      assert (IZR (2 ^ 53) * (IZR (2 ^ 53) * B2R dims_unit)
              <= IZR (2 ^ 53) * (IZR (2 ^ 53) * B2R cr))%R by nra.
      nra. }
    destruct (fdiv_RU (of_int width) cr dims_bound Hvw Hvcr eq_refl
                (positive_nonneg _ Hpw) Hpcr eq_refl Hbound) as [Hvm [Hnm _]].
    destruct (fdiv_RD (of_int width) cr (of_int height)) as [Hinf | [_ [_ Hge]]];
      auto using positive_nonneg.
    { now rewrite HBw, HBh. }
    { rewrite Hinf in Hnm. contradiction. }
    rewrite HBh in Hge.
    destruct (py_int_ge _ height Hnm Hge) as [new_h [Hnh Hge']].
    exists new_h. split; [exact Hge' |]. rewrite Hnh. reflexivity.
Qed.

(** Resize, then crop at the centre.  For an image and a target of
    positive dimensions below 2^53, [resize_image] is one of three things:
    [cv2.resize] to the target size; or [cv2.resize] to the target height
    and a width [new_w >= width], then the [width] columns from
    [(new_w - width) // 2]; or [cv2.resize] to the target width and a
    height [new_h >= height], then the [height] rows from
    [(new_h - height) // 2].  So the scaled image always covers the target,
    and no exception is raised but those of [cv2.resize]. *)
Theorem resize_image_branches E image width height :
  0 < Z.of_nat (img_height image) < 2 ^ 53 ->
  0 < Z.of_nat (img_width image) < 2 ^ 53 ->
  0 < width < 2 ^ 53 -> 0 < height < 2 ^ 53 ->
  resize_image E image width height = cv2_resize E image width height \/
  (exists new_w,
      width <= new_w /\
      resize_image E image width height
      = (img_resized <- cv2_resize E image new_w height ;;
         inr (getitem img_resized None None
                      (Some ((new_w - width) / 2))
                      (Some ((new_w - width) / 2 + width))))%err) \/
  (exists new_h,
      height <= new_h /\
      resize_image E image width height
      = (img_resized <- cv2_resize E image width new_h ;;
         inr (getitem img_resized
                      (Some ((new_h - height) / 2))
                      (Some ((new_h - height) / 2 + height)) None None))%err).
Proof.
  intros Hh Hw Hwidth Hheight.
  destruct (resize_image_cases E image width height Hh Hw Hwidth Hheight)
    as [Hdirect | [[new_w [Hge Hwider]] | [new_h [Hge Htaller]]]].
  - now left.
  - right. left. now exists new_w.
  - right. right. now exists new_h.
Qed.

(** ** The progress of a transition *)

Lemma transition_progress_unit j tf :
  0 <= j < tf -> tf < 2 ^ 53 ->
  exists p, truediv j tf = inr p /\ valid p = true /\
            fle (of_int 0) p = true /\ fle p (of_int 1) = true /\
            (j = 0 -> p = of_int 0).
Proof.
  intros Hj Htf.
  destruct (of_int_exact 1 ltac:(lia)) as [Hv1 [Hp1 HB1]].
  destruct (Z.eq_dec j 0) as [-> | Hj0].
  - destruct (of_int_exact tf ltac:(lia)) as [Hvt [Hpt _]].
    unfold truediv. destruct (Z.eqb_spec tf 0); [lia |].
    exists (of_int 0). split.
    + f_equal. change (of_int 0) with (S754_zero false).
      destruct (of_int tf) as [s | s | | [|] m e]; simpl in Hpt; try contradiction.
      reflexivity.
    + repeat split; reflexivity.
  - destruct (truediv_dims j tf ltac:(lia) ltac:(lia)) as [q [Hq [Hvq [Hnq [_ Hup]]]]].
    exists q. split; [exact Hq |]. split; [exact Hvq |].
    assert (Hle : (B2R q <= B2R (of_int 1))%R).
    { apply Hup; [exact Hv1 | now apply positive_nonneg |]. rewrite HB1.
      assert (IZR j <= IZR tf)%R by (apply IZR_le; lia). lra. }
    split; [| split; [| intros; lia]].
    + destruct q as [s | s | | s m e]; simpl in Hnq; try contradiction;
        [destruct s; reflexivity | subst s; reflexivity].
    + apply fle_spec; auto using nonneg_is_finite.
Qed.

Lemma transition_loop_returns E tf total kind curr_img prev :
  tf < 2 ^ 53 ->
  (forall p, valid p = true -> fle (of_int 0) p = true -> fle p (of_int 1) = true ->
             exists frame, apply_transition E prev curr_img kind p = inr frame) ->
  forall iters st,
    (forall j, In j iters -> 0 <= j < tf) ->
    prev_image st = Some prev ->
    exists st', transition_loop E iters tf total kind curr_img st = (inr tt, st') /\
                prev_image st' = Some prev.
Proof.
  intros Htf Hframes.
  induction iters as [| j rest IH]; intros st Hin Hprev.
  - exists st. split; [reflexivity | exact Hprev].
  - assert (Hstep : exists st1,
               (frame_count <- get_frame_count ;;
                if frame_count <? total then
                  progress <- lift (truediv j tf) ;;
                  prev_image <- get_prev_image ;;
                  frame <- lift (apply_transition E prev_image curr_img kind progress) ;;
                  out_write frame
                else ret tt)%build st = (inr tt, st1) /\ prev_image st1 = Some prev).
    { unfold bind at 1. unfold get_frame_count at 1. cbv iota. cbv beta.
      destruct (frame_count st <? total); [| exists st; split; [reflexivity | exact Hprev]].
      destruct (transition_progress_unit j tf (Hin j (or_introl eq_refl)) Htf)
        as [p [Hp [Hvp [Hp0 [Hp1 _]]]]].
      destruct (Hframes p Hvp Hp0 Hp1) as [frame Hframe].
      unfold bind, lift, get_prev_image. rewrite Hp, Hprev, Hframe.
      eexists. split; [reflexivity | exact Hprev]. }
    destruct Hstep as [st1 [Hst1 Hprev1]].
    destruct (IH st1 (fun j' Hj' => Hin j' (or_intror Hj')) Hprev1) as [st' [Hst' Hprev']].
    exists st'. split; [| exact Hprev'].
    cbn [transition_loop]. rewrite (bind_value _ _ st tt st1 Hst1). exact Hst'.
Qed.

(** A transition segment.  Between a previous frame and a current frame of
    one resolution, the loop over [range(transition_frames)] returns
    normally for every kind but the two zooms: no transition frame raises.
    Every progress [j / transition_frames] that it passes to
    [apply_transition] is a number from 0.0 to 1.0, and the first one is
    0.0 exactly. *)
Theorem transition_segment_returns E tf total kind curr_img prev st :
  wf_image prev -> wf_image curr_img -> shape prev = shape curr_img ->
  Z.of_nat (img_height prev) < 2 ^ 53 -> Z.of_nat (img_width prev) < 2 ^ 53 ->
  tf < 2 ^ 53 -> kind <> 5 -> kind <> 6 ->
  prev_image st = Some prev ->
  (exists st', transition_loop E (range tf) tf total kind curr_img st = (inr tt, st') /\
               prev_image st' = Some prev) /\
  (forall j, In j (range tf) ->
             exists p, truediv j tf = inr p /\ valid p = true /\
                       fle (of_int 0) p = true /\ fle p (of_int 1) = true /\
                       (j = 0 -> p = of_int 0)).
Proof.
  intros Hwp Hwc Hs Hh Hw Htf H5 H6 Hprev. split.
  - apply (transition_loop_returns E tf total kind curr_img prev); try assumption.
    + intros p Hv H0 H1. now apply plain_transition_frame.
    + intros j Hj. now apply in_range.
  - intros j Hj. apply transition_progress_unit; [now apply in_range | exact Htf].
Qed.

Lemma resize_image_branches_witness :
  let image := solid 8 8 (10, 200, 10) in
  resize_image sample_externals image 16 9 = inr (solid 16 9 (10, 200, 10)) /\
  (resize_image sample_externals image 16 9 = cv2_resize sample_externals image 16 9 \/
   (exists new_w,
       16 <= new_w /\
       resize_image sample_externals image 16 9
       = (img_resized <- cv2_resize sample_externals image new_w 9 ;;
          inr (getitem img_resized None None
                       (Some ((new_w - 16) / 2)) (Some ((new_w - 16) / 2 + 16))))%err) \/
   (exists new_h,
       9 <= new_h /\
       resize_image sample_externals image 16 9
       = (img_resized <- cv2_resize sample_externals image 16 new_h ;;
          inr (getitem img_resized (Some ((new_h - 9) / 2)) (Some ((new_h - 9) / 2 + 9))
                       None None))%err)).
Proof.
  split; [vm_compute; reflexivity |].
  apply (resize_image_branches sample_externals (solid 8 8 (10, 200, 10)) 16 9);
    split; reflexivity.
Defined.

Lemma transition_segment_returns_witness :
  let prev := solid 4 2 (1, 2, 3) in
  let curr_img := solid 4 2 (250, 0, 255) in
  let st := mk_builder (Some prev) 0 [] [] 0 in
  shape prev = shape curr_img /\
  exists st', transition_loop sample_externals (range 5) 5 100 7 curr_img st = (inr tt, st') /\
              prev_image st' = Some prev.
Proof.
  split; [reflexivity |].
  apply (transition_segment_returns sample_externals 5 100 7
           (solid 4 2 (250, 0, 255)) (solid 4 2 (1, 2, 3))
           (mk_builder (Some (solid 4 2 (1, 2, 3))) 0 [] [] 0));
    try apply wf_solid; try reflexivity; lia.
Defined.

(** ** Runs that complete *)

Lemma apply_transition_total E prev curr kind p th tw :
  resize_ok E -> resize_total E ->
  on_canvas th tw prev -> on_canvas th tw curr ->
  0 < th < 2 ^ 53 -> 0 < tw < 2 ^ 53 ->
  valid p = true -> fle (of_int 0) p = true -> fle p (of_int 1) = true ->
  exists frame, apply_transition E prev curr kind p = inr frame /\ on_canvas th tw frame.
Proof.
  intros HE HT [Hsp Hwp] [Hsc Hwc] Hth Htw Hv H0 H1.
  assert (Hs : shape prev = shape curr) by congruence.
  pose proof Hsp as Hdims. unfold shape in Hdims. injection Hdims as Hhp Hwdp.
  pose proof Hsc as Hdimc. unfold shape in Hdimc. injection Hdimc as Hhc Hwdc.
  assert (Hret : exists frame, apply_transition E prev curr kind p = inr frame).
  { destruct (Z.eq_dec kind 5) as [-> | H5].
    - change (apply_transition E prev curr 5 p) with (zoom E prev curr curr prev p p).
      destruct (zoom_returns_or_resize_fails E prev curr curr prev p p Hwp Hwc Hs
                  ltac:(lia) ltac:(lia) Hv H0 H1) as [Hr | [sw [sh [e [Hsw [Hsh [Hres _]]]]]]];
        [exact Hr | exfalso].
      destruct (HT curr sw sh) as [r Hr]; try lia. congruence.
    - destruct (Z.eq_dec kind 6) as [-> | H6].
      + change (apply_transition E prev curr 6 p)
          with (zoom E prev curr prev curr (fsub (of_int 1) p) p).
        destruct (complement_unit p Hv H0 H1) as [Hvq [Hq0 Hq1]].
        destruct (zoom_returns_or_resize_fails E prev curr prev curr (fsub (of_int 1) p) p
                    Hwp Hwc Hs ltac:(lia) ltac:(lia) Hvq Hq0 Hq1)
          as [Hr | [sw [sh [e [Hsw [Hsh [Hres _]]]]]]]; [exact Hr | exfalso].
        destruct (HT prev sw sh) as [r Hr]; try lia. congruence.
      + apply plain_transition_frame; try assumption; lia. }
  destruct Hret as [frame Hframe]. exists frame. split; [exact Hframe |].
  destruct (apply_transition_shape E prev curr kind p frame HE Hs Hwp Hwc Hframe)
    as [Hsf Hwf].
  split; [congruence | exact Hwf].
Qed.

Lemma progress_report frame_count total :
  0 <= frame_count <= total -> 0 < total < 2 ^ 53 ->
  exists ratio pct,
    truediv frame_count total = inr ratio /\
    py_int (fmul ratio (of_int 100)) = inr pct.
Proof.
  intros Hfc Htotal.
  destruct (of_int_exact 100 ltac:(lia)) as [Hv100 [Hp100 HB100]].
  destruct (of_int_exact 1 ltac:(lia)) as [Hv1 [Hp1 HB1]].
  destruct (Z.eq_dec frame_count 0) as [-> | Hpos].
  - destruct (of_int_exact total Htotal) as [Hvt [Hpt _]].
    unfold truediv. destruct (Z.eqb_spec total 0); [lia |].
    eexists. eexists. split; [reflexivity |].
    change (of_int 0) with (S754_zero false).
    destruct (of_int total) as [s | s | | [|] m e]; simpl in Hpt; try contradiction.
    reflexivity.
  - destruct (truediv_dims frame_count total ltac:(lia) Htotal)
      as [q [Hq [Hvq [Hnq [_ Hup]]]]].
    assert (Hle : (B2R q <= B2R (of_int 1))%R).
    { apply Hup; [exact Hv1 | now apply positive_nonneg |]. rewrite HB1.
      assert (IZR frame_count <= IZR total)%R by (apply IZR_le; lia). lra. }
    assert (Hprod : (B2R q * B2R (of_int 100) <= B2R (of_int 100))%R).
    { rewrite HB1 in Hle. rewrite HB100. pose proof (nonneg_float_B2R _ Hnq). lra. }
    destruct (fmul_RU q (of_int 100) (of_int 100) Hvq Hv100 Hv100 Hnq
                (positive_nonneg _ Hp100) (positive_nonneg _ Hp100) Hprod)
      as [_ [Hnm _]].
    destruct (py_int_nonneg _ Hnm) as [pct [Hpct _]].
    exists q, pct. split; assumption.
Qed.

Lemma resize_image_returns E image width height :
  resize_ok E -> resize_total E ->
  0 < Z.of_nat (img_height image) < 2 ^ 53 ->
  0 < Z.of_nat (img_width image) < 2 ^ 53 ->
  0 < width < 2 ^ 53 -> 0 < height < 2 ^ 53 ->
  exists r, resize_image E image width height = inr r /\ on_canvas height width r.
Proof.
  intros HE HT Hh Hw Hwidth Hheight.
  assert (Hret : exists r, resize_image E image width height = inr r).
  { destruct (resize_image_cases E image width height Hh Hw Hwidth Hheight)
      as [-> | [[new_w [Hge ->]] | [new_h [Hge ->]]]].
    - apply HT; lia.
    - destruct (HT image new_w height) as [r ->]; try lia. cbn [ebind]. eauto.
    - destruct (HT image width new_h) as [r ->]; try lia. cbn [ebind]. eauto. }
  destruct Hret as [r Hr]. exists r. split; [exact Hr |].
  apply (resize_image_shape E image width height r); try assumption; lia.
Qed.

Lemma display_loop_streaming iters total curr_img st :
  within_budget total st ->
  exists st', display_loop iters total curr_img st = (inr tt, st') /\
              within_budget total st' /\ prev_image st' = prev_image st.
Proof.
  intros Hst. eexists. split; [apply display_loop_writes |].
  split; [| reflexivity].
  pose proof (display_loop_within_budget iters total curr_img st Hst) as H.
  now rewrite display_loop_writes in H.
Qed.

Lemma transition_loop_streaming E th tw tf total kind curr_img prev st :
  resize_ok E -> resize_total E ->
  on_canvas th tw prev -> on_canvas th tw curr_img ->
  0 < th < 2 ^ 53 -> 0 < tw < 2 ^ 53 -> tf < 2 ^ 53 ->
  within_budget total st -> prev_image st = Some prev ->
  exists st', transition_loop E (range tf) tf total kind curr_img st = (inr tt, st') /\
              within_budget total st' /\ prev_image st' = Some prev.
Proof.
  intros HE HT Hp Hc Hth Htw Htf Hst Hprev.
  destruct (transition_loop_returns E tf total kind curr_img prev Htf) with (iters := range tf)
                                                                           (st := st)
    as [st' [Hrun Hprev']]; try assumption.
  - intros p Hv H0 H1.
    destruct (apply_transition_total E prev curr_img kind p th tw HE HT Hp Hc Hth Htw Hv H0 H1)
      as [frame [Hframe _]]. eauto.
  - intros j Hj. now apply in_range.
  - exists st'. split; [exact Hrun |]. split; [| exact Hprev'].
    pose proof (transition_loop_within_budget E (range tf) tf total kind curr_img st Hst) as H.
    now rewrite Hrun in H.
Qed.

Lemma report_streaming th tw total curr_img st :
  0 < total < 2 ^ 53 ->
  within_budget total st -> on_canvas th tw curr_img ->
  exists st',
    (set_prev_image curr_img ;;
     frame_count <- get_frame_count ;;
     ratio <- lift (truediv frame_count total) ;;
     pct <- lift (py_int (fmul ratio (of_int 100))) ;;
     print (PrintProgress (Z.min 100 pct) frame_count total))%build st = (inr tt, st') /\
    streaming th tw total st' /\ prev_image st' <> None.
Proof.
  intros Htotal Hst Hc. pose proof Hst as [Hlen Hle].
  destruct (progress_report (frame_count st) total ltac:(lia) Htotal)
    as [ratio [pct [Hratio Hpct]]].
  unfold bind at 1. unfold set_prev_image at 1. cbv iota. cbv beta.
  unfold bind at 1. unfold get_frame_count at 1. cbv iota. cbv beta.
  cbn [frame_count].
  rewrite (bind_lift_inr _ ratio) by exact Hratio.
  rewrite (bind_lift_inr _ pct) by exact Hpct.
  eexists. split; [reflexivity |].
  split; [| discriminate]. split; [exact Hst | exact Hc].
Qed.

Lemma process_image_total E cfg fixed idur tw th total i img_path fpi tf st :
  resize_ok E -> decoder_ok E -> resize_total E ->
  0 < th < 2 ^ 53 -> 0 < tw < 2 ^ 53 -> 0 < total < 2 ^ 53 -> tf < 2 ^ 53 ->
  py_int (fmul idur (of_int (frame_rate cfg))) = inr fpi ->
  py_int (fmul (transition_duration cfg) (of_int (frame_rate cfg))) = inr tf ->
  streaming th tw total st ->
  i = 0 \/ prev_image st <> None ->
  exists st',
    process_image E cfg fixed idur tw th total i img_path st = (inr tt, st') /\
    streaming th tw total st' /\
    (prev_image st <> None \/ imread E img_path <> None -> prev_image st' <> None).
Proof.
  intros HE HD HT Hth Htw Htotal Htf Hfpi Htfv [Hbudget Hprev] Hi.
  unfold process_image.
  destruct (imread E img_path) as [raw |] eqn:Hread.
  2: { eexists. split; [reflexivity |]. split.
       - split; [exact Hbudget | exact Hprev].
       - intros [H | H]; [exact H | contradiction]. }
  destruct (HD _ _ Hread) as [Hwf [Hrh Hrw]].
  assert (H31 : 2 ^ 31 < 2 ^ 53) by reflexivity.
  destruct (resize_image_returns E raw tw th HE HT ltac:(lia) ltac:(lia) Htw Hth)
    as [curr [Hres Hcurr]].
  rewrite (bind_lift_inr _ curr) by exact Hres.
  assert (Hsegments : exists st1,
             (if i =? 0
              then (frames_per_image <-
                      lift (py_int (fmul idur (of_int (frame_rate cfg)))) ;;
                    display_loop (range frames_per_image) total curr)
              else (curr_transition <-
                      match fixed with
                      | Some t => ret t
                      | None => random_randint E
                      end ;;
                    transition_frames <-
                      lift (py_int (fmul (transition_duration cfg)
                                         (of_int (frame_rate cfg)))) ;;
                    transition_loop E (range transition_frames) transition_frames total
                                    curr_transition curr ;;
                    frames_per_image <-
                      lift (py_int (fmul idur (of_int (frame_rate cfg)))) ;;
                    display_loop (range frames_per_image) total curr))%build st
             = (inr tt, st1) /\ within_budget total st1).
  { destruct (Z.eqb_spec i 0) as [Hi0 | Hi0].
    - rewrite (bind_lift_inr _ fpi) by exact Hfpi.
      destruct (display_loop_streaming (range fpi) total curr st Hbudget)
        as [st1 [Hrun [Hb1 _]]]. eauto.
    - destruct Hi as [Hi | Hsome]; [contradiction |].
      destruct (prev_image st) as [prev |] eqn:Hp; [| contradiction].
      set (st0 := snd (match fixed with
                       | Some t => ret t
                       | None => random_randint E
                       end st)).
      set (kind := match fixed with
                   | Some t => t
                   | None => randint E (rand_calls st)
                   end).
      assert (Hkind : match fixed with
                      | Some t => ret t
                      | None => random_randint E
                      end st = (inr kind, st0)).
      { unfold st0, kind. destruct fixed; reflexivity. }
      assert (Hb0 : within_budget total st0) by (unfold st0; destruct fixed; exact Hbudget).
      assert (Hp0 : prev_image st0 = Some prev) by (unfold st0; destruct fixed; exact Hp).
      rewrite (bind_value _ _ st kind st0 Hkind).
      rewrite (bind_lift_inr _ tf) by exact Htfv.
      destruct (transition_loop_streaming E th tw tf total kind curr prev st0
                  HE HT Hprev Hcurr Hth Htw Htf Hb0 Hp0) as [st1 [Hrun1 [Hb1 Hp1]]].
      rewrite (bind_value _ _ st0 tt st1 Hrun1).
      rewrite (bind_lift_inr _ fpi) by exact Hfpi.
      destruct (display_loop_streaming (range fpi) total curr st1 Hb1)
        as [st2 [Hrun2 [Hb2 _]]]. eauto. }
  destruct Hsegments as [st1 [Hrun1 Hb1]].
  rewrite (bind_value _ _ st tt st1 Hrun1).
  destruct (report_streaming th tw total curr st1 Htotal Hb1 Hcurr) as [st' [Hrun [Hs' Hp']]].
  exists st'. split; [exact Hrun |]. split; [exact Hs' | intros _; exact Hp'].
Qed.

Lemma process_images_total E cfg fixed idur tw th total fpi tf files :
  resize_ok E -> decoder_ok E -> resize_total E ->
  0 < th < 2 ^ 53 -> 0 < tw < 2 ^ 53 -> 0 < total < 2 ^ 53 -> tf < 2 ^ 53 ->
  py_int (fmul idur (of_int (frame_rate cfg))) = inr fpi ->
  py_int (fmul (transition_duration cfg) (of_int (frame_rate cfg))) = inr tf ->
  forall i st,
    streaming th tw total st ->
    (i = 0 /\ (exists f rest, files = f :: rest /\ imread E f <> None)) \/
    (1 <= i /\ prev_image st <> None) ->
    exists st',
      process_images E cfg fixed idur tw th total i files st = (inr tt, st') /\
      streaming th tw total st'.
Proof.
  intros HE HD HT Hth Htw Htotal Htf Hfpi Htfv.
  induction files as [| f rest IH]; intros i st Hst Hi.
  - exists st. split; [reflexivity | exact Hst].
  - cbn [process_images].
    assert (Hi' : i = 0 \/ prev_image st <> None) by (destruct Hi as [[H _] | [_ H]]; auto).
    destruct (process_image_total E cfg fixed idur tw th total i f fpi tf st
                HE HD HT Hth Htw Htotal Htf Hfpi Htfv Hst Hi') as [st1 [Hrun [Hst1 Hp1]]].
    rewrite (bind_value _ _ st tt st1 Hrun).
    apply IH; [exact Hst1 |]. right. split.
    + destruct Hi as [[-> _] | [H _]]; lia.
    + apply Hp1. destruct Hi as [[_ [f' [rest' [Heq Hread]]]] | [_ H]]; [right | left; exact H].
      injection Heq as <- <-. exact Hread.
Qed.

(** A run that completes.  Suppose that [cv2.resize] returns an image of
    the size asked for whenever it is given a non-empty image and a positive
    size, and that decoded images are not empty.  Then [create_slideshow]
    returns normally, whatever the transitions (random ones and zooms
    included) and however many images cannot be decoded, as soon as: the
    first image is decoded and gives a positive canvas height, the schedule
    is feasible, the writer is opened, the frame rate is not zero, the frame
    budget is positive and the two segment lengths are computed (all below
    2^53). *)
Theorem create_slideshow_completes E cfg first_path rest first_image image_duration
        target_h total_frames frames_per_image transition_frames :
  resize_ok E -> decoder_ok E -> resize_total E ->
  imread E first_path = Some first_image ->
  compute_image_duration cfg (Z.of_nat (length (first_path :: rest))) = inr image_duration ->
  canvas_height (Z.of_nat (img_width first_image)) = inr target_h -> 0 < target_h ->
  writer_opened E (output_file cfg) (frame_rate cfg)
                (Z.of_nat (img_width first_image)) target_h = true ->
  frame_budget cfg = inr total_frames -> 0 < total_frames < 2 ^ 53 ->
  frame_rate cfg <> 0 ->
  py_int (fmul image_duration (of_int (frame_rate cfg))) = inr frames_per_image ->
  py_int (fmul (transition_duration cfg) (of_int (frame_rate cfg))) = inr transition_frames ->
  transition_frames < 2 ^ 53 ->
  fst (create_slideshow E (first_path :: rest) cfg initial) = inr tt.
Proof.
  intros HE HD HT Hread Hdur Hth Hth0 Hopen Htotal Htotal0 Hrate Hfpi Htf Htf53.
  destruct (HD _ _ Hread) as [_ [_ Hw]].
  pose proof (canvas_height_bounds _ _ Hw Hth) as Hthb.
  assert (H31 : 2 ^ 31 < 2 ^ 53) by reflexivity.
  destruct (create_slideshow_opened E cfg first_path rest image_duration first_image
              target_h total_frames Hdur Hread Hth Hopen Htotal)
    as [st1 [[Hp1 [Hfc1 [Hw1 _]]] Heq]].
  rewrite Heq. unfold stream_images.
  assert (Hst1 : streaming target_h (Z.of_nat (img_width first_image)) total_frames st1).
  { split; [| now rewrite Hp1]. split; [rewrite Hfc1, Hw1; reflexivity | lia]. }
  destruct (process_images_total E cfg (fst (select_transition cfg)) image_duration
              (Z.of_nat (img_width first_image)) target_h total_frames
              frames_per_image transition_frames (first_path :: rest)
              HE HD HT ltac:(lia) ltac:(lia) Htotal0 Htf53 Hfpi Htf 0 st1 Hst1)
    as [st2 [Hloop _]].
  { left. split; [reflexivity |]. exists first_path, rest. split; [reflexivity |].
    rewrite Hread. discriminate. }
  rewrite (bind_value _ _ st1 tt st2 Hloop).
  unfold bind at 1. unfold print at 1. cbv iota. cbv beta.
  unfold bind at 1. unfold get_frame_count at 1. cbv iota. cbv beta.
  unfold truediv. destruct (Z.eqb_spec (frame_rate cfg) 0) as [Hz | _]; [contradiction |].
  reflexivity.
Qed.

Lemma sample_resize_total : resize_total sample_externals.
Proof.
  intros im w h Hw Hh Hih Hiw. cbn [cv2_resize sample_externals]. unfold nearest_resize.
  destruct (Z.ltb_spec 0 w); [| lia]. destruct (Z.ltb_spec 0 h); [| lia].
  destruct (Z.ltb_spec 0 (Z.of_nat (img_height im))); [| lia].
  destruct (Z.ltb_spec 0 (Z.of_nat (img_width im))); [| lia].
  cbn [andb]. eauto.
Qed.

Lemma create_slideshow_completes_witness :
  let cfg := sample_config (of_int 10) (of_int 1) 10 "random" in
  let files := ["a.png"; "bad.png"; "b.png"; "c.png"]%string in
  resize_total sample_externals /\
  compute_image_duration cfg 4 = inr (ratio 7 4) /\
  fst (create_slideshow sample_externals files cfg initial) = inr tt.
Proof.
  split; [exact sample_resize_total |]. split; [vm_compute; reflexivity |].
  apply (create_slideshow_completes sample_externals
           (sample_config (of_int 10) (of_int 1) 10 "random")
           "a.png" ["bad.png"; "b.png"; "c.png"]%string
           (solid 16 9 (200, 10, 10)) (ratio 7 4) 9 100 17 10);
    try exact sample_resize_ok; try exact sample_decoder_ok;
    try exact sample_resize_total; try (vm_compute; reflexivity);
    try (split; reflexivity); try discriminate.
Defined.

